(** * AetherChain: the ledger engine, its proof of work and block relay

    A shallow embedding of the Go sources
      blockchain/blockchain.go, blockchain/proof_of_work.go,
      the Transaction and Block types of package blockchain,
      consensus.Validator, storage.StateManager (balance total) and
      network/message_handler.go, network/node.go,
    followed by the properties of the ledger that the specification
    states about them.

    Conventions.
    - Go's [int] and [int64] are [Z]; no arithmetic of the modelled code
      leaves the 64-bit range.  [float64] is Rocq's primitive binary64
      [float], so balances are computed exactly as the program does.
    - Go strings are byte strings: [string], one [ascii] per byte.
    - [map[string]float64] is [gmap string float]; reading a missing key
      gives the zero value.
    - A method with a pointer receiver is a computation in the monad
      [M S], where [S] is the receiver: it threads the receiver's state
      and stops at a run-time panic.
    - [time.Now().Unix()] is an explicit argument [now].
    - crypto/sha256, encoding/hex and the part of encoding/json that the
      program uses are written out, so every definition runs. *)

From Stdlib Require Import ZArith String Ascii List Floats Lia.
From stdpp Require Import gmap strings list fin_maps.

Local Open Scope Z_scope.

(** * The library functions the program calls

    crypto/sha256 (FIPS 180-4), encoding/hex, and encoding/json for the
    integers, strings and float64 values of the two hashed structs. *)

Module sha256.

Definition mask32 : Z := 0xffffffff.
Definition add32 (x y : Z) : Z := Z.land (x + y) mask32.
Definition rotr (n x : Z) : Z :=
  Z.lor (Z.shiftr x n) (Z.land (Z.shiftl x (32 - n)) mask32).
Definition not32 (x : Z) : Z := Z.lxor x mask32.

Definition Ch (x y z : Z) : Z := Z.lxor (Z.land x y) (Z.land (not32 x) z).
Definition Maj (x y z : Z) : Z :=
  Z.lxor (Z.lxor (Z.land x y) (Z.land x z)) (Z.land y z).
Definition bsig0 (x : Z) : Z := Z.lxor (Z.lxor (rotr 2 x) (rotr 13 x)) (rotr 22 x).
Definition bsig1 (x : Z) : Z := Z.lxor (Z.lxor (rotr 6 x) (rotr 11 x)) (rotr 25 x).
Definition ssig0 (x : Z) : Z := Z.lxor (Z.lxor (rotr 7 x) (rotr 18 x)) (Z.shiftr x 3).
Definition ssig1 (x : Z) : Z := Z.lxor (Z.lxor (rotr 17 x) (rotr 19 x)) (Z.shiftr x 10).

(* The round constants and the initial state are the first 32 bits of
   the fractional parts of the cube roots of the first 64 primes and of the
   square roots of the first 8. *)
Definition is_prime (n : nat) : bool :=
  forallb (fun d => negb (Nat.eqb (Nat.modulo n d) 0)) (seq 2 (n - 2)).
Definition primes : list Z :=
  Eval vm_compute in map Z.of_nat (List.filter is_prime (seq 2 310)).

Fixpoint cube_root_bits (bits : nat) (n r : Z) : Z :=
  match bits with
  | O => r
  | S b =>
      let c := r + 2 ^ Z.of_nat b in
      cube_root_bits b n (if c * c * c <=? n then c else r)
  end.

Definition K : list Z :=
  Eval vm_compute in map (fun p => cube_root_bits 36 (p * 2 ^ 96) 0 mod 2 ^ 32) primes.

Definition H0 : list Z :=
  Eval vm_compute in map (fun p => Z.sqrt (p * 2 ^ 64) mod 2 ^ 32) (firstn 8 primes).

(* Big-endian bytes of [x], [n] of them. *)
Fixpoint be_bytes (n : nat) (x : Z) : list Z :=
  match n with
  | O => []
  | S m => be_bytes m (Z.shiftr x 8) ++ [Z.land x 0xff]
  end.

(* The message followed by 0x80, zero bytes up to 56 mod 64, and the bit
   length on 8 bytes. *)
Definition pad (msg : list Z) : list Z :=
  let len := Z.of_nat (List.length msg) in
  let zeros := Z.to_nat ((55 - len) mod 64) in
  msg ++ [0x80] ++ repeat 0 zeros ++ be_bytes 8 (8 * len).

Fixpoint words (fuel : nat) (bs : list Z) : list Z :=
  match fuel, bs with
  | S f, b0 :: b1 :: b2 :: b3 :: rest =>
      (Z.shiftl b0 24 + Z.shiftl b1 16 + Z.shiftl b2 8 + b3) :: words f rest
  | _, _ => []
  end.

(* The schedule is kept newest word first, so W[t-2] is at position 1. *)
Fixpoint extend (n : nat) (rev_w : list Z) : list Z :=
  match n with
  | O => rev_w
  | S m =>
      let w := add32 (add32 (ssig1 (nth 1 rev_w 0)) (nth 6 rev_w 0))
                     (add32 (ssig0 (nth 14 rev_w 0)) (nth 15 rev_w 0)) in
      extend m (w :: rev_w)
  end.

Definition schedule (block : list Z) : list Z := rev (extend 48 (rev block)).

Record regs := Regs { ra : Z; rb : Z; rc : Z; rd : Z; re : Z; rf : Z; rg : Z; rh : Z }.

Definition round (s : regs) (kw : Z * Z) : regs :=
  let t1 := add32 (add32 (add32 (rh s) (bsig1 (re s)))
                         (add32 (Ch (re s) (rf s) (rg s)) (fst kw)))
                  (snd kw) in
  let t2 := add32 (bsig0 (ra s)) (Maj (ra s) (rb s) (rc s)) in
  Regs (add32 t1 t2) (ra s) (rb s) (rc s) (add32 (rd s) t1) (re s) (rf s) (rg s).

Definition regs_of (h : list Z) : regs :=
  Regs (nth 0 h 0) (nth 1 h 0) (nth 2 h 0) (nth 3 h 0)
       (nth 4 h 0) (nth 5 h 0) (nth 6 h 0) (nth 7 h 0).

Definition compress (h : list Z) (block : list Z) : list Z :=
  let s := fold_left round (combine K (schedule block)) (regs_of h) in
  let i := regs_of h in
  [ add32 (ra i) (ra s); add32 (rb i) (rb s); add32 (rc i) (rc s); add32 (rd i) (rd s);
    add32 (re i) (re s); add32 (rf i) (rf s); add32 (rg i) (rg s); add32 (rh i) (rh s) ].

Fixpoint blocks (fuel : nat) (ws : list Z) : list (list Z) :=
  match fuel, ws with
  | S f, _ :: _ => firstn 16 ws :: blocks f (skipn 16 ws)
  | _, _ => []
  end.

Definition bytes_of_string (s : string) : list Z :=
  map (fun c => Z.of_N (N_of_ascii c)) (list_ascii_of_string s).

(* sha256.Sum256: the 32 bytes of the digest. *)
Definition Sum256 (data : string) : list Z :=
  let bs := pad (bytes_of_string data) in
  let ws := words (List.length bs) bs in
  let h := fold_left compress (blocks (List.length ws) ws) H0 in
  flat_map (be_bytes 4) h.

End sha256.

Module hex.

Definition digit (n : Z) : ascii :=
  nth (Z.to_nat n) (list_ascii_of_string "0123456789abcdef") "0"%char.
(* hex.EncodeToString *)
Fixpoint EncodeToString (bs : list Z) : string :=
  match bs with
  | [] => EmptyString
  | b :: rest => String (digit (Z.shiftr b 4)) (String (digit (Z.land b 0xf)) (EncodeToString rest))
  end.

End hex.

Module json.

Definition dquote : ascii := "034"%char.
Definition backslash : ascii := "092"%char.
Definition str1 (c : ascii) : string := String c EmptyString.

(* Decimal digits of a natural number, most significant first. *)
Fixpoint digits_of (fuel : nat) (n : Z) (acc : string) : string :=
  match fuel with
  | O => acc
  | S f =>
      let acc' := String (ascii_of_N (Z.to_N (48 + n mod 10))) acc in
      if n <? 10 then acc' else digits_of f (n / 10) acc'
  end.

Definition nat_digits (n : Z) : string :=
  digits_of (S (Z.to_nat (Z.log2 n))) n EmptyString.

(* An int or int64 field. *)
Definition int (n : Z) : string :=
  if n <? 0 then String "-" (nat_digits (- n)) else nat_digits n.

(* utf8.DecodeRuneInString on the head of [bs]: the width of a well-formed
   encoding, or None where Go returns (RuneError, 1). *)
Definition cont (b : Z) : bool := (0x80 <=? b) && (b <=? 0xbf).
Definition rune_width (bs : list Z) : option nat :=
  match bs with
  | [] => None
  | b0 :: t =>
      if b0 <? 0x80 then Some 1%nat
      else if b0 <? 0xc2 then None
      else if b0 <? 0xe0 then
        match t with b1 :: _ => if cont b1 then Some 2%nat else None | _ => None end
      else if b0 <? 0xf0 then
        match t with
        | b1 :: b2 :: _ =>
            let lo := if b0 =? 0xe0 then 0xa0 else 0x80 in
            let hi := if b0 =? 0xed then 0x9f else 0xbf in
            if (lo <=? b1) && (b1 <=? hi) && cont b2 then Some 3%nat else None
        | _ => None
        end
      else if b0 <? 0xf5 then
        match t with
        | b1 :: b2 :: b3 :: _ =>
            let lo := if b0 =? 0xf0 then 0x90 else 0x80 in
            let hi := if b0 =? 0xf4 then 0x8f else 0xbf in
            if (lo <=? b1) && (b1 <=? hi) && cont b2 && cont b3 then Some 4%nat else None
        | _ => None
        end
      else None
  end.

Definition u00 (b : Z) : string :=
  String backslash (String "u" (String "0" (String "0"
    (String (hex.digit (Z.shiftr b 4)) (str1 (hex.digit (Z.land b 0xf))))))).

Definition escape_ascii (b : Z) : string :=
  if (b =? 0x22) || (b =? 0x5c) then String backslash (str1 (ascii_of_N (Z.to_N b)))
  else if b =? 0x08 then String backslash "b"
  else if b =? 0x0c then String backslash "f"
  else if b =? 0x0a then String backslash "n"
  else if b =? 0x0d then String backslash "r"
  else if b =? 0x09 then String backslash "t"
  else if (b <? 0x20) || (b =? 0x3c) || (b =? 0x3e) || (b =? 0x26) then u00 b
  else str1 (ascii_of_N (Z.to_N b)).

(* The body of a string value; [skip] counts the continuation bytes of a
   rune that has been dealt with already. *)
Fixpoint escape (skip : nat) (keep : bool) (bs : list Z) : string :=
  match bs with
  | [] => EmptyString
  | b :: t =>
      match skip with
      | S k => (if keep then str1 (ascii_of_N (Z.to_N b)) else EmptyString) +:+ escape k keep t
      | O =>
          if b <? 0x80 then escape_ascii b +:+ escape O true t
          else match rune_width bs with
               | None => String backslash "ufffd" +:+ escape O true t
               | Some w =>
                   match bs with
                   | 0xe2 :: 0x80 :: 0xa8 :: _ => String backslash "u2028" +:+ escape 2 false t
                   | 0xe2 :: 0x80 :: 0xa9 :: _ => String backslash "u2029" +:+ escape 2 false t
                   | _ => str1 (ascii_of_N (Z.to_N b)) +:+ escape (w - 1) true t
                   end
               end
      end
  end.

(* A string field, quoted and escaped as encoding/json does by default
   (HTML-safe escaping on, Go 1.22 and later for \b and \f). *)
Definition str (s : string) : string :=
  String dquote (escape O true (sha256.bytes_of_string s) +:+ str1 dquote).

(* ["name":value], the name taken from the field's json tag. *)
Definition field (name value : string) : string :=
  String dquote (name +:+ String dquote (String ":" value)).

Fixpoint commas (fs : list string) : string :=
  match fs with
  | [] => EmptyString
  | [f] => f
  | f :: rest => f +:+ String "," (commas rest)
  end.

Definition object (fs : list string) : string :=
  String "{" (commas fs +:+ "}").

End json.

Module strconv.

(* The shortest decimal that reads back as the same float64
   (strconv.FormatFloat with precision -1): for v = m * 2^e, the digits
   d and the scale k of d * 10^k, found at the largest k for which the
   truncation of v at that scale, or the truncation plus one unit, falls
   between the midpoints to the neighbouring floats. *)
Record interval := Interval {
  vnum : Z; lnum : Z; unum : Z; (* value, lower and upper, over den *)
  den : Z;
  inclusive : bool
}.

Definition bounds (m : positive) (e : Z) : interval :=
  let m := Z.pos m in
  let narrow := (m =? 2 ^ 52) && negb (e =? -1074) in
  let x := e - 2 in
  let up := 2 ^ Z.max x 0 in
  Interval (4 * m * up)
           ((if narrow then 4 * m - 1 else 4 * m - 2) * up)
           ((4 * m + 2) * up)
           (2 ^ Z.max (- x) 0)
           (Z.even m).

Definition p10 (k : Z) : Z := 10 ^ Z.max k 0.

Fixpoint shortest (fuel : nat) (i : interval) (k : Z) : Z * Z :=
  let scale := den i * p10 k in
  let q := (vnum i * p10 (- k)) / scale in
  match fuel with
  | O => (q, k)
  | S f =>
      let down := q * scale in
      let up := (q + 1) * scale in
      let lo := lnum i * p10 (- k) in
      let hi := unum i * p10 (- k) in
      let okdown := if inclusive i then lo <=? down else lo <? down in
      let okup := if inclusive i then up <=? hi else up <? hi in
      let rem2 := 2 * (vnum i * p10 (- k) - down) in
      let nearest_up := (scale <? rem2) || ((scale =? rem2) && Z.odd q) in
      if okdown && okup then (if nearest_up then q + 1 else q, k)
      else if okdown then (q, k)
      else if okup then (q + 1, k)
      else shortest f i (k - 1)
  end.

Definition digits (m : positive) (e : Z) : Z * Z :=
  let i := bounds m e in
  let top := (Z.log2 (unum i) - Z.log2 (den i) + 1) * 30103 / 100000 + 1 in
  shortest 1200 i top.

Fixpoint zeros (n : nat) : string :=
  match n with O => EmptyString | S m => String "0" (zeros m) end.

(* %e: d.ddde+XX, the exponent on two digits at least. *)
Definition fmt_e (ds : string) (dp : Z) : string :=
  let ex := dp - 1 in
  let mant := match ds with
              | String d EmptyString => String d EmptyString
              | String d rest => String d (String "." rest)
              | EmptyString => "0"
              end in
  let a := json.nat_digits (Z.abs ex) in
  let sign : ascii := if ex <? 0 then "-"%char else "+"%char in
  let lead : string := if Z.abs ex <? 10 then "0" else EmptyString in
  mant +:+ String "e" (String sign (lead +:+ a)).

(* %f: the integer part, then the fraction if any digit is left. *)
Definition fmt_f (ds : string) (dp : Z) : string :=
  let nd := Z.of_nat (String.length ds) in
  let ip := if 0 <? dp
            then substring 0 (Z.to_nat (Z.min nd dp)) ds +:+ zeros (Z.to_nat (dp - nd))
            else "0" in
  if dp <? nd
  then ip +:+ String "." (zeros (Z.to_nat (- dp))
                          +:+ substring (Z.to_nat (Z.max dp 0)) (Z.to_nat nd) ds)
  else ip.

End strconv.

Module json_float.

(* abs < 1e-6 || abs >= 1e21, on float64 as in the encoder. *)
Definition wants_exponent (f : float) : bool :=
  let a := PrimFloat.abs f in
  PrimFloat.ltb a 0x1.0c6f7a0b5ed8dp-20 || PrimFloat.leb 0x1.b1ae4d6e2ef5p+69 a.

(* encoding/json's float64 encoder: an error for NaN and the infinities,
   %e outside [1e-6, 1e21) with the exponent's leading zero removed, %f
   inside. *)
Definition encode (f : float) : option string :=
  match Prim2SF f with
  | S754_nan | S754_infinity _ => None
  | S754_zero s => Some (if s then "-0" else "0")
  | S754_finite s m e =>
      let '(d, k) := strconv.digits m e in
      let ds := json.nat_digits d in
      let dp := Z.of_nat (String.length ds) + k in
      let body :=
        if wants_exponent f then
          let r := strconv.fmt_e ds dp in
          let n := String.length r in
          if (4 <=? n)%nat && String.eqb (substring (n - 4) 1 r) "e"
             && String.eqb (substring (n - 2) 1 r) "0"
          then substring 0 (n - 2) r +:+ substring (n - 1) 1 r
          else r
        else strconv.fmt_f ds dp in
      Some (if s then String "-" body else body)
  end.

End json_float.

(** hex.EncodeToString(sha256.Sum256(data)), as every hash of the program
    is computed. *)
Definition sha256_hex (data : string) : string :=
  hex.EncodeToString (sha256.Sum256 data).

(** * Methods as computations

    [M S A] is a method body run on a receiver of type [S]: it ends with
    a value and the receiver's new state, or with a run-time panic. *)

Inductive result (A : Type) : Type :=
| Ok (a : A)
| Panic (reason : string).
Arguments Ok {A} a.
Arguments Panic {A} reason.

Definition M (S A : Type) : Type := S -> result (A * S).

Definition ret {S A : Type} (a : A) : M S A := fun s => Ok (a, s).

Definition bind {S A B : Type} (m : M S A) (k : A -> M S B) : M S B :=
  fun s => match m s with
           | Ok (a, s') => k a s'
           | Panic r => Panic r
           end.

Definition get {S : Type} : M S S := fun s => Ok (s, s).
Definition modify {S : Type} (f : S -> S) : M S unit := fun s => Ok (tt, f s).
Definition panic {S A : Type} (reason : string) : M S A := fun _ => Panic reason.

(** A method call on another object [obj]: the caller's own state is
    untouched, and the callee's final state comes back with the value. *)
Definition call {S T A : Type} (obj : T) (m : M T A) : M S (A * T) :=
  fun s => match m obj with
           | Ok r => Ok (r, s)
           | Panic r => Panic r
           end.

Declare Scope go_scope.
Delimit Scope go_scope with go.
Notation "x <- c1 ;; c2" := (bind c1 (fun x => c2))
  (at level 100, c1 at next level, c2 at level 200, right associativity) : go_scope.
Notation "c1 ;; c2" := (bind c1 (fun _ => c2))
  (at level 100, c2 at level 200, right associativity) : go_scope.
Local Open Scope go_scope.

(** [for i := 0; i < bound; i++ { body }] where the body may leave the
    function with a value ([Some r]).  The count of iterations is read in
    binary, so that a bound of a hundred million is no obstacle to running
    the loop; [inr i] is the counter at a normal exit. *)
Fixpoint for_pos {S R : Type} (p : positive) (body : Z -> M S (option R)) (i : Z)
  : M S (R + Z) :=
  let once (k : Z -> M S (R + Z)) : M S (R + Z) :=
    r <- body i ;;
    match r with
    | Some v => ret (inl v)
    | None => k (i + 1)
    end in
  let twice (q : positive) (j : Z) : M S (R + Z) :=
    r <- for_pos q body j ;;
    match r with
    | inl v => ret (inl v)
    | inr j' => for_pos q body j'
    end in
  match p with
  | xH => once (fun j => ret (inr j))
  | xO q => twice q i
  | xI q => once (twice q)
  end.

Definition for_lt {S R : Type} (bound : Z) (body : Z -> M S (option R)) : M S (R + Z) :=
  match bound with
  | Zpos p => for_pos p body 0
  | _ => ret (inr 0)
  end.

(** [for _, x := range l { if !check(x) { return false } }; return true] *)
Fixpoint range_all {S A : Type} (l : list A) (check : A -> M S bool) : M S bool :=
  match l with
  | [] => ret true
  | a :: rest =>
      ok <- check a ;;
      if negb ok then ret false else range_all rest check
  end.

(** [s[:hi]] on a string. *)
Definition slice_to {S : Type} (s : string) (hi : Z) : M S string :=
  if (hi <? 0) || (Z.of_nat (String.length s) <? hi)
  then panic "slice bounds out of range"
  else ret (substring 0 (Z.to_nat hi) s).

(** [l[i]] on a slice. *)
Definition at_index {S A : Type} (l : list A) (i : Z) : M S A :=
  if i <? 0 then panic "index out of range"
  else match l !! Z.to_nat i with
       | Some a => ret a
       | None => panic "index out of range"
       end.

Definition error : Type := string.

(** * Package blockchain: transactions *)

Module Transaction.

Record t : Type := mk {
  Version : Z;
  Hash : string;
  From : string;
  To : string;
  Amount : float;
  Fee : float;
  Nonce : Z;
  Timestamp : Z;
  Signature : string;
  PublicKey : string;
  Status : string;
  BlockHash : string
}.

Definition set_Hash (h : string) (tx : t) : t :=
  mk (Version tx) h (From tx) (To tx) (Amount tx) (Fee tx) (Nonce tx) (Timestamp tx)
     (Signature tx) (PublicKey tx) (Status tx) (BlockHash tx).
Definition set_Signature (sg : string) (tx : t) : t :=
  mk (Version tx) (Hash tx) (From tx) (To tx) (Amount tx) (Fee tx) (Nonce tx) (Timestamp tx)
     sg (PublicKey tx) (Status tx) (BlockHash tx).
Definition set_PublicKey (pk : string) (tx : t) : t :=
  mk (Version tx) (Hash tx) (From tx) (To tx) (Amount tx) (Fee tx) (Nonce tx) (Timestamp tx)
     (Signature tx) pk (Status tx) (BlockHash tx).

(** The anonymous struct [hashData] of CalculateHash: the seven fields
    that are hashed. *)
Record hashData : Type := mkHashData {
  hd_Version : Z;
  hd_From : string;
  hd_To : string;
  hd_Amount : float;
  hd_Fee : float;
  hd_Nonce : Z;
  hd_Timestamp : Z
}.

Definition hashData_of (tx : t) : hashData :=
  mkHashData (Version tx) (From tx) (To tx) (Amount tx) (Fee tx) (Nonce tx) (Timestamp tx).

(** json.Marshal(hashData); [None] is the error for a NaN or an infinite
    amount or fee. *)
Definition Marshal_hashData (d : hashData) : option string :=
  match json_float.encode (hd_Amount d), json_float.encode (hd_Fee d) with
  | Some amount, Some fee =>
      Some (json.object
              [ json.field "version" (json.int (hd_Version d));
                json.field "from" (json.str (hd_From d));
                json.field "to" (json.str (hd_To d));
                json.field "amount" amount;
                json.field "fee" fee;
                json.field "nonce" (json.int (hd_Nonce d));
                json.field "timestamp" (json.int (hd_Timestamp d)) ])
  | _, _ => None
  end.

(** The error of json.Marshal is dropped ([data, _ := ...]): [data] is
    then empty. *)
Definition CalculateHash (tx : t) : string :=
  let data := match Marshal_hashData (hashData_of tx) with
              | Some data => data
              | None => EmptyString
              end in
  sha256_hex data.

Definition NewTransaction (now : Z) (from to : string) (amount fee : float) (nonce : Z) : t :=
  let tx := {| Version := 1;
               Hash := EmptyString;
               From := from;
               To := to;
               Amount := amount;
               Fee := fee;
               Nonce := nonce;
               Timestamp := now;
               Signature := EmptyString;
               PublicKey := EmptyString;
               Status := "pending";
               BlockHash := EmptyString |} in
  set_Hash (CalculateHash tx) tx.

Definition Sign (privateKey : string) : M t (option error) :=
  tx <- get ;;
  let signatureData := Hash tx +:+ privateKey in
  modify (set_Signature (sha256_hex signatureData)) ;;
  ret None.

Definition VerifySignature (tx : t) : bool :=
  if String.eqb (Signature tx) EmptyString then false
  else
    let expectedSignature := Hash tx +:+ PublicKey tx in
    let expectedHash := sha256_hex expectedSignature in
    String.eqb (Signature tx) expectedHash.

Definition IsValid (tx : t) : bool :=
  if PrimFloat.leb (Amount tx) 0 then false
  else if String.eqb (From tx) (To tx) then false
  else if negb (VerifySignature tx) then false
  else true.

End Transaction.

(** * Package blockchain: blocks *)

Module Block.

Record t : Type := mk {
  Version : Z;
  Index : Z;
  Timestamp : Z;
  PrevHash : string;
  MerkleRoot : string;
  Transactions : list Transaction.t;
  Nonce : Z;
  Difficulty : Z;
  Hash : string;
  Miner : string;
  BlockReward : float
}.

Definition set_PrevHash (p : string) (b : t) : t :=
  mk (Version b) (Index b) (Timestamp b) p (MerkleRoot b) (Transactions b) (Nonce b)
     (Difficulty b) (Hash b) (Miner b) (BlockReward b).
Definition set_MerkleRoot (r : string) (b : t) : t :=
  mk (Version b) (Index b) (Timestamp b) (PrevHash b) r (Transactions b) (Nonce b)
     (Difficulty b) (Hash b) (Miner b) (BlockReward b).
Definition set_Nonce (n : Z) (b : t) : t :=
  mk (Version b) (Index b) (Timestamp b) (PrevHash b) (MerkleRoot b) (Transactions b) n
     (Difficulty b) (Hash b) (Miner b) (BlockReward b).
Definition set_Hash (h : string) (b : t) : t :=
  mk (Version b) (Index b) (Timestamp b) (PrevHash b) (MerkleRoot b) (Transactions b) (Nonce b)
     (Difficulty b) h (Miner b) (BlockReward b).
Definition set_Miner (m : string) (b : t) : t :=
  mk (Version b) (Index b) (Timestamp b) (PrevHash b) (MerkleRoot b) (Transactions b) (Nonce b)
     (Difficulty b) (Hash b) m (BlockReward b).

(** The header fields that are hashed: every field but the transactions,
    the hash itself, the miner and the reward. *)
Definition CalculateHash (b : t) : string :=
  let data := json.object
                [ json.field "version" (json.int (Version b));
                  json.field "index" (json.int (Index b));
                  json.field "timestamp" (json.int (Timestamp b));
                  json.field "prev_hash" (json.str (PrevHash b));
                  json.field "merkle_root" (json.str (MerkleRoot b));
                  json.field "nonce" (json.int (Nonce b));
                  json.field "difficulty" (json.int (Difficulty b)) ] in
  sha256_hex data.

Definition CalculateMerkleRoot (b : t) : string :=
  match Transactions b with
  | [] => EmptyString
  | txs =>
      let txHashes := fold_left (fun acc tx => acc +:+ Transaction.Hash tx) txs EmptyString in
      sha256_hex txHashes
  end.

Definition NewBlock (now : Z) (index : Z) (transactions : list Transaction.t)
    (prevHash : string) (difficulty : Z) : t :=
  let block := {| Version := 1;
                  Index := index;
                  Timestamp := now;
                  PrevHash := prevHash;
                  MerkleRoot := EmptyString;
                  Transactions := transactions;
                  Nonce := 0;
                  Difficulty := difficulty;
                  Hash := EmptyString;
                  Miner := EmptyString;
                  BlockReward := 50 |} in
  set_MerkleRoot (CalculateMerkleRoot block) block.

Definition set_Transactions (txs : list Transaction.t) (b : t) : t :=
  mk (Version b) (Index b) (Timestamp b) (PrevHash b) (MerkleRoot b) txs (Nonce b)
     (Difficulty b) (Hash b) (Miner b) (BlockReward b).
Definition set_BlockReward (r : float) (b : t) : t :=
  mk (Version b) (Index b) (Timestamp b) (PrevHash b) (MerkleRoot b) (Transactions b) (Nonce b)
     (Difficulty b) (Hash b) (Miner b) r.

(** The prefix that the loop of IsValid builds. *)
Fixpoint zero_prefix (n : nat) : string :=
  match n with
  | O => EmptyString
  | S m => zero_prefix m +:+ "0"
  end.

(** The block's own check of its hash, against its own difficulty. *)
Definition IsValid : M t bool :=
  b <- get ;;
  let hash := CalculateHash b in
  let prefix := zero_prefix (Z.to_nat (Difficulty b)) in
  if Z.of_nat (String.length hash) <? Difficulty b then ret false
  else
    head <- slice_to hash (Difficulty b) ;;
    ret (String.eqb head prefix).

End Block.

(** * Package blockchain: proof of work *)

Module ProofOfWork.

Record t : Type := mk {
  Block : Block.t;
  Difficulty : Z
}.

Definition NewProofOfWork (block : Block.t) (difficulty : Z) : t := mk block difficulty.

Definition MaxNonce : Z := 100000000.

Definition set_Block_Nonce (n : Z) (pow : t) : t :=
  mk (Block.set_Nonce n (Block pow)) (Difficulty pow).

(** The prefix of [n] zero symbols that the loop of IsValidHash builds. *)
Fixpoint zero_prefix (n : nat) : string :=
  match n with
  | O => EmptyString
  | S m => zero_prefix m +:+ "0"
  end.

Definition IsValidHash (hash : string) : M t bool :=
  pow <- get ;;
  let prefix := zero_prefix (Z.to_nat (Difficulty pow)) in
  if Z.of_nat (String.length hash) <? Difficulty pow then ret false
  else
    head <- slice_to hash (Difficulty pow) ;;
    ret (String.eqb head prefix).

Definition Validate : M t bool :=
  pow <- get ;;
  let hash := Block.CalculateHash (Block pow) in
  IsValidHash hash.

Definition Mine : M t (Z * string * option error) :=
  r <- for_lt MaxNonce (fun nonce =>
         modify (set_Block_Nonce nonce) ;;
         pow <- get ;;
         let hash := Block.CalculateHash (Block pow) in
         ok <- IsValidHash hash ;;
         if ok then ret (Some (nonce, hash, None)) else ret None) ;;
  match r with
  | inl found => ret found
  | inr _ => ret (0, EmptyString, Some "failed to mine block after 100000000 attempts")
  end.

End ProofOfWork.

(** * Package blockchain: the chain state machine *)

Module Blockchain.

Record t : Type := mk {
  Chain : list Block.t;
  PendingTx : list Transaction.t;
  Difficulty : Z;
  BlockReward : float;
  Accounts : gmap string float;
  TransactionPool : list Transaction.t
}.

Definition set_Chain (c : list Block.t) (bc : t) : t :=
  mk c (PendingTx bc) (Difficulty bc) (BlockReward bc) (Accounts bc) (TransactionPool bc).
Definition set_Accounts (a : gmap string float) (bc : t) : t :=
  mk (Chain bc) (PendingTx bc) (Difficulty bc) (BlockReward bc) a (TransactionPool bc).
Definition set_TransactionPool (p : list Transaction.t) (bc : t) : t :=
  mk (Chain bc) (PendingTx bc) (Difficulty bc) (BlockReward bc) (Accounts bc) p.

(** [accounts[address]]: the zero value for a missing key. *)
Definition balance (accounts : gmap string float) (address : string) : float :=
  default 0%float (accounts !! address).

Definition len {A : Type} (l : list A) : Z := Z.of_nat (List.length l).

Definition CreateGenesisBlock (now : Z) : M t unit :=
  bc <- get ;;
  let genesisTransactions :=
    [ {| Transaction.Version := 1;
         Transaction.Hash := "genesis_transaction";
         Transaction.From := "0";
         Transaction.To := "genesis_address";
         Transaction.Amount := 1000000;
         Transaction.Fee := 0;
         Transaction.Nonce := 0;
         Transaction.Timestamp := 1704067200; (* 2024-01-01 00:00:00 UTC *)
         Transaction.Signature := EmptyString;
         Transaction.PublicKey := EmptyString;
         Transaction.Status := "confirmed";
         Transaction.BlockHash := EmptyString |} ] in
  let genesisBlock := Block.NewBlock now 0 genesisTransactions "0" (Difficulty bc) in
  let genesisBlock := Block.set_Hash (Block.CalculateHash genesisBlock) genesisBlock in
  let genesisBlock := Block.set_Miner "genesis_miner" genesisBlock in
  modify (set_Chain [genesisBlock]) ;;
  modify (fun bc => set_Accounts (<["genesis_address" := 1000000%float]> (Accounts bc)) bc).

Definition NewBlockchain (now : Z) (difficulty : Z) (blockReward : float) : result t :=
  let bc := mk [] [] difficulty blockReward ∅ [] in
  match CreateGenesisBlock now bc with
  | Ok (_, bc) => Ok bc
  | Panic r => Panic r
  end.

Definition IsValidBlock (block : option Block.t) : M t bool :=
  match block with
  | None => ret false
  | Some block =>
      bc <- get ;;
      if negb (Block.Index block =? len (Chain bc)) then ret false
      else
        lastBlock <- at_index (Chain bc) (len (Chain bc) - 1) ;;
        if negb (String.eqb (Block.PrevHash block) (Block.Hash lastBlock)) then ret false
        else
          v <- call (ProofOfWork.NewProofOfWork block (Difficulty bc)) ProofOfWork.Validate ;;
          if negb (fst v) then ret false
          else ret (forallb Transaction.IsValid (Block.Transactions block))
  end.

Definition processTransaction (tx : Transaction.t) : M t unit :=
  modify (fun bc =>
    set_Accounts
      (<[Transaction.From tx :=
          PrimFloat.sub (balance (Accounts bc) (Transaction.From tx))
                        (PrimFloat.add (Transaction.Amount tx) (Transaction.Fee tx))]>
         (Accounts bc)) bc) ;;
  modify (fun bc =>
    set_Accounts
      (<[Transaction.To tx :=
          PrimFloat.add (balance (Accounts bc) (Transaction.To tx)) (Transaction.Amount tx)]>
         (Accounts bc)) bc).

Definition removeProcessedTransactions (processed : list Transaction.t) : M t unit :=
  let processedMap : gmap string bool :=
    fold_left (fun m tx => <[Transaction.Hash tx := true]> m) processed ∅ in
  modify (fun bc =>
    set_TransactionPool
      (List.filter (fun tx => negb (default false (processedMap !! Transaction.Hash tx)))
                   (TransactionPool bc)) bc).

(** [for _, tx := range txs { body tx }] *)
Fixpoint range {S A : Type} (l : list A) (body : A -> M S unit) : M S unit :=
  match l with
  | [] => ret tt
  | a :: rest => body a ;; range rest body
  end.

Definition AddBlock (block : option Block.t) : M t (option error) :=
  valid <- IsValidBlock block ;;
  if negb valid then ret (Some "invalid block")
  else
    match block with
    | None => panic "nil pointer dereference"
    | Some block =>
        range (Block.Transactions block) processTransaction ;;
        modify (fun bc =>
          set_Accounts
            (<[Block.Miner block :=
                PrimFloat.add (balance (Accounts bc) (Block.Miner block)) (Block.BlockReward block)]>
               (Accounts bc)) bc) ;;
        modify (fun bc => set_Chain (Chain bc ++ [block]) bc) ;;
        removeProcessedTransactions (Block.Transactions block) ;;
        ret None
    end.

Definition getTransactionsForBlock : M t (list Transaction.t) :=
  bc <- get ;;
  let maxTransactions := 100 in
  if len (TransactionPool bc) <? maxTransactions then ret (TransactionPool bc)
  else ret (firstn (Z.to_nat maxTransactions) (TransactionPool bc)).

Definition CreateNewBlock (now : Z) (miner : string) : M t (option Block.t * option error) :=
  bc <- get ;;
  if len (Chain bc) =? 0 then ret (None, Some "blockchain not initialized")
  else
    lastBlock <- at_index (Chain bc) (len (Chain bc) - 1) ;;
    transactions <- getTransactionsForBlock ;;
    let newBlock := Block.NewBlock now (len (Chain bc)) transactions (Block.Hash lastBlock)
                                   (Difficulty bc) in
    let newBlock := Block.set_Miner miner newBlock in
    mined <- call (ProofOfWork.NewProofOfWork newBlock (Difficulty bc)) ProofOfWork.Mine ;;
    match mined with
    | (_, _, Some err, _) => ret (None, Some err)
    | (nonce, hash, None, pow) =>
        (* Mine has advanced the nonce of the shared block *)
        let newBlock := ProofOfWork.Block pow in
        let newBlock := Block.set_Nonce nonce newBlock in
        let newBlock := Block.set_Hash hash newBlock in
        ret (Some newBlock, None)
    end.

Definition AddTransaction (tx : Transaction.t) : M t (option error) :=
  if negb (Transaction.IsValid tx) then ret (Some "invalid transaction")
  else
    bc <- get ;;
    if PrimFloat.ltb (balance (Accounts bc) (Transaction.From tx))
                     (PrimFloat.add (Transaction.Amount tx) (Transaction.Fee tx))
    then ret (Some "insufficient balance")
    else
      modify (fun bc => set_TransactionPool (TransactionPool bc ++ [tx]) bc) ;;
      ret None.

Definition GetBalance (address : string) : M t float :=
  bc <- get ;;
  ret (balance (Accounts bc) address).

Definition GetLastBlock : M t (option Block.t) :=
  bc <- get ;;
  if len (Chain bc) =? 0 then ret None
  else
    b <- at_index (Chain bc) (len (Chain bc) - 1) ;;
    ret (Some b).

(** The body of the loop of IsChainValid at [currentBlock = Chain[i]] and
    [previousBlock = Chain[i-1]], followed by the rest of the loop. *)
Fixpoint IsChainValid_from (previousBlock : Block.t) (rest : list Block.t) : M t bool :=
  match rest with
  | [] => ret true
  | currentBlock :: rest' =>
      if negb (String.eqb (Block.Hash currentBlock) (Block.CalculateHash currentBlock))
      then ret false
      else if negb (String.eqb (Block.PrevHash currentBlock) (Block.Hash previousBlock))
      then ret false
      else
        bc <- get ;;
        v <- call (ProofOfWork.NewProofOfWork currentBlock (Difficulty bc)) ProofOfWork.Validate ;;
        if negb (fst v) then ret false
        else IsChainValid_from currentBlock rest'
  end.

(** [for i := 1; i < len(bc.Chain); i++]: the loop starts at the second
    block. *)
Definition IsChainValid : M t bool :=
  bc <- get ;;
  match Chain bc with
  | [] => ret true
  | genesis :: rest => IsChainValid_from genesis rest
  end.

End Blockchain.

(** * Package consensus: the validator

    The validator's only field is the pointer to the blockchain, so its
    methods run on the blockchain. *)

Module Validator.

Definition isDuplicateTransaction (tx : Transaction.t) : M Blockchain.t bool :=
  bc <- get ;;
  ret (existsb (fun existingTx => String.eqb (Transaction.Hash existingTx) (Transaction.Hash tx))
               (Blockchain.TransactionPool bc)).

Definition ValidateTransaction (tx : Transaction.t) : M Blockchain.t bool :=
  if negb (Transaction.IsValid tx) then ret false
  else
    senderBalance <- Blockchain.GetBalance (Transaction.From tx) ;;
    if PrimFloat.ltb senderBalance (PrimFloat.add (Transaction.Amount tx) (Transaction.Fee tx))
    then ret false
    else
      dup <- isDuplicateTransaction tx ;;
      if dup then ret false else ret true.

(** [now] is time.Now().Unix(); two hours are 7200 seconds. *)
Definition validateBlockHeader (now : Z) (block : Block.t) : M Blockchain.t bool :=
  if Block.Version block <? 1 then ret false
  else if now + 7200 <? Block.Timestamp block then ret false
  else
    bc <- get ;;
    v <- call (ProofOfWork.NewProofOfWork block (Blockchain.Difficulty bc)) ProofOfWork.Validate ;;
    if negb (fst v) then ret false
    else if negb (String.eqb (Block.MerkleRoot block) (Block.CalculateMerkleRoot block))
    then ret false
    else ret true.

Definition ValidateBlock (now : Z) (block : option Block.t) : M Blockchain.t bool :=
  match block with
  | None => ret false
  | Some block =>
      header <- validateBlockHeader now block ;;
      if negb header then ret false
      else
        txs <- range_all (Block.Transactions block) ValidateTransaction ;;
        if negb txs then ret false
        else if 1000 <? Blockchain.len (Block.Transactions block) then ret false
        else ret true
  end.

(** The loop of ValidateChain at [currentBlock = chain[i]] and
    [previousBlock = chain[i-1]], followed by the rest of the loop. *)
Fixpoint ValidateChain_from (now : Z) (previousBlock : Block.t) (rest : list Block.t)
  : M Blockchain.t bool :=
  match rest with
  | [] => ret true
  | currentBlock :: rest' =>
      if negb (String.eqb (Block.PrevHash currentBlock) (Block.Hash previousBlock))
      then ret false
      else
        ok <- ValidateBlock now (Some currentBlock) ;;
        if negb ok then ret false
        else ValidateChain_from now currentBlock rest'
  end.

Definition ValidateChain (now : Z) : M Blockchain.t bool :=
  bc <- get ;;
  match Blockchain.Chain bc with
  | [] => ret false
  | genesis :: rest => ValidateChain_from now genesis rest
  end.

End Validator.

(** * Package consensus: mining and received blocks

    The methods below touch the blockchain only; the mining flag and the
    node are read for log lines. *)

Module Consensus.

Definition ValidateBlock (block : option Block.t) : M Blockchain.t bool :=
  match block with
  | None => panic "nil pointer dereference"
  | Some block =>
      own <- call block Block.IsValid ;;
      if negb (fst own) then ret false
      else
        last <- Blockchain.GetLastBlock ;;
        match last with
        | None => panic "nil pointer dereference"
        | Some lastBlock =>
            if negb (Block.Index block =? Block.Index lastBlock + 1) then ret false
            else if negb (String.eqb (Block.PrevHash block) (Block.Hash lastBlock))
            then ret false
            else
              bc <- get ;;
              v <- call (ProofOfWork.NewProofOfWork block (Blockchain.Difficulty bc))
                        ProofOfWork.Validate ;;
              if negb (fst v) then ret false
              else ret (forallb Transaction.IsValid (Block.Transactions block))
        end
  end.

Definition HandleReceivedBlock (block : option Block.t) : M Blockchain.t unit :=
  match block with
  | None => panic "nil pointer dereference"
  | Some _ =>
      valid <- ValidateBlock block ;;
      if negb valid then ret tt
      else
        err <- Blockchain.AddBlock block ;;
        ret tt
  end.

(** mineBlock; the broadcast that follows a commit only writes a log
    line. *)
Definition mineBlock (now : Z) (minerAddress : string) : M Blockchain.t unit :=
  created <- Blockchain.CreateNewBlock now minerAddress ;;
  match created with
  | (_, Some err) => ret tt
  | (None, None) => panic "nil pointer dereference"
  | (Some block, None) =>
      err <- Blockchain.AddBlock (Some block) ;;
      ret tt
  end.

End Consensus.

(** * Package storage: the total of the balances *)

Module StateManager.

(** The order in which Go visits a map is not fixed; the sum is taken in
    the order of the keys. *)
Definition calculateTotalBalance : M Blockchain.t float :=
  bc <- get ;;
  ret (fold_left (fun total kv => PrimFloat.add total (snd kv))
                 (map_to_list (Blockchain.Accounts bc)) 0%float).

Definition recalculateAccountStates : M Blockchain.t unit :=
  modify (Blockchain.set_Accounts ∅) ;;
  bc <- get ;;
  Blockchain.range (Blockchain.Chain bc) (fun block =>
    Blockchain.range (Block.Transactions block) (fun tx =>
      modify (fun bc =>
        Blockchain.set_Accounts
          (<[Transaction.From tx :=
              PrimFloat.sub (Blockchain.balance (Blockchain.Accounts bc) (Transaction.From tx))
                            (PrimFloat.add (Transaction.Amount tx) (Transaction.Fee tx))]>
             (Blockchain.Accounts bc)) bc) ;;
      modify (fun bc =>
        Blockchain.set_Accounts
          (<[Transaction.To tx :=
              PrimFloat.add (Blockchain.balance (Blockchain.Accounts bc) (Transaction.To tx))
                            (Transaction.Amount tx)]>
             (Blockchain.Accounts bc)) bc)) ;;
    modify (fun bc =>
      Blockchain.set_Accounts
        (<[Block.Miner block :=
            PrimFloat.add (Blockchain.balance (Blockchain.Accounts bc) (Block.Miner block))
                          (Block.BlockReward block)]>
           (Blockchain.Accounts bc)) bc)).

(** [saved] is what database.SaveBlockchain() returns after the
    rollback: nil or its error. *)
Definition RollbackToHeight (height : Z) (saved : option error) : M Blockchain.t (option error) :=
  bc <- get ;;
  if (height <? 0) || (Blockchain.len (Blockchain.Chain bc) <=? height)
  then ret (Some ("invalid height: " +:+ json.int height))
  else
    modify (fun bc =>
      Blockchain.set_Chain (firstn (Z.to_nat (height + 1)) (Blockchain.Chain bc)) bc) ;;
    recalculateAccountStates ;;
    match saved with
    | Some err => ret (Some ("failed to save rolled back state: " +:+ err))
    | None => ret None
    end.

End StateManager.

(** * Package network: the relay of announced blocks *)

Module network.

(** A peer; [Conn] is the connection, seen as the messages written to it
    so far. *)
Record Peer : Type := mkPeer {
  ID : string;
  Address : string;
  Conn : list string;
  Connected : bool;
  LastSeen : Z
}.

Definition Write (message : string) (p : Peer) : Peer :=
  mkPeer (ID p) (Address p) (Conn p ++ [message]) (Connected p) (LastSeen p).

Record NewBlockMessage : Type := mkNewBlockMessage {
  Block : option Block.t
}.

(** A message of type new_block.  [Data] stands for the raw payload
    through what json.Unmarshal makes of it: [None] when decoding into a
    NewBlockMessage fails. *)
Record NetworkMessage : Type := mkNetworkMessage {
  Type_ : string;
  Data : option NewBlockMessage;
  Timestamp : Z;
  NodeID : string;
  Version : string
}.

(** The node: its blockchain and the registry of peers by id (the
    listener, the lock and the stop channel play no part here). *)
Record Node : Type := mkNode {
  blockchain : Blockchain.t;
  peers : gmap string Peer;
  isRunning : bool
}.

Definition set_peers (ps : gmap string Peer) (n : Node) : Node :=
  mkNode (blockchain n) ps (isRunning n).
Definition set_blockchain (bc : Blockchain.t) (n : Node) : Node :=
  mkNode bc (peers n) (isRunning n).

(** A call of a method of [n.blockchain]. *)
Definition on_blockchain {A : Type} (m : M Blockchain.t A) : M Node A :=
  fun n => match m (blockchain n) with
           | Ok (a, bc) => Ok (a, set_blockchain bc n)
           | Panic r => Panic r
           end.

Definition BroadcastMessage (message : string) : M Node unit :=
  modify (fun n =>
    set_peers ((fun peer => if Connected peer then Write message peer else peer) <$> peers n) n).

(** [rawData] is the message as it was received: the handler names it
    without declaring it, and HandleMessage is where it is bound. *)
Definition handleNewBlock (peer : Peer) (message : NetworkMessage) (rawData : string)
  : M Node unit :=
  match Data message with
  | None => ret tt
  | Some newBlockData =>
      match Block newBlockData with
      | None => panic "nil pointer dereference"
      | Some block =>
          slice_to (Block.Hash block) 16 ;;
          valid <- on_blockchain (Blockchain.IsValidBlock (Some block)) ;;
          if valid then
            on_blockchain (Blockchain.AddBlock (Some block)) ;;
            BroadcastMessage rawData
          else ret tt
      end
  end.

Record BlocksMessage : Type := mkBlocksMessage {
  Blocks : list (option Block.t)
}.

Record NewTxMessage : Type := mkNewTxMessage {
  Transaction : option Transaction.t
}.

(** handleBlocks; [data] is what json.Unmarshal makes of the payload of
    the message, [None] for a decoding error. *)
Definition handleBlocks (peer : Peer) (data : option BlocksMessage) : M Node unit :=
  match data with
  | None => ret tt
  | Some blocksData =>
      Blockchain.range (Blocks blocksData) (fun block =>
        valid <- on_blockchain (Blockchain.IsValidBlock block) ;;
        if valid then
          err <- on_blockchain (Blockchain.AddBlock block) ;;
          ret tt
        else ret tt)
  end.

(** handleNewTx, with [data] and [rawData] as for the other handlers. *)
Definition handleNewTx (peer : Peer) (data : option NewTxMessage) (rawData : string)
  : M Node unit :=
  match data with
  | None => ret tt
  | Some newTxData =>
      match Transaction newTxData with
      | None => panic "nil pointer dereference"
      | Some tx =>
          slice_to (Transaction.Hash tx) 16 ;;
          if Transaction.IsValid tx then
            err <- on_blockchain (Blockchain.AddTransaction tx) ;;
            slice_to (Transaction.Hash tx) 16 ;;
            BroadcastMessage rawData
          else ret tt
      end
  end.

Definition addPeer (peer : Peer) : M Node unit :=
  modify (fun n => set_peers (<[ID peer := peer]> (peers n)) n).

Definition removePeer (peerID : string) : M Node unit :=
  modify (fun n => set_peers (delete peerID (peers n)) n).

Definition GetPeerCount : M Node Z :=
  n <- get ;;
  ret (Z.of_nat (size (peers n))).

Definition HasPeer (address : string) : M Node bool :=
  n <- get ;;
  ret (existsb (fun entry => String.eqb (Address (snd entry)) address)
               (map_to_list (peers n))).

End network.

(** * Notions used to state the properties *)

(** The loop of [for_pos] with its count in unary, for inductions. *)
Fixpoint for_nat {S R : Type} (n : nat) (body : Z -> M S (option R)) (i : Z) : M S (R + Z) :=
  match n with
  | O => ret (inr i)
  | S m =>
      r <- body i ;;
      match r with
      | Some v => ret (inl v)
      | None => for_nat m body (i + 1)
      end
  end.

(** The proof-of-work condition: [hash] is long enough and starts with
    [difficulty] zero symbols. *)
Definition meets_difficulty (difficulty : Z) (hash : string) : bool :=
  (difficulty <=? Z.of_nat (String.length hash))
  && String.eqb (substring 0 (Z.to_nat difficulty) hash)
                (ProofOfWork.zero_prefix (Z.to_nat difficulty)).

(** The hash of the block of [pow] when its nonce is [nonce]. *)
Definition hash_at (pow : ProofOfWork.t) (nonce : Z) : string :=
  Block.CalculateHash (Block.set_Nonce nonce (ProofOfWork.Block pow)).

(** The body of the loop of Mine. *)
Definition mine_body (nonce : Z) : M ProofOfWork.t (option (Z * string * option error)) :=
  modify (ProofOfWork.set_Block_Nonce nonce) ;;
  pow <- get ;;
  let hash := Block.CalculateHash (ProofOfWork.Block pow) in
  ok <- ProofOfWork.IsValidHash hash ;;
  if ok then ret (Some (nonce, hash, None)) else ret None.

(** The block that CreateNewBlock returns once Mine has found [nonce] and
    [hash] and left the proof of work in state [pow]. *)
Definition mined_block (pow : ProofOfWork.t) (nonce : Z) (hash : string) : Block.t :=
  Block.set_Hash hash (Block.set_Nonce nonce (ProofOfWork.Block pow)).

(** * The effect of a committed block, in the specification's words *)

(** The sender is debited by amount + fee, then the recipient is credited
    by the amount. *)
Definition transfer (accounts : gmap string float) (tx : Transaction.t) : gmap string float :=
  let debited :=
    <[Transaction.From tx :=
        PrimFloat.sub (Blockchain.balance accounts (Transaction.From tx))
                      (PrimFloat.add (Transaction.Amount tx) (Transaction.Fee tx))]> accounts in
  <[Transaction.To tx :=
      PrimFloat.add (Blockchain.balance debited (Transaction.To tx)) (Transaction.Amount tx)]>
    debited.

(** The miner is credited by the block's reward. *)
Definition reward (accounts : gmap string float) (b : Block.t) : gmap string float :=
  <[Block.Miner b :=
      PrimFloat.add (Blockchain.balance accounts (Block.Miner b)) (Block.BlockReward b)]>
    accounts.

(** [tx] has the hash of some transaction of the block. *)
Definition in_block (b : Block.t) (tx : Transaction.t) : bool :=
  existsb (fun t => String.eqb (Transaction.Hash t) (Transaction.Hash tx))
          (Block.Transactions b).

(** The state after [b] has been committed on [bc]. *)
Definition commit (bc : Blockchain.t) (b : Block.t) : Blockchain.t :=
  Blockchain.mk
    (Blockchain.Chain bc ++ [b])
    (Blockchain.PendingTx bc)
    (Blockchain.Difficulty bc)
    (Blockchain.BlockReward bc)
    (reward (fold_left transfer (Block.Transactions b) (Blockchain.Accounts bc)) b)
    (List.filter (fun tx => negb (in_block b tx)) (Blockchain.TransactionPool bc)).

(** The checks of IsValidBlock on a chain whose last block is [tip]. *)
Definition accepts (bc : Blockchain.t) (tip b : Block.t) : bool :=
  (Block.Index b =? Blockchain.len (Blockchain.Chain bc))
  && String.eqb (Block.PrevHash b) (Block.Hash tip)
  && meets_difficulty (Blockchain.Difficulty bc) (Block.CalculateHash b)
  && forallb Transaction.IsValid (Block.Transactions b).

(** Validate on a block under the chain's difficulty. *)
Definition pow_of (bc : Blockchain.t) (b : Block.t) : ProofOfWork.t :=
  ProofOfWork.NewProofOfWork b (Blockchain.Difficulty bc).

(** The four checks of IsValidBlock that turn a block down, [tip] being
    the last block of the chain.  This is what the code looks at: of a
    transaction it asks Transaction.IsValid only, never the balance of
    its sender. *)
Definition rejected (bc : Blockchain.t) (tip b : Block.t) : Prop :=
  Block.Index b <> Blockchain.len (Blockchain.Chain bc)
  \/ Block.PrevHash b <> Block.Hash tip
  \/ ProofOfWork.Validate (pow_of bc b) = Ok (false, pow_of bc b)
  \/ exists tx, In tx (Block.Transactions b) /\ Transaction.IsValid tx = false.

(** The balance check of AddTransaction: the sender's committed balance
    is less than amount + fee. *)
Definition underfunded (bc : Blockchain.t) (tx : Transaction.t) : bool :=
  PrimFloat.ltb (Blockchain.balance (Blockchain.Accounts bc) (Transaction.From tx))
                (PrimFloat.add (Transaction.Amount tx) (Transaction.Fee tx)).

(** Validation at commit time, in the specification's words (4.1): the
    transactions of a block are taken in order, each against the balances
    that the ones before it leave; one fails validation when it is not
    valid in itself or when its sender holds less than amount + fee. *)
Fixpoint spec_fails_validation (accounts : gmap string float) (txs : list Transaction.t)
  : bool :=
  match txs with
  | [] => false
  | tx :: rest =>
      negb (Transaction.IsValid tx)
      || PrimFloat.ltb (Blockchain.balance accounts (Transaction.From tx))
                       (PrimFloat.add (Transaction.Amount tx) (Transaction.Fee tx))
      || spec_fails_validation (transfer accounts tx) rest
  end.

(** The four reasons for which the specification has appendBlock turn a
    block down, [tip] being the last block of the chain. *)
Definition spec_rejects (bc : Blockchain.t) (tip b : Block.t) : Prop :=
  Block.Index b <> Blockchain.len (Blockchain.Chain bc)
  \/ Block.PrevHash b <> Block.Hash tip
  \/ ProofOfWork.Validate (pow_of bc b) = Ok (false, pow_of bc b)
  \/ spec_fails_validation (Blockchain.Accounts bc) (Block.Transactions b) = true.


(** The state after [tx] has been appended to the pool. *)
Definition append_to_pool (bc : Blockchain.t) (tx : Transaction.t) : Blockchain.t :=
  Blockchain.set_TransactionPool (Blockchain.TransactionPool bc ++ [tx]) bc.

(** * Reachable states and the addresses of a chain *)

(** The states of a running node: NewBlockchain, then any sequence of
    AddBlock and AddTransaction. *)
Inductive reachable : Blockchain.t -> Prop :=
| reach_NewBlockchain (now difficulty : Z) (blockReward : float) (bc : Blockchain.t) :
    Blockchain.NewBlockchain now difficulty blockReward = Ok bc ->
    reachable bc
| reach_AddBlock (bc bc' : Blockchain.t) (block : option Block.t) (e : option error) :
    reachable bc ->
    Blockchain.AddBlock block bc = Ok (e, bc') ->
    reachable bc'
| reach_AddTransaction (bc bc' : Blockchain.t) (tx : Transaction.t) (e : option error) :
    reachable bc ->
    Blockchain.AddTransaction tx bc = Ok (e, bc') ->
    reachable bc'.

(** The miner of a block and the senders and recipients of its
    transactions; the genesis block carries the genesis allocation as a
    transaction to genesis_address. *)
Definition block_addresses (b : Block.t) : list string :=
  Block.Miner b
  :: flat_map (fun tx => [Transaction.From tx; Transaction.To tx]) (Block.Transactions b).

Definition chain_addresses (chain : list Block.t) : list string :=
  flat_map block_addresses chain.

(** Every account belongs to an address of the chain. *)
Definition accounts_in_chain (bc : Blockchain.t) : Prop :=
  forall address : string,
    is_Some (Blockchain.Accounts bc !! address) ->
    In address (chain_addresses (Blockchain.Chain bc)).

(** * Validity of a chain *)

(** The three checks of IsChainValid on a block and its predecessor. *)
Definition linked (difficulty : Z) (previousBlock currentBlock : Block.t) : bool :=
  String.eqb (Block.Hash currentBlock) (Block.CalculateHash currentBlock)
  && String.eqb (Block.PrevHash currentBlock) (Block.Hash previousBlock)
  && meets_difficulty difficulty (Block.CalculateHash currentBlock).

Fixpoint all_linked (difficulty : Z) (previousBlock : Block.t) (rest : list Block.t) : bool :=
  match rest with
  | [] => true
  | currentBlock :: rest' =>
      linked difficulty previousBlock currentBlock && all_linked difficulty currentBlock rest'
  end.

(** The chain of [bc] with the previous hash of the block at [i] replaced
    by [p]. *)
Definition alter_PrevHash (i : nat) (p : string) (bc : Blockchain.t) : Blockchain.t :=
  Blockchain.set_Chain (alter (Block.set_PrevHash p) i (Blockchain.Chain bc)) bc.

(** * A concrete run

    A node is created with difficulty 1; a client builds transactions
    with NewTransaction and Sign and declares its key as the public key;
    a block is mined and committed. *)

Module Scenario.

Definition now0 : Z := 1767225600.

Definition signed (from to : string) (amount fee : float) (nonce : Z) (key : string)
  : Transaction.t :=
  let tx := Transaction.NewTransaction now0 from to amount fee nonce in
  match Transaction.Sign key tx with
  | Ok (_, tx) => Transaction.set_PublicKey key tx
  | Panic _ => tx
  end.

(** The state after NewBlockchain(1, 50). *)
Definition bc0 : Blockchain.t :=
  Eval vm_compute in
  match Blockchain.NewBlockchain now0 1 50 with
  | Ok bc => bc
  | Panic _ => Blockchain.mk [] [] 1 50 ∅ []
  end.

(** The state in which a method leaves its receiver. *)
Definition after {S A : Type} (m : M S A) (s : S) : S :=
  match m s with
  | Ok (_, s') => s'
  | Panic _ => s
  end.

(** The block that CreateNewBlock mines at time [now] on [bc]. *)
Definition mine_on (now : Z) (miner : string) (bc : Blockchain.t) : option Block.t :=
  match Blockchain.CreateNewBlock now miner bc with
  | Ok ((b, _), _) => b
  | Panic _ => None
  end.

(** Two transfers of 600000 from the genesis account, which holds
    1000000. *)
Definition spend1 : Transaction.t :=
  Eval vm_compute in signed "genesis_address" "A" 600000 0 1 "k1".
Definition spend2 : Transaction.t :=
  Eval vm_compute in signed "genesis_address" "B" 600000 0 2 "k1".

(** The transfer of the specification's example: 100 with a fee of 1. *)
Definition pay : Transaction.t :=
  Eval vm_compute in signed "genesis_address" "A" 100 1 1 "k1".

(** The genesis block of [bc0]. *)
Definition genesis : Block.t :=
  Eval vm_compute in hd (Block.NewBlock 0 0 [] EmptyString 0) (Blockchain.Chain bc0).

(** The proof of work on the first candidate block over [pay]. *)
Definition pow1 : ProofOfWork.t :=
  Eval vm_compute in
  ProofOfWork.NewProofOfWork
    (Block.set_Miner "M" (Block.NewBlock (now0 + 10) 1 [pay] (Block.Hash genesis) 1)) 1.

(** [pay] enters the pool, then a block is mined over the pool. *)
Definition bc1 : Blockchain.t :=
  Eval vm_compute in after (Blockchain.AddTransaction pay) bc0.
Definition block1 : Block.t :=
  Eval vm_compute in default genesis (mine_on (now0 + 10) "M" bc1).


(** The state after [block1] has been committed. *)
Definition bc2 : Blockchain.t :=
  Eval vm_compute in after (Blockchain.AddBlock (Some block1)) bc1.

(** Both [spend1] and [spend2] enter the pool, and a block is mined over
    them and committed. *)
Definition bcA : Blockchain.t :=
  Eval vm_compute in after (Blockchain.AddTransaction spend1) bc0.
Definition bcB : Blockchain.t :=
  Eval vm_compute in after (Blockchain.AddTransaction spend2) bcA.
Definition blockAB : Block.t :=
  Eval vm_compute in default genesis (mine_on (now0 + 10) "M" bcB).
Definition bcC : Blockchain.t :=
  Eval vm_compute in after (Blockchain.AddBlock (Some blockAB)) bcB.

(** [bcB] with [spend1] applied to the balances, as they stand when the
    commit of [blockAB] comes to [spend2]. *)
Definition bcB_spend1 : Blockchain.t :=
  Eval vm_compute in
  Blockchain.set_Accounts (transfer (Blockchain.Accounts bcB) spend1) bcB.


(** The genesis chain with the previous hash of its only block altered. *)
Definition bc0_tampered : Blockchain.t :=
  Eval vm_compute in alter_PrevHash 0 "tampered" bc0.

(** A node at [bc1] with two connected peers; [p1] announces [block1]. *)
Definition p1 : network.Peer := network.mkPeer "p1" "10.0.0.1:30303" [] true now0.
Definition p2 : network.Peer := network.mkPeer "p2" "10.0.0.2:30303" [] true now0.
Definition node1 : network.Node :=
  network.mkNode bc1 (<["p1" := p1]> (<["p2" := p2]> ∅)) true.
Definition announce : network.NetworkMessage :=
  network.mkNetworkMessage "new_block" (Some (network.mkNewBlockMessage (Some block1)))
    (now0 + 11) "aether_node_1" "1.0.0".
Definition raw_announce : string := "raw bytes of the new_block message".

End Scenario.

(** * Notions for the further properties *)

(** The effect of one block on the balances: its transfers in order,
    then the miner's reward. *)
Definition apply_block (accounts : gmap string float) (b : Block.t) : gmap string float :=
  reward (fold_left transfer (Block.Transactions b) accounts) b.

(** The balances that CreateGenesisBlock sets. *)
Definition genesis_allocation : gmap string float :=
  <["genesis_address" := 1000000%float]> ∅.

(** The transaction and the block that CreateGenesisBlock builds at time
    [now] under [difficulty]. *)
Definition genesis_transaction : Transaction.t :=
  {| Transaction.Version := 1;
     Transaction.Hash := "genesis_transaction";
     Transaction.From := "0";
     Transaction.To := "genesis_address";
     Transaction.Amount := 1000000;
     Transaction.Fee := 0;
     Transaction.Nonce := 0;
     Transaction.Timestamp := 1704067200;
     Transaction.Signature := EmptyString;
     Transaction.PublicKey := EmptyString;
     Transaction.Status := "confirmed";
     Transaction.BlockHash := EmptyString |}.

Definition genesis_of (now difficulty : Z) : Block.t :=
  let g := Block.NewBlock now 0 [genesis_transaction] "0" difficulty in
  Block.set_Miner "genesis_miner" (Block.set_Hash (Block.CalculateHash g) g).

(** What AddBlock has checked of every block after the first: the link to
    the stored hash of the block before it, the index, the proof of work
    under [difficulty] and the validity of the transactions. *)
Definition chain_inv (difficulty : Z) (chain : list Block.t) : Prop :=
  (forall (i : nat) (b : Block.t), chain !! i = Some b -> Block.Index b = Z.of_nat i)
  /\ forall (i : nat) (prev cur : Block.t),
       chain !! i = Some prev ->
       chain !! S i = Some cur ->
       Block.PrevHash cur = Block.Hash prev
       /\ ProofOfWork.Validate (ProofOfWork.NewProofOfWork cur difficulty)
          = Ok (true, ProofOfWork.NewProofOfWork cur difficulty)
       /\ forallb Transaction.IsValid (Block.Transactions cur) = true.

(** Any number of calls of AddBlock and AddTransaction, from one state to
    another. *)
Inductive steps : Blockchain.t -> Blockchain.t -> Prop :=
| steps_refl (bc : Blockchain.t) : steps bc bc
| steps_AddBlock (bc bc' bc'' : Blockchain.t) (block : option Block.t) (e : option error) :
    steps bc bc' ->
    Blockchain.AddBlock block bc' = Ok (e, bc'') ->
    steps bc bc''
| steps_AddTransaction (bc bc' bc'' : Blockchain.t) (tx : Transaction.t) (e : option error) :
    steps bc bc' ->
    Blockchain.AddTransaction tx bc' = Ok (e, bc'') ->
    steps bc bc''.

(** The candidate block of CreateNewBlock before it is mined. *)
Definition candidate (now : Z) (miner : string) (bc : Blockchain.t) (tip : Block.t) : Block.t :=
  Block.set_Miner miner
    (Block.NewBlock now (Blockchain.len (Blockchain.Chain bc))
       (firstn 100 (Blockchain.TransactionPool bc)) (Block.Hash tip) (Blockchain.Difficulty bc)).

(** The registry after a broadcast of [message]. *)
Definition relayed (message : string) (ps : gmap string network.Peer) : gmap string network.Peer :=
  (fun peer => if network.Connected peer then network.Write message peer else peer) <$> ps.

(** * Further concrete runs *)

Module Run.

(** The state after NewBlockchain(65, 50): more zero symbols are asked
    for than a digest has. *)
Definition bc65 : Blockchain.t :=
  Eval vm_compute in
  match Blockchain.NewBlockchain Scenario.now0 65 50 with
  | Ok bc => bc
  | Panic _ => Blockchain.mk [] [] 65 50 ∅ []
  end.

(** [Scenario.pay] after its signature was made, with another recipient,
    amount and fee written over it. *)
Definition pay_rewritten : Transaction.t :=
  Eval vm_compute in
  Transaction.mk
    (Transaction.Version Scenario.pay) (Transaction.Hash Scenario.pay)
    (Transaction.From Scenario.pay) "Z" 999999 0
    (Transaction.Nonce Scenario.pay) (Transaction.Timestamp Scenario.pay)
    (Transaction.Signature Scenario.pay) (Transaction.PublicKey Scenario.pay)
    (Transaction.Status Scenario.pay) (Transaction.BlockHash Scenario.pay).

(** [Scenario.block1] after it was mined, with its transactions dropped,
    another miner and another reward. *)
Definition block1_rewritten : Block.t :=
  Eval vm_compute in
  Block.set_Transactions []
    (Block.set_Miner "X" (Block.set_BlockReward 1000000 (Block.set_Hash "" Scenario.block1))).

(** [Scenario.block1] with a negative difficulty field. *)
Definition block_negative : Block.t :=
  Eval vm_compute in
  Block.mk (Block.Version Scenario.block1) (Block.Index Scenario.block1)
    (Block.Timestamp Scenario.block1) (Block.PrevHash Scenario.block1)
    (Block.MerkleRoot Scenario.block1) (Block.Transactions Scenario.block1)
    (Block.Nonce Scenario.block1) (-1) (Block.Hash Scenario.block1)
    (Block.Miner Scenario.block1) (Block.BlockReward Scenario.block1).

(** A chain whose block reward is set to 7, and the block mined on
    it. *)
Definition bc7 : Blockchain.t :=
  Eval vm_compute in
  match Blockchain.NewBlockchain Scenario.now0 1 7 with
  | Ok bc => bc
  | Panic _ => Blockchain.mk [] [] 1 7 ∅ []
  end.
Definition block7 : Block.t :=
  Eval vm_compute in default Scenario.genesis (Scenario.mine_on (Scenario.now0 + 10) "M" bc7).

(** A chain state without a genesis block, as a struct literal or an
    empty store gives it. *)
Definition bc_empty : Blockchain.t := Blockchain.mk [] [] 1 50 ∅ [].

(** The first candidate of [Scenario.bc1] under a difficulty of zero. *)
Definition pow_zero : ProofOfWork.t :=
  Eval vm_compute in
  ProofOfWork.NewProofOfWork (ProofOfWork.Block Scenario.pow1) 0.

(** A node at [Scenario.bc0] that has yet to hear of [Scenario.block1]. *)
Definition node0 : network.Node :=
  network.mkNode Scenario.bc0 (<["p1" := Scenario.p1]> ∅) true.

(** A node at [Scenario.bcC], where the genesis account is overdrawn,
    with two connected peers. *)
Definition nodeC : network.Node :=
  network.mkNode Scenario.bcC (<["p1" := Scenario.p1]> (<["p2" := Scenario.p2]> ∅)) true.

(** A peer that is not connected. *)
Definition p3 : network.Peer :=
  network.mkPeer "p3" "10.0.0.3:30303" [] false Scenario.now0.

End Run.

(** * The validator and the consensus checks *)

(** [tx] has the hash of some transaction of the pool. *)
Definition pooled (bc : Blockchain.t) (tx : Transaction.t) : bool :=
  existsb (fun existingTx => String.eqb (Transaction.Hash existingTx) (Transaction.Hash tx))
          (Blockchain.TransactionPool bc).

(** The three checks of ValidateTransaction. *)
Definition validates (bc : Blockchain.t) (tx : Transaction.t) : bool :=
  Transaction.IsValid tx && negb (underfunded bc tx) && negb (pooled bc tx).

(** * The handlers of the network *)

(** The body of the loop of handleBlocks. *)
Definition take_block (block : option Block.t) : M network.Node unit :=
  valid <- network.on_blockchain (Blockchain.IsValidBlock block) ;;
  if valid then
    err <- network.on_blockchain (Blockchain.AddBlock block) ;;
    ret tt
  else ret tt.

(** The node after handleNewTx has dealt with a valid transaction. *)
Definition relayed_tx (rawData : string) (tx : Transaction.t) (n : network.Node) : network.Node :=
  network.mkNode
    (if underfunded (network.blockchain n) tx then network.blockchain n
     else append_to_pool (network.blockchain n) tx)
    (relayed rawData (network.peers n))
    (network.isRunning n).

(** A transaction and a block whose stored hash has fewer than sixteen
    symbols. *)
Definition tx_short_hash : Transaction.t :=
  Eval vm_compute in
  match Transaction.Sign "k1" (Transaction.set_Hash "abc" Scenario.pay) with
  | Ok (_, tx) => Transaction.set_PublicKey "k1" tx
  | Panic _ => Scenario.pay
  end.

Definition announce_short_hash : network.NetworkMessage :=
  network.mkNetworkMessage "new_block"
    (Some (network.mkNewBlockMessage (Some Run.block1_rewritten)))
    Scenario.now0 "p1" "1.0".

(** The digests are never unfolded in the proofs below; concrete runs go
    through [vm_compute]. *)
Opaque sha256_hex.

(** * The library functions on known values *)

Example sha256_abc :
  sha256_hex "abc" = "ba7816bf8f01cfea414140de5dae2223b00361a396177a9cb410ff61f20015ad".
Proof. vm_compute. reflexivity. Qed.

Example sha256_empty :
  sha256_hex EmptyString = "e3b0c44298fc1c149afbf4c8996fb92427ae41e4649b934ca495991b7852b855".
Proof. vm_compute. reflexivity. Qed.

Example json_int_values :
  json.int 0 = "0" /\ json.int (-42) = "-42" /\ json.int 1704067200 = "1704067200".
Proof. vm_compute. repeat split. Qed.

Example json_float_values :
  json_float.encode 100 = Some "100"
  /\ json_float.encode 0.5 = Some "0.5"
  /\ json_float.encode 1000000 = Some "1000000"
  /\ json_float.encode 0x1.999999999999ap-4 = Some "0.1"
  /\ json_float.encode 1e21 = Some "1e+21"
  /\ json_float.encode 0x1.ad7f29abcaf48p-24 = Some "1e-7"
  /\ json_float.encode nan = None
  /\ json_float.encode infinity = None.
Proof. vm_compute. repeat split. Qed.

Example json_str_escapes :
  json.str "a<b" =
  String json.dquote ("a" +:+ String json.backslash "u003cb" +:+ json.str1 json.dquote).
Proof. vm_compute. reflexivity. Qed.

(** * The monad *)

Lemma bind_Ok {S A B : Type} (m : M S A) (k : A -> M S B) (s s' : S) (a : A) :
  m s = Ok (a, s') -> bind m k s = k a s'.
Proof. intros H. unfold bind. now rewrite H. Qed.

Lemma bind_Panic {S A B : Type} (m : M S A) (k : A -> M S B) (s : S) (r : string) :
  m s = Panic r -> bind m k s = Panic r.
Proof. intros H. unfold bind. now rewrite H. Qed.

Lemma for_nat_add {S R : Type} (body : Z -> M S (option R)) (a b : nat) (i : Z) (s : S) :
  for_nat (a + b) body i s =
  match for_nat a body i s with
  | Ok (inr j, s') => for_nat b body j s'
  | other => other
  end.
Proof.
  revert i s. induction a as [|a IH]; intros i s; simpl.
  - reflexivity.
  - unfold bind. destruct (body i s) as [[[v|] s']|r]; simpl; auto.
Qed.

Lemma for_pos_nat {S R : Type} (body : Z -> M S (option R)) (p : positive) (i : Z) (s : S) :
  for_pos p body i s = for_nat (Pos.to_nat p) body i s.
Proof.
  revert i s. induction p as [p IH|p IH|]; intros i s.
  - rewrite Pos2Nat.inj_xI. simpl for_nat. simpl for_pos. unfold bind.
    destruct (body i s) as [[[v|] s']|r]; simpl; auto.
    replace (Pos.to_nat p + (Pos.to_nat p + 0))%nat with (Pos.to_nat p + Pos.to_nat p)%nat by lia.
    rewrite for_nat_add, <- IH.
    destruct (for_pos p body (i + 1) s') as [[[v|j] s'']|r]; simpl; auto.
  - rewrite Pos2Nat.inj_xO. simpl for_pos. unfold bind.
    replace (2 * Pos.to_nat p)%nat with (Pos.to_nat p + Pos.to_nat p)%nat by lia.
    rewrite for_nat_add, <- IH.
    destruct (for_pos p body i s) as [[[v|j] s'']|r]; simpl; auto.
  - simpl. unfold bind. destruct (body i s) as [[[v|] s']|r]; simpl; auto.
Qed.

Lemma for_lt_nat {S R : Type} (body : Z -> M S (option R)) (bound : Z) (s : S) :
  for_lt bound body s = for_nat (Z.to_nat bound) body 0 s.
Proof.
  destruct bound as [|p|p]; simpl; auto. apply for_pos_nat.
Qed.

(** * Proof of work *)

Section ProofOfWorkFacts.

Variable pow : ProofOfWork.t.
Let d := ProofOfWork.Difficulty pow.
Hypothesis d_nonneg : 0 <= d.

Lemma IsValidHash_meets (hash : string) :
  ProofOfWork.IsValidHash hash pow = Ok (meets_difficulty d hash, pow).
Proof.
  unfold ProofOfWork.IsValidHash, meets_difficulty, bind, get. fold d.
  destruct (Z.ltb_spec (Z.of_nat (String.length hash)) d) as [Hlt|Hge].
  - replace (d <=? Z.of_nat (String.length hash)) with false by (symmetry; apply Z.leb_gt; lia).
    reflexivity.
  - replace (d <=? Z.of_nat (String.length hash)) with true by (symmetry; apply Z.leb_le; lia).
    unfold slice_to.
    replace (d <? 0) with false by (symmetry; apply Z.ltb_ge; lia).
    replace (Z.of_nat (String.length hash) <? d) with false by (symmetry; apply Z.ltb_ge; lia).
    reflexivity.
Qed.

Lemma Validate_meets :
  ProofOfWork.Validate pow =
  Ok (meets_difficulty d (Block.CalculateHash (ProofOfWork.Block pow)), pow).
Proof. unfold ProofOfWork.Validate, bind, get. apply IsValidHash_meets. Qed.

End ProofOfWorkFacts.

Lemma IsValidHash_negative (pow : ProofOfWork.t) (hash : string) :
  ProofOfWork.Difficulty pow < 0 ->
  ProofOfWork.IsValidHash hash pow = Panic "slice bounds out of range".
Proof.
  intros Hneg. unfold ProofOfWork.IsValidHash, bind, get, slice_to.
  replace (Z.of_nat (String.length hash) <? ProofOfWork.Difficulty pow) with false
    by (symmetry; apply Z.ltb_ge; lia).
  replace (ProofOfWork.Difficulty pow <? 0) with true by (symmetry; apply Z.ltb_lt; lia).
  reflexivity.
Qed.

(** [zero_prefix n] is [n] zero symbols. *)
Lemma zero_prefix_S (n : nat) :
  ProofOfWork.zero_prefix (S n) = String "0" (ProofOfWork.zero_prefix n).
Proof.
  induction n as [|n IH]; [reflexivity|].
  change (ProofOfWork.zero_prefix (S (S n))) with (ProofOfWork.zero_prefix (S n) +:+ "0").
  rewrite IH at 1. reflexivity.
Qed.

Lemma zero_prefix_get (n : nat) (s : string) :
  (substring 0 n s = ProofOfWork.zero_prefix n /\ (n <= String.length s)%nat) <->
  forall i, (i < n)%nat -> String.get i s = Some "0"%char.
Proof.
  revert s. induction n as [|n IH]; intros s.
  - split.
    + intros _ i Hi. lia.
    + intros _. split; [destruct s; reflexivity | lia].
  - rewrite zero_prefix_S. destruct s as [|c s]; simpl.
    + split; [intros [H _]; discriminate|]. intros H. specialize (H 0%nat ltac:(lia)).
      discriminate.
    + split.
      * intros [H Hlen]. injection H as -> Hrest. intros [|i] Hi; [reflexivity|].
        simpl. apply IH; [split; [exact Hrest | lia] | lia].
      * intros H. pose proof (H 0%nat ltac:(lia)) as H0. simpl in H0. injection H0 as ->.
        destruct (proj2 (IH s)) as [Hrest Hlen].
        { intros i Hi. apply (H (S i)). lia. }
        split; [now rewrite Hrest | lia].
Qed.

(** The proof-of-work condition says that the first [difficulty] symbols
    of the hash are zeros. *)
Lemma meets_difficulty_zeros (difficulty : Z) (hash : string) :
  0 <= difficulty ->
  meets_difficulty difficulty hash = true <->
  forall i, (i < Z.to_nat difficulty)%nat -> String.get i hash = Some "0"%char.
Proof.
  intros Hd. unfold meets_difficulty.
  rewrite andb_true_iff, Z.leb_le, String.eqb_eq, <- zero_prefix_get. split.
  - intros [Hlen Hpre]. split; [exact Hpre | lia].
  - intros [Hpre Hlen]. split; [lia | exact Hpre].
Qed.

Lemma set_Block_Nonce_twice (a b : Z) (pow : ProofOfWork.t) :
  ProofOfWork.set_Block_Nonce a (ProofOfWork.set_Block_Nonce b pow) =
  ProofOfWork.set_Block_Nonce a pow.
Proof. reflexivity. Qed.

Lemma hash_at_set_Block_Nonce (a n : Z) (pow : ProofOfWork.t) :
  hash_at (ProofOfWork.set_Block_Nonce a pow) n = hash_at pow n.
Proof. reflexivity. Qed.

Lemma mine_body_run (pow : ProofOfWork.t) (nonce : Z) :
  0 <= ProofOfWork.Difficulty pow ->
  mine_body nonce pow =
  Ok (if meets_difficulty (ProofOfWork.Difficulty pow) (hash_at pow nonce)
      then Some (nonce, hash_at pow nonce, None) else None,
      ProofOfWork.set_Block_Nonce nonce pow).
Proof.
  intros Hd. unfold mine_body, bind, modify, get.
  rewrite IsValidHash_meets by exact Hd.
  change (ProofOfWork.Difficulty (ProofOfWork.set_Block_Nonce nonce pow))
    with (ProofOfWork.Difficulty pow).
  change (Block.CalculateHash (ProofOfWork.Block (ProofOfWork.set_Block_Nonce nonce pow)))
    with (hash_at pow nonce).
  destruct (meets_difficulty _ _); reflexivity.
Qed.

(** The loop stops at the first nonce whose hash meets the difficulty. *)
Lemma mine_loop_found (k : nat) :
  forall (fuel : nat) (i : Z) (pow : ProofOfWork.t),
    0 <= ProofOfWork.Difficulty pow ->
    (k < fuel)%nat ->
    (forall j, (j < k)%nat ->
       meets_difficulty (ProofOfWork.Difficulty pow) (hash_at pow (i + Z.of_nat j)) = false) ->
    meets_difficulty (ProofOfWork.Difficulty pow) (hash_at pow (i + Z.of_nat k)) = true ->
    for_nat fuel mine_body i pow =
    Ok (inl (i + Z.of_nat k, hash_at pow (i + Z.of_nat k), None),
        ProofOfWork.set_Block_Nonce (i + Z.of_nat k) pow).
Proof.
  induction k as [|k IH]; intros fuel i pow Hd Hk Hbelow Hat;
    (destruct fuel as [|fuel]; [lia|]); simpl for_nat; unfold bind at 1;
    rewrite mine_body_run by exact Hd.
  - replace (i + Z.of_nat 0) with i in * by lia. rewrite Hat. reflexivity.
  - specialize (Hbelow 0%nat ltac:(lia)) as H0.
    replace (i + Z.of_nat 0) with i in H0 by lia. rewrite H0.
    replace (i + Z.of_nat (S k)) with (i + 1 + Z.of_nat k) in * by lia.
    rewrite (IH fuel (i + 1) (ProofOfWork.set_Block_Nonce i pow)).
    + reflexivity.
    + exact Hd.
    + lia.
    + intros j Hj. specialize (Hbelow (S j) ltac:(lia)).
      replace (i + Z.of_nat (S j)) with (i + 1 + Z.of_nat j) in Hbelow by lia. exact Hbelow.
    + exact Hat.
Qed.

(** With no such nonce the loop runs to its bound. *)
Lemma mine_loop_none (fuel : nat) :
  forall (i : Z) (pow : ProofOfWork.t),
    0 <= ProofOfWork.Difficulty pow ->
    (forall j, (j < fuel)%nat ->
       meets_difficulty (ProofOfWork.Difficulty pow) (hash_at pow (i + Z.of_nat j)) = false) ->
    exists pow', for_nat fuel mine_body i pow = Ok (inr (i + Z.of_nat fuel), pow').
Proof.
  induction fuel as [|fuel IH]; intros i pow Hd Hnone; simpl for_nat.
  - exists pow. unfold ret. do 3 f_equal. lia.
  - unfold bind at 1. rewrite mine_body_run by exact Hd.
    specialize (Hnone 0%nat ltac:(lia)) as H0.
    replace (i + Z.of_nat 0) with i in H0 by lia. rewrite H0.
    destruct (IH (i + 1) (ProofOfWork.set_Block_Nonce i pow)) as [pow' Hrun].
    + exact Hd.
    + intros j Hj. specialize (Hnone (S j) ltac:(lia)).
      replace (i + Z.of_nat (S j)) with (i + 1 + Z.of_nat j) in Hnone by lia. exact Hnone.
    + exists pow'. rewrite Hrun. do 3 f_equal. lia.
Qed.

(** A bounded search either has a least hit or none. *)
Lemma least_hit (P : Z -> bool) (n : nat) :
  (exists k, (k < n)%nat /\ P (Z.of_nat k) = true /\
             forall j, (j < k)%nat -> P (Z.of_nat j) = false)
  \/ (forall j, (j < n)%nat -> P (Z.of_nat j) = false).
Proof.
  induction n as [|n [(k & Hk & Hat & Hbelow)|Hnone]].
  - right. intros j Hj. lia.
  - left. exists k. repeat split; auto.
  - destruct (P (Z.of_nat n)) eqn:Hn.
    + left. exists n. repeat split; auto.
    + right. intros j Hj. destruct (Nat.eq_dec j n) as [->|Hne]; auto. apply Hnone. lia.
Qed.

Lemma Mine_unfold (pow : ProofOfWork.t) :
  ProofOfWork.Mine pow =
  match for_nat (Z.to_nat ProofOfWork.MaxNonce) mine_body 0 pow with
  | Ok (inl found, pow') => Ok (found, pow')
  | Ok (inr _, pow') =>
      Ok ((0, EmptyString, Some "failed to mine block after 100000000 attempts"), pow')
  | Panic r => Panic r
  end.
Proof.
  unfold ProofOfWork.Mine. unfold bind at 1. rewrite for_lt_nat.
  match goal with
  | |- match ?run with _ => _ end = _ => set (x := run)
  end.
  change (for_nat (Z.to_nat ProofOfWork.MaxNonce) mine_body 0 pow) with x.
  destruct x as [[[found|j] pow']|r]; reflexivity.
Qed.

(** With a negative difficulty the first test of a hash panics. *)
Lemma Mine_negative_difficulty (pow : ProofOfWork.t) :
  ProofOfWork.Difficulty pow < 0 ->
  ProofOfWork.Mine pow = Panic "slice bounds out of range".
Proof.
  intros Hneg. rewrite Mine_unfold.
  assert (HM : 0 < ProofOfWork.MaxNonce) by (unfold ProofOfWork.MaxNonce; lia).
  destruct (Z.to_nat ProofOfWork.MaxNonce) as [|n] eqn:Hn; [lia|].
  simpl for_nat. unfold bind at 1. unfold mine_body, bind, modify, get.
  rewrite IsValidHash_negative by exact Hneg. reflexivity.
Qed.

(** C5. Mine tries the nonces 0, 1, 2, ... below MaxNonce = 100000000 in
    turn and never panics for a difficulty that is a count of symbols.  It
    returns without error exactly the least nonce whose block hash meets
    the difficulty, together with that hash, and Validate accepts the
    block that carries them; it returns (0, empty, error) exactly when no
    nonce below the ceiling meets the difficulty. *)
Theorem Mine_least_nonce (pow : ProofOfWork.t) :
  0 <= ProofOfWork.Difficulty pow ->
  exists nonce hash err pow',
    ProofOfWork.Mine pow = Ok ((nonce, hash, err), pow') /\
    match err with
    | None =>
        0 <= nonce < ProofOfWork.MaxNonce /\
        hash = hash_at pow nonce /\
        meets_difficulty (ProofOfWork.Difficulty pow) hash = true /\
        (forall m, 0 <= m < nonce ->
           meets_difficulty (ProofOfWork.Difficulty pow) (hash_at pow m) = false) /\
        ProofOfWork.Validate
          (ProofOfWork.NewProofOfWork (mined_block pow' nonce hash) (ProofOfWork.Difficulty pow))
        = Ok (true,
              ProofOfWork.NewProofOfWork (mined_block pow' nonce hash) (ProofOfWork.Difficulty pow))
    | Some _ =>
        nonce = 0 /\ hash = EmptyString /\
        forall m, 0 <= m < ProofOfWork.MaxNonce ->
          meets_difficulty (ProofOfWork.Difficulty pow) (hash_at pow m) = false
    end.
Proof.
  intros Hd. rewrite Mine_unfold.
  assert (HM : 0 <= ProofOfWork.MaxNonce) by (unfold ProofOfWork.MaxNonce; lia).
  pose proof (Z2Nat.id _ HM) as HN.
  revert HN. generalize (Z.to_nat ProofOfWork.MaxNonce) as N. intros N HN.
  destruct (least_hit (fun n => meets_difficulty (ProofOfWork.Difficulty pow) (hash_at pow n)) N)
    as [(k & Hk & Hat & Hbelow)|Hnone].
  - rewrite (mine_loop_found k N 0 pow Hd Hk).
    + exists (0 + Z.of_nat k), (hash_at pow (0 + Z.of_nat k)), None,
        (ProofOfWork.set_Block_Nonce (0 + Z.of_nat k) pow).
      split; [reflexivity|]. simpl (0 + _).
      split; [lia|]. split; [reflexivity|]. split; [exact Hat|]. split.
      * intros m Hm. specialize (Hbelow (Z.to_nat m) ltac:(lia)).
        rewrite Z2Nat.id in Hbelow by lia. exact Hbelow.
      * rewrite Validate_meets by exact Hd.
        change (Block.CalculateHash _) with (hash_at pow (Z.of_nat k)).
        cbn [ProofOfWork.Difficulty ProofOfWork.NewProofOfWork].
        rewrite Hat. reflexivity.
    + intros j Hj. simpl (0 + _). apply Hbelow, Hj.
    + simpl (0 + _). exact Hat.
  - destruct (mine_loop_none N 0 pow Hd) as [pow' Hrun].
    + intros j Hj. simpl (0 + _). apply Hnone, Hj.
    + rewrite Hrun.
      exists 0, EmptyString, (Some "failed to mine block after 100000000 attempts"), pow'.
      split; [reflexivity|]. split; [reflexivity|]. split; [reflexivity|].
      intros m Hm. specialize (Hnone (Z.to_nat m) ltac:(lia)).
      rewrite Z2Nat.id in Hnone by lia. exact Hnone.
Qed.

(** On the candidate block of the concrete run the search ends at nonce 14. *)
Example Mine_pow1 :
  exists pow', ProofOfWork.Mine Scenario.pow1 =
    Ok ((14, "075693bbf3870b450edf791816b43cd1f87c6c6ca70e5f2b101f8be72df3540f", None), pow').
Proof. eexists. vm_compute. reflexivity. Qed.

Lemma Mine_least_nonce_witness :
  0 <= ProofOfWork.Difficulty Scenario.pow1 /\
  exists nonce hash err pow',
    ProofOfWork.Mine Scenario.pow1 = Ok ((nonce, hash, err), pow') /\
    match err with
    | None =>
        0 <= nonce < ProofOfWork.MaxNonce /\
        hash = hash_at Scenario.pow1 nonce /\
        meets_difficulty (ProofOfWork.Difficulty Scenario.pow1) hash = true /\
        (forall m, 0 <= m < nonce ->
           meets_difficulty (ProofOfWork.Difficulty Scenario.pow1) (hash_at Scenario.pow1 m)
           = false) /\
        ProofOfWork.Validate
          (ProofOfWork.NewProofOfWork (mined_block pow' nonce hash)
             (ProofOfWork.Difficulty Scenario.pow1))
        = Ok (true,
              ProofOfWork.NewProofOfWork (mined_block pow' nonce hash)
                (ProofOfWork.Difficulty Scenario.pow1))
    | Some _ =>
        nonce = 0 /\ hash = EmptyString /\
        forall m, 0 <= m < ProofOfWork.MaxNonce ->
          meets_difficulty (ProofOfWork.Difficulty Scenario.pow1) (hash_at Scenario.pow1 m)
          = false
    end.
Proof.
  assert (H : 0 <= ProofOfWork.Difficulty Scenario.pow1) by (vm_compute; congruence).
  split; [exact H | exact (Mine_least_nonce Scenario.pow1 H)].
Defined.

(** * The chain state machine: AddBlock *)

Lemma at_index_last {S A : Type} (l : list A) (tip : A) (s : S) :
  last l = Some tip -> at_index l (Blockchain.len l - 1) s = Ok (tip, s).
Proof.
  intros Hlast. unfold at_index, Blockchain.len.
  assert (Hlen : (0 < List.length l)%nat).
  { destruct l; [discriminate | simpl; lia]. }
  replace (Z.of_nat (List.length l) - 1 <? 0) with false by (symmetry; apply Z.ltb_ge; lia).
  replace (Z.to_nat (Z.of_nat (List.length l) - 1)) with (pred (List.length l)) by lia.
  rewrite <- last_lookup, Hlast. reflexivity.
Qed.

(** The checks of IsValidBlock as one boolean. *)
Lemma IsValidBlock_run (bc : Blockchain.t) (tip b : Block.t) :
  last (Blockchain.Chain bc) = Some tip ->
  0 <= Blockchain.Difficulty bc ->
  Blockchain.IsValidBlock (Some b) bc = Ok (accepts bc tip b, bc).
Proof.
  intros Hlast Hd. unfold accepts, Blockchain.IsValidBlock, bind, get.
  destruct (Block.Index b =? _); simpl; [|reflexivity].
  rewrite (at_index_last _ tip) by exact Hlast.
  destruct (String.eqb _ _); simpl; [|reflexivity].
  unfold call. rewrite Validate_meets by exact Hd. simpl.
  destruct (meets_difficulty _ _); reflexivity.
Qed.

Lemma range_processTransaction (txs : list Transaction.t) :
  forall bc : Blockchain.t,
    Blockchain.range txs Blockchain.processTransaction bc =
    Ok (tt, Blockchain.set_Accounts (fold_left transfer txs (Blockchain.Accounts bc)) bc).
Proof.
  induction txs as [|tx txs IH]; intros bc; simpl.
  - destruct bc; reflexivity.
  - unfold bind at 1. unfold Blockchain.processTransaction at 1, bind, modify.
    rewrite IH. reflexivity.
Qed.

(** The map that removeProcessedTransactions builds answers membership of
    a hash among the processed transactions. *)
Lemma processedMap_lookup (processed : list Transaction.t) (h : string) :
  forall m : gmap string bool,
    default false
      (fold_left (fun m tx => <[Transaction.Hash tx := true]> m) processed m !! h) =
    existsb (fun t => String.eqb (Transaction.Hash t) h) processed || default false (m !! h).
Proof.
  induction processed as [|tx rest IH]; intros m; simpl.
  - reflexivity.
  - rewrite IH. destruct (String.eqb_spec (Transaction.Hash tx) h) as [->|Hne].
    + rewrite lookup_insert_eq. simpl. now rewrite orb_true_r.
    + rewrite lookup_insert_ne by exact Hne. reflexivity.
Qed.

Lemma removeProcessedTransactions_run (bc : Blockchain.t) (b : Block.t) :
  Blockchain.removeProcessedTransactions (Block.Transactions b) bc =
  Ok (tt, Blockchain.set_TransactionPool
            (List.filter (fun tx => negb (in_block b tx)) (Blockchain.TransactionPool bc)) bc).
Proof.
  unfold Blockchain.removeProcessedTransactions, modify. do 3 f_equal.
  apply List.filter_ext. intros tx. rewrite processedMap_lookup.
  rewrite lookup_empty. simpl. rewrite orb_false_r. reflexivity.
Qed.

Lemma AddBlock_run (bc : Blockchain.t) (tip b : Block.t) :
  last (Blockchain.Chain bc) = Some tip ->
  0 <= Blockchain.Difficulty bc ->
  Blockchain.AddBlock (Some b) bc =
  if accepts bc tip b then Ok (None, commit bc b) else Ok (Some "invalid block", bc).
Proof.
  intros Hlast Hd. unfold Blockchain.AddBlock. unfold bind at 1.
  rewrite (IsValidBlock_run bc tip b Hlast Hd).
  destruct (accepts bc tip b); simpl; [|reflexivity].
  unfold bind at 1. rewrite range_processTransaction.
  unfold bind at 1. unfold modify at 1.
  unfold bind at 1. unfold modify at 1.
  unfold bind at 1. rewrite removeProcessedTransactions_run.
  reflexivity.
Qed.

Lemma accepts_false_iff (bc : Blockchain.t) (tip b : Block.t) :
  0 <= Blockchain.Difficulty bc ->
  accepts bc tip b = false <-> rejected bc tip b.
Proof.
  intros Hd. unfold accepts, rejected, pow_of.
  rewrite Validate_meets by exact Hd.
  cbn [ProofOfWork.Block ProofOfWork.Difficulty ProofOfWork.NewProofOfWork].
  rewrite !andb_false_iff, Z.eqb_neq, String.eqb_neq.
  assert (Hall : forallb Transaction.IsValid (Block.Transactions b) = false <->
                 exists tx, In tx (Block.Transactions b) /\ Transaction.IsValid tx = false).
  { induction (Block.Transactions b) as [|tx txs IH]; simpl.
    - split; [discriminate | intros (? & [] & _)].
    - rewrite andb_false_iff, IH. split.
      + intros [Hv|(t & Hin & Hv)]; [exists tx | exists t]; auto.
      + intros (t & [->|Hin] & Hv); [left | right; exists t]; auto. }
  rewrite Hall. split.
  - intros [[[H|H]|H]|H]; auto. right; right; left. now rewrite H.
  - intros [H|[H|[H|H]]]; auto. left; right. congruence.
Qed.

(** An error from AddBlock leaves the receiver as it was, in every
    state. *)
Lemma IsValidBlock_reads (block : option Block.t) (bc bc' : Blockchain.t) (v : bool) :
  Blockchain.IsValidBlock block bc = Ok (v, bc') -> bc' = bc.
Proof.
  unfold Blockchain.IsValidBlock, bind, get, ret.
  destruct block as [b|]; [|congruence].
  destruct (Block.Index b =? _); simpl; [|congruence].
  unfold at_index, panic, ret.
  destruct (_ <? 0); [discriminate|].
  destruct (Blockchain.Chain bc !! _) as [lastBlock|]; [|discriminate].
  destruct (String.eqb _ _); simpl; [|congruence].
  unfold call. destruct (ProofOfWork.Validate _) as [[ok pow']|r]; [|discriminate].
  simpl. destruct ok; simpl; congruence.
Qed.

Lemma AddBlock_error_unchanged (block : option Block.t) (bc bc' : Blockchain.t) (e : error) :
  Blockchain.AddBlock block bc = Ok (Some e, bc') -> bc' = bc.
Proof.
  unfold Blockchain.AddBlock. unfold bind at 1.
  destruct (Blockchain.IsValidBlock block bc) as [[v s]|r] eqn:Hv; [|discriminate].
  apply IsValidBlock_reads in Hv. subst s.
  destruct v; simpl.
  - destruct block as [b|]; [|discriminate].
    unfold bind at 1. rewrite range_processTransaction.
    unfold bind at 1. unfold modify at 1.
    unfold bind at 1. unfold modify at 1.
    unfold bind at 1. rewrite removeProcessedTransactions_run. discriminate.
  - unfold ret. congruence.
Qed.

(** What AddBlock does, as the code has it.  On a chain with last block
    [tip] it turns a block down exactly when its index is not the height,
    or its previous hash is not the hash of [tip], or its proof of work
    does not validate, or one of its transactions fails
    Transaction.IsValid; the state is then as it was.  Otherwise the
    state is [commit bc b]: every transaction debits its sender by
    amount + fee and credits its recipient by the amount, the miner is
    credited by the block's reward, the block is appended, and the pool
    loses the transactions whose hash occurs in the block.  The balance
    of a sender is never looked at. *)
Theorem AddBlock_spec (bc : Blockchain.t) (tip b : Block.t) :
  last (Blockchain.Chain bc) = Some tip ->
  0 <= Blockchain.Difficulty bc ->
  (rejected bc tip b -> Blockchain.AddBlock (Some b) bc = Ok (Some "invalid block", bc))
  /\ (~ rejected bc tip b -> Blockchain.AddBlock (Some b) bc = Ok (None, commit bc b))
  /\ ((exists e bc', Blockchain.AddBlock (Some b) bc = Ok (Some e, bc')) <-> rejected bc tip b).
Proof.
  intros Hlast Hd. rewrite (AddBlock_run bc tip b Hlast Hd).
  pose proof (accepts_false_iff bc tip b Hd) as Hrej.
  destruct (accepts bc tip b).
  - assert (Hnot : ~ rejected bc tip b) by (intros H; apply Hrej in H; discriminate).
    repeat split.
    + intros H. contradiction.
    + intros (e & bc' & H). discriminate.
    + intros H. contradiction.
  - assert (Hyes : rejected bc tip b) by (apply Hrej; reflexivity).
    repeat split.
    + intros H. contradiction.
    + intros _. exact Hyes.
    + intros _. eauto.
Qed.

(** The block mined over [pay] is committed, and submitting it again is
    turned down without a change. *)
Lemma AddBlock_spec_witness :
  last (Blockchain.Chain Scenario.bc1) = Some Scenario.genesis /\
  0 <= Blockchain.Difficulty Scenario.bc1 /\
  Blockchain.AddBlock (Some Scenario.block1) Scenario.bc1 =
    Ok (None, commit Scenario.bc1 Scenario.block1) /\
  Blockchain.AddBlock (Some Scenario.block1) (commit Scenario.bc1 Scenario.block1) =
    Ok (Some "invalid block", commit Scenario.bc1 Scenario.block1).
Proof.
  assert (H1 : last (Blockchain.Chain Scenario.bc1) = Some Scenario.genesis)
    by (vm_compute; reflexivity).
  assert (H2 : 0 <= Blockchain.Difficulty Scenario.bc1) by (vm_compute; congruence).
  assert (H3 : last (Blockchain.Chain (commit Scenario.bc1 Scenario.block1))
               = Some Scenario.block1) by (vm_compute; reflexivity).
  destruct (AddBlock_spec Scenario.bc1 Scenario.genesis Scenario.block1 H1 H2)
    as (_ & Hcommit & _).
  assert (H4 : 0 <= Blockchain.Difficulty (commit Scenario.bc1 Scenario.block1))
    by (vm_compute; congruence).
  destruct (AddBlock_spec (commit Scenario.bc1 Scenario.block1) Scenario.block1
              Scenario.block1 H3 H4) as (Hreject & _ & _).
  split; [exact H1|]. split; [exact H2|]. split.
  - apply Hcommit.
    intros Hr. apply (accepts_false_iff _ _ _ H2) in Hr. vm_compute in Hr. discriminate.
  - apply Hreject. left. vm_compute. discriminate.
Defined.

(** Whatever the code turns down, the specification turns down as
    well: its reasons are among the specification's. *)
Lemma rejected_spec_rejects (bc : Blockchain.t) (tip b : Block.t) :
  rejected bc tip b -> spec_rejects bc tip b.
Proof.
  intros [H|[H|[H|(tx & Hin & Hv)]]]; [now left | now right; left | now right; right; left |].
  right; right; right.
  generalize (Blockchain.Accounts bc).
  induction (Block.Transactions b) as [|t txs IH]; intros accounts; [destruct Hin|].
  simpl. destruct Hin as [->|Hin].
  - now rewrite Hv.
  - rewrite (IH Hin). now rewrite orb_true_r.
Qed.

(** C3 at the failing input.  Two valid transfers of 600000 from the
    genesis account, which holds 1000000, are in the pool, and the block
    mined over them has the index, the previous hash and the proof of
    work that are asked for.  Its second transaction fails validation at
    commit time: once the first is applied the sender holds 400000, less
    than the amount, and AddTransaction refuses it there for insufficient
    balance.  The specification has such a block turned down with the
    chain, the accounts and the pool unchanged; AddBlock returns no error
    and commits it: the chain grows by the block, the sender is left at
    -200000 and the pool is emptied. *)
Theorem AddBlock_commits_failing_transaction :
  last (Blockchain.Chain Scenario.bcB) = Some Scenario.genesis
  /\ Blockchain.TransactionPool Scenario.bcB = [Scenario.spend1; Scenario.spend2]
  /\ Blockchain.GetBalance "genesis_address" Scenario.bcB = Ok (1000000%float, Scenario.bcB)
  /\ Block.Transactions Scenario.blockAB = [Scenario.spend1; Scenario.spend2]
  /\ Block.Index Scenario.blockAB = Blockchain.len (Blockchain.Chain Scenario.bcB)
  /\ Block.PrevHash Scenario.blockAB = Block.Hash Scenario.genesis
  /\ ProofOfWork.Validate (pow_of Scenario.bcB Scenario.blockAB)
     = Ok (true, pow_of Scenario.bcB Scenario.blockAB)
  /\ Transaction.IsValid Scenario.spend1 = true
  /\ Transaction.IsValid Scenario.spend2 = true
  /\ Blockchain.GetBalance "genesis_address" Scenario.bcB_spend1
     = Ok (400000%float, Scenario.bcB_spend1)
  /\ Blockchain.AddTransaction Scenario.spend2 Scenario.bcB_spend1
     = Ok (Some "insufficient balance", Scenario.bcB_spend1)
  /\ spec_fails_validation (Blockchain.Accounts Scenario.bcB)
       (Block.Transactions Scenario.blockAB) = true
  /\ spec_rejects Scenario.bcB Scenario.genesis Scenario.blockAB
  /\ Blockchain.AddBlock (Some Scenario.blockAB) Scenario.bcB = Ok (None, Scenario.bcC)
  /\ Blockchain.Chain Scenario.bcC = Blockchain.Chain Scenario.bcB ++ [Scenario.blockAB]
  /\ Blockchain.GetBalance "genesis_address" Scenario.bcC
     = Ok ((-200000)%float, Scenario.bcC)
  /\ Blockchain.TransactionPool Scenario.bcC = [].
Proof.
  assert (Hfails : spec_fails_validation (Blockchain.Accounts Scenario.bcB)
                     (Block.Transactions Scenario.blockAB) = true)
    by (vm_compute; reflexivity).
  repeat match goal with
         | |- spec_fails_validation _ _ = true /\ _ => split; [exact Hfails|]
         | |- spec_rejects _ _ _ /\ _ => split; [right; right; right; exact Hfails|]
         | |- _ /\ _ => split; [vm_compute; reflexivity|]
         end.
  vm_compute. reflexivity.
Qed.

(** The example of the specification: after the transfer of 100 with a
    fee of 1 and a block mined by M, the balances are 999899, 100 and 50. *)
Example committed_balances :
  let bc2 := commit Scenario.bc1 Scenario.block1 in
  Blockchain.GetBalance "genesis_address" bc2 = Ok (999899%float, bc2) /\
  Blockchain.GetBalance "A" bc2 = Ok (100%float, bc2) /\
  Blockchain.GetBalance "M" bc2 = Ok (50%float, bc2).
Proof. vm_compute. repeat split. Qed.

(** * The chain state machine: AddTransaction *)

Lemma AddTransaction_run (tx : Transaction.t) (bc : Blockchain.t) :
  Blockchain.AddTransaction tx bc =
  if negb (Transaction.IsValid tx) then Ok (Some "invalid transaction", bc)
  else if underfunded bc tx then Ok (Some "insufficient balance", bc)
  else Ok (None, append_to_pool bc tx).
Proof.
  unfold Blockchain.AddTransaction, underfunded, append_to_pool, bind, get, modify, ret.
  destruct (Transaction.IsValid tx); simpl; [|reflexivity].
  destruct (PrimFloat.ltb _ _); reflexivity.
Qed.

(** [x == 0] on float64 implies [x <= 0]; this covers the negative zero. *)
Lemma float_eqb_zero_leb (x : float) :
  PrimFloat.eqb x 0 = true -> PrimFloat.leb x 0 = true.
Proof.
  rewrite FloatAxioms.eqb_spec, FloatAxioms.leb_spec.
  change (Prim2SF 0) with (S754_zero false).
  destruct (Prim2SF x) as [s| s| |s m e]; try destruct s; vm_compute; congruence.
Qed.

(** Away from NaN, [!(x <= 0)] is [0 < x]. *)
Lemma float_not_leb_zero (x : float) :
  PrimFloat.is_nan x = false ->
  PrimFloat.leb x 0 = false <-> PrimFloat.ltb 0 x = true.
Proof.
  unfold PrimFloat.is_nan.
  rewrite FloatAxioms.eqb_spec, FloatAxioms.leb_spec, FloatAxioms.ltb_spec.
  change (Prim2SF 0) with (S754_zero false).
  destruct (Prim2SF x) as [s| s| |s m e]; try destruct s; vm_compute; intuition congruence.
Qed.

(** The intrinsic validity of a transaction, as IsValid decides it. *)
Lemma IsValid_true_iff (tx : Transaction.t) :
  Transaction.IsValid tx = true <->
  PrimFloat.leb (Transaction.Amount tx) 0 = false /\
  Transaction.From tx <> Transaction.To tx /\
  Transaction.VerifySignature tx = true.
Proof.
  unfold Transaction.IsValid.
  destruct (PrimFloat.leb _ _); [intuition congruence|].
  destruct (String.eqb_spec (Transaction.From tx) (Transaction.To tx)); [intuition congruence|].
  destruct (Transaction.VerifySignature tx); simpl; intuition congruence.
Qed.

(** For an amount that is a number, valid means a positive amount, a
    sender other than the recipient and a signature that verifies. *)
Lemma IsValid_positive_amount (tx : Transaction.t) :
  PrimFloat.is_nan (Transaction.Amount tx) = false ->
  Transaction.IsValid tx = true <->
  PrimFloat.ltb 0 (Transaction.Amount tx) = true /\
  Transaction.From tx <> Transaction.To tx /\
  Transaction.VerifySignature tx = true.
Proof.
  intros Hnum. rewrite IsValid_true_iff, (float_not_leb_zero _ Hnum). reflexivity.
Qed.

(** C6. AddTransaction never panics.  It returns an error exactly when
    the transaction is not valid or the sender's committed balance is less
    than amount + fee, and the state is then unchanged; otherwise the
    transaction is appended to the pool and nothing else changes.  A
    transaction is valid when its amount is not at most zero, its sender
    differs from its recipient and its signature verifies; so one whose
    amount is zero, or whose sender is its recipient, is turned down
    whatever the balances. *)
Theorem AddTransaction_spec (tx : Transaction.t) (bc : Blockchain.t) :
  ((exists e bc', Blockchain.AddTransaction tx bc = Ok (Some e, bc')) <->
   (Transaction.IsValid tx = false \/ underfunded bc tx = true))
  /\ (Transaction.IsValid tx = true <->
      PrimFloat.leb (Transaction.Amount tx) 0 = false /\
      Transaction.From tx <> Transaction.To tx /\
      Transaction.VerifySignature tx = true)
  /\ (forall e bc', Blockchain.AddTransaction tx bc = Ok (Some e, bc') -> bc' = bc)
  /\ (forall bc', Blockchain.AddTransaction tx bc = Ok (None, bc') ->
        bc' = append_to_pool bc tx /\
        Blockchain.TransactionPool bc' = Blockchain.TransactionPool bc ++ [tx] /\
        Blockchain.Accounts bc' = Blockchain.Accounts bc /\
        Blockchain.Chain bc' = Blockchain.Chain bc)
  /\ (exists e bc', Blockchain.AddTransaction tx bc = Ok (e, bc'))
  /\ (PrimFloat.eqb (Transaction.Amount tx) 0 = true ->
        exists e, Blockchain.AddTransaction tx bc = Ok (Some e, bc))
  /\ (Transaction.From tx = Transaction.To tx ->
        exists e, Blockchain.AddTransaction tx bc = Ok (Some e, bc)).
Proof.
  rewrite AddTransaction_run.
  split; [|split; [|split; [|split; [|split; [|split]]]]].
  - split.
    + intros (e & bc' & H).
      destruct (Transaction.IsValid tx); simpl in *; [|now left].
      destruct (underfunded bc tx); [now right | discriminate].
    + intros [H|H]; rewrite H; simpl; [eauto|].
      destruct (negb _); eauto.
  - apply IsValid_true_iff.
  - intros e bc'. destruct (negb _); [congruence|]. destruct (underfunded bc tx); congruence.
  - intros bc'. destruct (negb _); [discriminate|].
    destruct (underfunded bc tx); [discriminate|].
    intros [= <-]. repeat split.
  - destruct (negb _); [eauto|]. destruct (underfunded bc tx); eauto.
  - intros Hz. apply float_eqb_zero_leb in Hz.
    unfold Transaction.IsValid. rewrite Hz. simpl. eauto.
  - intros Heq. unfold Transaction.IsValid. rewrite Heq, String.eqb_refl.
    destruct (PrimFloat.leb _ _); simpl; eauto.
Qed.

(** * Admission and duplicates *)

Lemma isDuplicateTransaction_pooled (tx : Transaction.t) (bc : Blockchain.t) :
  Validator.isDuplicateTransaction tx (append_to_pool bc tx) = Ok (true, append_to_pool bc tx).
Proof.
  unfold Validator.isDuplicateTransaction, bind, get, ret. do 2 f_equal.
  unfold append_to_pool. simpl. rewrite existsb_app. simpl.
  rewrite String.eqb_refl. now rewrite orb_true_r.
Qed.

(** C9. AddTransaction makes no check against the pool: a transaction
    that has just entered the pool enters it once more, and the pool then
    holds it twice.  The check for a duplicate is that of the validator,
    which refuses the transaction in the state between the two
    calls. *)
Theorem AddTransaction_twice (tx : Transaction.t) (bc bc' : Blockchain.t) :
  Blockchain.AddTransaction tx bc = Ok (None, bc') ->
  exists bc'',
    Blockchain.AddTransaction tx bc' = Ok (None, bc'') /\
    Blockchain.TransactionPool bc'' = Blockchain.TransactionPool bc ++ [tx; tx] /\
    Validator.isDuplicateTransaction tx bc' = Ok (true, bc') /\
    Validator.ValidateTransaction tx bc' = Ok (false, bc').
Proof.
  rewrite AddTransaction_run.
  destruct (Transaction.IsValid tx) eqn:Hvalid; simpl; [|discriminate].
  destruct (underfunded bc tx) eqn:Hfunds; [discriminate|].
  intros [= <-].
  exists (append_to_pool (append_to_pool bc tx) tx). repeat split.
  - rewrite AddTransaction_run, Hvalid. simpl.
    change (underfunded (append_to_pool bc tx) tx) with (underfunded bc tx).
    now rewrite Hfunds.
  - unfold append_to_pool. simpl. now rewrite <- app_assoc.
  - apply isDuplicateTransaction_pooled.
  - unfold Validator.ValidateTransaction. rewrite Hvalid. simpl.
    unfold bind at 1. unfold Blockchain.GetBalance, bind, get, ret.
    change (PrimFloat.ltb _ _) with (underfunded bc tx). rewrite Hfunds.
    unfold bind. rewrite (isDuplicateTransaction_pooled tx bc). reflexivity.
Qed.

Lemma AddTransaction_twice_witness :
  Blockchain.AddTransaction Scenario.pay Scenario.bc0 = Ok (None, Scenario.bc1) /\
  exists bc'',
    Blockchain.AddTransaction Scenario.pay Scenario.bc1 = Ok (None, bc'') /\
    Blockchain.TransactionPool bc'' =
      Blockchain.TransactionPool Scenario.bc0 ++ [Scenario.pay; Scenario.pay] /\
    Validator.isDuplicateTransaction Scenario.pay Scenario.bc1 = Ok (true, Scenario.bc1) /\
    Validator.ValidateTransaction Scenario.pay Scenario.bc1 = Ok (false, Scenario.bc1).
Proof.
  assert (H : Blockchain.AddTransaction Scenario.pay Scenario.bc0 = Ok (None, Scenario.bc1))
    by (vm_compute; reflexivity).
  split; [exact H | exact (AddTransaction_twice Scenario.pay Scenario.bc0 Scenario.bc1 H)].
Defined.

(** * The identity of a transaction *)




(** Attaching a signature keeps the identity, and a new transaction
    carries its identity as its hash. *)
Lemma Sign_keeps_CalculateHash (key : string) (tx tx' : Transaction.t) (e : option error) :
  Transaction.Sign key tx = Ok (e, tx') ->
  Transaction.CalculateHash tx' = Transaction.CalculateHash tx.
Proof.
  unfold Transaction.Sign, bind, get, modify, ret. intros [= _ <-]. reflexivity.
Qed.

Lemma NewTransaction_Hash (now : Z) (from to : string) (amount fee : float) (nonce : Z) :
  let tx := Transaction.NewTransaction now from to amount fee nonce in
  Transaction.Hash tx = Transaction.CalculateHash tx.
Proof. reflexivity. Qed.

Example CalculateHash_pay :
  Transaction.CalculateHash Scenario.pay =
  "0158c010bb7edfc842adab3495fdb3870d384cafd4dcd4517d04769d83229249".
Proof. vm_compute. reflexivity. Qed.

(** * Balances of addresses the chain has never seen *)

Lemma AddBlock_cases (block : option Block.t) (bc bc' : Blockchain.t) (e : option error) :
  Blockchain.AddBlock block bc = Ok (e, bc') ->
  bc' = bc \/ exists b, block = Some b /\ e = None /\ bc' = commit bc b.
Proof.
  unfold Blockchain.AddBlock. unfold bind at 1.
  destruct (Blockchain.IsValidBlock block bc) as [[v s]|r] eqn:Hv; [|discriminate].
  apply IsValidBlock_reads in Hv. subst s.
  destruct v; simpl.
  - destruct block as [b|]; [|discriminate].
    unfold bind at 1. rewrite range_processTransaction.
    unfold bind at 1. unfold modify at 1.
    unfold bind at 1. unfold modify at 1.
    unfold bind at 1. rewrite removeProcessedTransactions_run.
    intros [= <- <-]. right. exists b. repeat split.
  - unfold ret. intros [= _ <-]. now left.
Qed.

Lemma AddTransaction_cases (tx : Transaction.t) (bc bc' : Blockchain.t) (e : option error) :
  Blockchain.AddTransaction tx bc = Ok (e, bc') ->
  bc' = bc \/ bc' = append_to_pool bc tx.
Proof.
  rewrite AddTransaction_run.
  destruct (negb _); [intros [= _ <-]; now left|].
  destruct (underfunded bc tx); intros [= _ <-]; auto.
Qed.

(** The chain of a reachable state is never empty. *)
Lemma reachable_has_tip (bc : Blockchain.t) :
  reachable bc -> exists tip, last (Blockchain.Chain bc) = Some tip.
Proof.
  induction 1 as [now d r bc Hnew | bc bc' block e _ IH Hadd | bc bc' tx e _ IH Hadd].
  - unfold Blockchain.NewBlockchain, Blockchain.CreateGenesisBlock, bind, get, modify in Hnew.
    injection Hnew as <-. simpl. eauto.
  - destruct (AddBlock_cases _ _ _ _ Hadd) as [->|(b & _ & _ & ->)]; [exact IH|].
    exists b. simpl. apply last_snoc.
  - destruct (AddTransaction_cases _ _ _ _ Hadd) as [->| ->]; exact IH.
Qed.

Lemma transfer_keys (accounts : gmap string float) (tx : Transaction.t) (a : string) :
  is_Some (transfer accounts tx !! a) ->
  a = Transaction.From tx \/ a = Transaction.To tx \/ is_Some (accounts !! a).
Proof.
  unfold transfer.
  destruct (decide (Transaction.To tx = a)) as [->|Hto]; [auto|].
  rewrite lookup_insert_ne by exact Hto.
  destruct (decide (Transaction.From tx = a)) as [->|Hfrom]; [auto|].
  rewrite lookup_insert_ne by exact Hfrom. auto.
Qed.

Lemma transfers_keys (txs : list Transaction.t) (a : string) :
  forall accounts : gmap string float,
    is_Some (fold_left transfer txs accounts !! a) ->
    In a (flat_map (fun tx => [Transaction.From tx; Transaction.To tx]) txs)
    \/ is_Some (accounts !! a).
Proof.
  induction txs as [|tx txs IH]; intros accounts; simpl.
  - auto.
  - intros H. destruct (IH _ H) as [Hin|Hsome]; [auto|].
    destruct (transfer_keys _ _ _ Hsome) as [->|[->|Hold]]; auto.
Qed.

Lemma commit_keys (bc : Blockchain.t) (b : Block.t) (a : string) :
  is_Some (Blockchain.Accounts (commit bc b) !! a) ->
  In a (block_addresses b) \/ is_Some (Blockchain.Accounts bc !! a).
Proof.
  unfold commit, reward, block_addresses. simpl.
  destruct (decide (Block.Miner b = a)) as [->|Hminer]; [auto|].
  rewrite lookup_insert_ne by exact Hminer.
  intros H. destruct (transfers_keys _ _ _ H); auto.
Qed.

(** The accounts of a reachable state all belong to addresses of its
    chain. *)
Lemma reachable_accounts_in_chain (bc : Blockchain.t) :
  reachable bc -> accounts_in_chain bc.
Proof.
  induction 1 as [now d r bc Hnew | bc bc' block e _ IH Hadd | bc bc' tx e _ IH Hadd].
  - unfold Blockchain.NewBlockchain, Blockchain.CreateGenesisBlock, bind, get, modify in Hnew.
    injection Hnew as <-. intros a. simpl.
    destruct (decide ("genesis_address" = a)) as [<-|Hne].
    + intros _. right. right. left. reflexivity.
    + rewrite lookup_insert_ne by exact Hne. rewrite lookup_empty.
      intros [x Hx]. discriminate.
  - destruct (AddBlock_cases _ _ _ _ Hadd) as [->|(b & _ & _ & ->)]; [exact IH|].
    intros a Ha. unfold chain_addresses. simpl. rewrite flat_map_app. apply in_or_app.
    destruct (commit_keys _ _ _ Ha) as [Hin|Hold].
    + right. simpl. rewrite app_nil_r. exact Hin.
    + left. apply IH, Hold.
  - destruct (AddTransaction_cases _ _ _ _ Hadd) as [->| ->]; exact IH.
Qed.

(** C10. GetBalance is total and read-only: it returns a balance and the
    state as it was.  In a reachable state the balance is zero for every
    address that is neither the miner of a block of the chain nor the
    sender or recipient of a transaction in one (the genesis allocation
    is a transaction of the genesis block). *)
Theorem GetBalance_unseen_address (bc : Blockchain.t) :
  reachable bc ->
  (forall address, exists v, Blockchain.GetBalance address bc = Ok (v, bc))
  /\ (forall address,
        ~ In address (chain_addresses (Blockchain.Chain bc)) ->
        Blockchain.GetBalance address bc = Ok (0%float, bc)).
Proof.
  intros Hreach. split.
  - intros address. eexists. reflexivity.
  - intros address Hunseen.
    unfold Blockchain.GetBalance, bind, get, ret, Blockchain.balance.
    destruct (Blockchain.Accounts bc !! address) as [v|] eqn:Hlookup; [|reflexivity].
    exfalso. apply Hunseen. apply (reachable_accounts_in_chain bc Hreach). eauto.
Qed.

Lemma reachable_bc2 : reachable Scenario.bc2.
Proof.
  apply (reach_AddBlock Scenario.bc1 _ (Some Scenario.block1) None).
  - apply (reach_AddTransaction Scenario.bc0 _ Scenario.pay None).
    + apply (reach_NewBlockchain Scenario.now0 1 50). vm_compute. reflexivity.
    + vm_compute. reflexivity.
  - vm_compute. reflexivity.
Qed.

Lemma GetBalance_unseen_address_witness :
  reachable Scenario.bc2 /\
  Blockchain.GetBalance "B" Scenario.bc2 = Ok (0%float, Scenario.bc2) /\
  Blockchain.GetBalance "A" Scenario.bc2 = Ok (100%float, Scenario.bc2).
Proof.
  split; [exact reachable_bc2|]. split.
  - apply (GetBalance_unseen_address Scenario.bc2 reachable_bc2).
    vm_compute. intuition discriminate.
  - vm_compute. reflexivity.
Defined.

(** * Validity of the chain *)

Lemma IsChainValid_from_run (bc : Blockchain.t) (rest : list Block.t) :
  0 <= Blockchain.Difficulty bc ->
  forall previousBlock,
    Blockchain.IsChainValid_from previousBlock rest bc =
    Ok (all_linked (Blockchain.Difficulty bc) previousBlock rest, bc).
Proof.
  intros Hd. induction rest as [|cur rest IH]; intros prev; simpl.
  - reflexivity.
  - unfold linked.
    destruct (String.eqb (Block.Hash cur) _); simpl; [|reflexivity].
    destruct (String.eqb (Block.PrevHash cur) _); simpl; [|reflexivity].
    unfold bind, get, call. rewrite Validate_meets by exact Hd. simpl.
    destruct (meets_difficulty _ _); simpl; [apply IH | reflexivity].
Qed.

Lemma IsChainValid_run (bc : Blockchain.t) :
  0 <= Blockchain.Difficulty bc ->
  Blockchain.IsChainValid bc =
  Ok (match Blockchain.Chain bc with
      | [] => true
      | genesis :: rest => all_linked (Blockchain.Difficulty bc) genesis rest
      end, bc).
Proof.
  intros Hd. unfold Blockchain.IsChainValid, bind, get.
  destruct (Blockchain.Chain bc) as [|genesis rest]; [reflexivity|].
  apply IsChainValid_from_run, Hd.
Qed.

(** All the links hold exactly when every block but the first passes the
    checks against the block before it. *)
Lemma all_linked_lookup (d : Z) (rest : list Block.t) :
  forall first,
    all_linked d first rest = true <->
    forall (i : nat) (prev cur : Block.t),
      (first :: rest) !! i = Some prev ->
      (first :: rest) !! S i = Some cur ->
      linked d prev cur = true.
Proof.
  induction rest as [|b rest IH]; intros first; simpl.
  - split; [|reflexivity]. intros _ i prev cur _ Hcur.
    destruct i; discriminate.
  - rewrite andb_true_iff, IH. split.
    + intros [Hhead Htail] [|i] prev cur Hprev Hcur.
      * simpl in Hprev, Hcur. injection Hprev as <-. injection Hcur as <-. exact Hhead.
      * apply (Htail i); assumption.
    + intros H. split.
      * apply (H 0%nat); reflexivity.
      * intros i prev cur Hprev Hcur. apply (H (S i)); assumption.
Qed.

Lemma linked_iff (bc : Blockchain.t) (prev cur : Block.t) :
  0 <= Blockchain.Difficulty bc ->
  linked (Blockchain.Difficulty bc) prev cur = true <->
  Block.Hash cur = Block.CalculateHash cur /\
  Block.PrevHash cur = Block.Hash prev /\
  ProofOfWork.Validate (pow_of bc cur) = Ok (true, pow_of bc cur).
Proof.
  intros Hd. unfold linked, pow_of. rewrite Validate_meets by exact Hd.
  cbn [ProofOfWork.Block ProofOfWork.Difficulty ProofOfWork.NewProofOfWork].
  rewrite !andb_true_iff, !String.eqb_eq. split.
  - intros [[H1 H2] H3]. rewrite H3. auto.
  - intros (H1 & H2 & H3). repeat split; auto.
    destruct (meets_difficulty _ _); [reflexivity | discriminate].
Qed.

(** C4, as the code has it.  IsChainValid never checks the first block.
    For a difficulty that is a count of symbols it returns true exactly
    when every block after the first has its stored hash equal to the
    recomputed one, its previous hash equal to the hash of the block
    before it, and a valid proof of work.  If it returns true and the
    previous hash of a block other than the first is then altered, it
    returns false. *)
Theorem IsChainValid_spec (bc : Blockchain.t) :
  0 <= Blockchain.Difficulty bc ->
  (exists v, Blockchain.IsChainValid bc = Ok (v, bc))
  /\ (Blockchain.IsChainValid bc = Ok (true, bc) <->
      forall (i : nat) (prev cur : Block.t),
        Blockchain.Chain bc !! i = Some prev ->
        Blockchain.Chain bc !! S i = Some cur ->
        Block.Hash cur = Block.CalculateHash cur /\
        Block.PrevHash cur = Block.Hash prev /\
        ProofOfWork.Validate (pow_of bc cur) = Ok (true, pow_of bc cur))
  /\ (forall (i : nat) (cur : Block.t) (p : string),
        Blockchain.IsChainValid bc = Ok (true, bc) ->
        Blockchain.Chain bc !! S i = Some cur ->
        p <> Block.PrevHash cur ->
        Blockchain.IsChainValid (alter_PrevHash (S i) p bc)
        = Ok (false, alter_PrevHash (S i) p bc)).
Proof.
  intros Hd.
  assert (Hiff : Blockchain.IsChainValid bc = Ok (true, bc) <->
                 forall (i : nat) (prev cur : Block.t),
                   Blockchain.Chain bc !! i = Some prev ->
                   Blockchain.Chain bc !! S i = Some cur ->
                   linked (Blockchain.Difficulty bc) prev cur = true).
  { rewrite (IsChainValid_run bc Hd).
    destruct (Blockchain.Chain bc) as [|genesis rest].
    - split; [|reflexivity]. intros _ i prev cur Hprev. destruct i; discriminate.
    - rewrite <- all_linked_lookup. split; [congruence|]. intros ->. reflexivity. }
  split; [|split].
  - rewrite (IsChainValid_run bc Hd). eauto.
  - rewrite Hiff. split; intros H i prev cur Hprev Hcur.
    + apply (linked_iff bc prev cur Hd), (H i); assumption.
    + apply (linked_iff bc prev cur Hd), (H i); assumption.
  - intros i cur p Hvalid Hcur Hp.
    assert (Hd' : 0 <= Blockchain.Difficulty (alter_PrevHash (S i) p bc)) by exact Hd.
    destruct (lookup_lt_is_Some_2 (Blockchain.Chain bc) i) as [prev Hprev].
    { apply lookup_lt_Some in Hcur. lia. }
    pose proof (proj1 Hiff Hvalid i prev cur Hprev Hcur) as Hlink.
    rewrite (IsChainValid_run _ Hd').
    destruct (Blockchain.Chain (alter_PrevHash (S i) p bc)) as [|genesis rest] eqn:Hchain.
    { unfold alter_PrevHash in Hchain. simpl in Hchain.
      apply (f_equal (@List.length _)) in Hchain. rewrite length_alter in Hchain.
      apply lookup_lt_Some in Hcur. simpl in Hchain. lia. }
    do 2 f_equal. apply not_true_is_false. rewrite all_linked_lookup, <- Hchain.
    intros Hall.
    specialize (Hall i prev (Block.set_PrevHash p cur)).
    unfold alter_PrevHash in Hall. simpl in Hall.
    rewrite list_lookup_alter_ne in Hall by lia.
    rewrite list_lookup_alter_eq, Hcur in Hall.
    specialize (Hall Hprev eq_refl).
    unfold linked in Hall, Hlink.
    rewrite !andb_true_iff, !String.eqb_eq in Hall, Hlink.
    destruct Hall as [[_ Hnew] _]. destruct Hlink as [[_ Hold] _].
    simpl in Hnew. congruence.
Qed.

(** C4, as stated, fails at the first block: the genesis chain is found
    valid although its only block does not meet the difficulty, and it is
    still found valid after the previous hash of that block is altered. *)
Lemma IsChainValid_skips_genesis :
  Blockchain.Chain Scenario.bc0 = [Scenario.genesis]
  /\ ProofOfWork.Validate (pow_of Scenario.bc0 Scenario.genesis)
     = Ok (false, pow_of Scenario.bc0 Scenario.genesis)
  /\ Blockchain.IsChainValid Scenario.bc0 = Ok (true, Scenario.bc0)
  /\ Blockchain.Chain Scenario.bc0_tampered = [Block.set_PrevHash "tampered" Scenario.genesis]
  /\ Block.PrevHash Scenario.genesis <> "tampered"
  /\ Blockchain.IsChainValid Scenario.bc0_tampered = Ok (true, Scenario.bc0_tampered).
Proof. vm_compute. repeat split; discriminate. Qed.

Lemma IsChainValid_spec_witness :
  0 <= Blockchain.Difficulty Scenario.bc2
  /\ Blockchain.IsChainValid Scenario.bc2 = Ok (true, Scenario.bc2)
  /\ Blockchain.IsChainValid (alter_PrevHash 1 "tampered" Scenario.bc2)
     = Ok (false, alter_PrevHash 1 "tampered" Scenario.bc2).
Proof.
  assert (Hd : 0 <= Blockchain.Difficulty Scenario.bc2) by (vm_compute; congruence).
  assert (Hvalid : Blockchain.IsChainValid Scenario.bc2 = Ok (true, Scenario.bc2))
    by (vm_compute; reflexivity).
  destruct (IsChainValid_spec Scenario.bc2 Hd) as (_ & _ & Haltered).
  split; [exact Hd|]. split; [exact Hvalid|].
  apply (Haltered 0%nat Scenario.block1 "tampered" Hvalid).
  - vm_compute. reflexivity.
  - vm_compute. discriminate.
Defined.

(** The stored hash is checked by IsChainValid only.  AddBlock accepts
    [block1] with another stored hash, and the chain that results is not
    found valid. *)
Example AddBlock_ignores_stored_hash :
  let forged := Block.set_Hash "00" Scenario.block1 in
  Blockchain.AddBlock (Some forged) Scenario.bc1 = Ok (None, commit Scenario.bc1 forged)
  /\ Blockchain.IsChainValid (commit Scenario.bc1 forged)
     = Ok (false, commit Scenario.bc1 forged).
Proof. vm_compute. repeat split. Qed.

(** * Balances below zero and the total of the balances *)

(** C1 at the failing input.  The genesis account holds 1000000; two
    valid transfers of 600000 from it both enter the pool, the block mined
    over the pool is accepted, and the account is left at -200000. *)
Theorem double_spend_overdraws :
  Blockchain.NewBlockchain Scenario.now0 1 50 = Ok Scenario.bc0
  /\ Blockchain.GetBalance "genesis_address" Scenario.bc0 = Ok (1000000%float, Scenario.bc0)
  /\ Blockchain.AddTransaction Scenario.spend1 Scenario.bc0 = Ok (None, Scenario.bcA)
  /\ Blockchain.AddTransaction Scenario.spend2 Scenario.bcA = Ok (None, Scenario.bcB)
  /\ Blockchain.CreateNewBlock (Scenario.now0 + 10) "M" Scenario.bcB
     = Ok ((Some Scenario.blockAB, None), Scenario.bcB)
  /\ Block.Transactions Scenario.blockAB = [Scenario.spend1; Scenario.spend2]
  /\ Blockchain.AddBlock (Some Scenario.blockAB) Scenario.bcB = Ok (None, Scenario.bcC)
  /\ Blockchain.GetBalance "genesis_address" Scenario.bcC = Ok ((-200000)%float, Scenario.bcC)
  /\ PrimFloat.ltb (-200000) 0 = true.
Proof. vm_compute. repeat split. Qed.

(** C2 at the failing input.  After the transfer of 100 with a fee of 1
    and one block with a reward of 50, the balances add up to 1000049,
    not to 1000000 + 1 * 50: the fee is debited and credited to no one. *)
Theorem fee_leaves_the_total :
  Blockchain.NewBlockchain Scenario.now0 1 50 = Ok Scenario.bc0
  /\ Blockchain.AddTransaction Scenario.pay Scenario.bc0 = Ok (None, Scenario.bc1)
  /\ Blockchain.CreateNewBlock (Scenario.now0 + 10) "M" Scenario.bc1
     = Ok ((Some Scenario.block1, None), Scenario.bc1)
  /\ Blockchain.AddBlock (Some Scenario.block1) Scenario.bc1 = Ok (None, Scenario.bc2)
  /\ Block.BlockReward Scenario.block1 = 50%float
  /\ StateManager.calculateTotalBalance Scenario.bc0 = Ok (1000000%float, Scenario.bc0)
  /\ StateManager.calculateTotalBalance Scenario.bc2 = Ok (1000049%float, Scenario.bc2)
  /\ PrimFloat.add 1000000 (PrimFloat.mul 1 50) = 1000050%float.
Proof. vm_compute. repeat split. Qed.

(** * The relay of an announced block *)

(** BroadcastMessage writes to every connected peer of the registry. *)
Lemma BroadcastMessage_lookup (n : network.Node) (message id : string) (p : network.Peer) :
  network.peers n !! id = Some p ->
  exists n',
    network.BroadcastMessage message n = Ok (tt, n') /\
    network.blockchain n' = network.blockchain n /\
    network.peers n' !! id
    = Some (if network.Connected p then network.Write message p else p).
Proof.
  intros Hp. eexists. split; [reflexivity|]. split; [reflexivity|].
  simpl. rewrite lookup_fmap, Hp. reflexivity.
Qed.

(** A block that passes IsValidBlock is committed and the raw message
    goes to the whole registry; any other block leaves the node as it
    was. *)
Lemma handleNewBlock_run (n : network.Node) (peer : network.Peer)
    (message : network.NetworkMessage) (rawData : string) (b tip : Block.t) :
  network.Data message = Some (network.mkNewBlockMessage (Some b)) ->
  16 <= Z.of_nat (String.length (Block.Hash b)) ->
  last (Blockchain.Chain (network.blockchain n)) = Some tip ->
  0 <= Blockchain.Difficulty (network.blockchain n) ->
  network.handleNewBlock peer message rawData n =
  if accepts (network.blockchain n) tip b
  then network.BroadcastMessage rawData
         (network.set_blockchain (commit (network.blockchain n) b) n)
  else Ok (tt, n).
Proof.
  intros Hdata Hlen Hlast Hd. unfold network.handleNewBlock. rewrite Hdata.
  cbn [network.Block]. unfold bind at 1. unfold slice_to.
  replace (Z.of_nat (String.length (Block.Hash b)) <? 16) with false
    by (symmetry; apply Z.ltb_ge; lia).
  change ((16 <? 0) || false) with false. cbv iota. unfold ret at 1.
  unfold bind at 1. unfold network.on_blockchain at 1.
  rewrite (IsValidBlock_run _ tip b Hlast Hd).
  destruct (accepts (network.blockchain n) tip b) eqn:Hacc.
  - unfold bind at 1. unfold network.on_blockchain.
    cbn [network.blockchain network.set_blockchain].
    rewrite (AddBlock_run _ tip b Hlast Hd), Hacc. reflexivity.
  - destruct n; reflexivity.
Qed.

(** C8 at the failing input.  Peer p1 announces a valid block to a node
    whose registry holds p1 and p2: the block is committed, and the raw
    message is written to p2 and to p1, the peer it came from. *)
Theorem relay_reaches_the_sender :
  network.peers Scenario.node1 !! "p1" = Some Scenario.p1
  /\ exists n',
       network.handleNewBlock Scenario.p1 Scenario.announce Scenario.raw_announce
         Scenario.node1 = Ok (tt, n')
       /\ network.blockchain n' = Scenario.bc2
       /\ network.Conn <$> network.peers n' !! "p2" = Some [Scenario.raw_announce]
       /\ network.Conn <$> network.peers n' !! "p1" = Some [Scenario.raw_announce].
Proof.
  split; [vm_compute; reflexivity|].
  eexists. split; [vm_compute; reflexivity|].
  vm_compute. repeat split.
Qed.

(** * Further properties of the code *)

(** ** The digests have 64 symbols *)

Transparent sha256_hex.

Lemma be_bytes_length (n : nat) (x : Z) : List.length (sha256.be_bytes n x) = n.
Proof.
  revert x. induction n as [|n IH]; intros x; simpl; [reflexivity|].
  rewrite length_app, IH. simpl. lia.
Qed.

Lemma compress_length (h block : list Z) : List.length (sha256.compress h block) = 8%nat.
Proof. reflexivity. Qed.

Lemma fold_compress_length (bs : list (list Z)) :
  forall h, List.length h = 8%nat -> List.length (fold_left sha256.compress bs h) = 8%nat.
Proof.
  induction bs as [|b bs IH]; intros h Hh; simpl; [exact Hh|].
  apply IH, compress_length.
Qed.

Lemma Sum256_length (data : string) : List.length (sha256.Sum256 data) = 32%nat.
Proof.
  unfold sha256.Sum256.
  assert (H : forall l : list Z, List.length (flat_map (sha256.be_bytes 4) l)
                                 = (4 * List.length l)%nat).
  { induction l as [|x l IH]; [reflexivity|].
    cbn [flat_map]. rewrite length_app, be_bytes_length, IH. simpl. lia. }
  rewrite H, fold_compress_length; reflexivity.
Qed.

Lemma EncodeToString_length (bs : list Z) :
  String.length (hex.EncodeToString bs) = (2 * List.length bs)%nat.
Proof. induction bs as [|b bs IH]; simpl; [reflexivity|]. rewrite IH. lia. Qed.

Lemma sha256_hex_length (data : string) : String.length (sha256_hex data) = 64%nat.
Proof. unfold sha256_hex. rewrite EncodeToString_length, Sum256_length. reflexivity. Qed.

Opaque sha256_hex.

Lemma Block_CalculateHash_length (b : Block.t) :
  String.length (Block.CalculateHash b) = 64%nat.
Proof. apply sha256_hex_length. Qed.

(** ** What a successful AddBlock has checked *)

Lemma IsValidHash_reads (hash : string) (pow pow' : ProofOfWork.t) (v : bool) :
  ProofOfWork.IsValidHash hash pow = Ok (v, pow') -> pow' = pow.
Proof.
  unfold ProofOfWork.IsValidHash, bind, get, slice_to, ret, panic.
  destruct (_ <? ProofOfWork.Difficulty pow); [congruence|].
  destruct (_ || _); [discriminate | congruence].
Qed.

Lemma Validate_reads (pow pow' : ProofOfWork.t) (v : bool) :
  ProofOfWork.Validate pow = Ok (v, pow') -> pow' = pow.
Proof. unfold ProofOfWork.Validate, bind, get. apply IsValidHash_reads. Qed.

Lemma at_index_last_inv {S A : Type} (l : list A) (a : A) (s s' : S) :
  at_index l (Blockchain.len l - 1) s = Ok (a, s') -> last l = Some a /\ s' = s.
Proof.
  unfold at_index, Blockchain.len, ret, panic.
  destruct (_ <? 0) eqn:Hneg; [discriminate|].
  apply Z.ltb_ge in Hneg.
  replace (Z.to_nat (Z.of_nat (List.length l) - 1)) with (pred (List.length l)) by lia.
  rewrite <- last_lookup. destruct (last l); [|discriminate].
  intros [= -> ->]. auto.
Qed.

Lemma IsValidBlock_true_inv (bc bc' : Blockchain.t) (b : Block.t) :
  Blockchain.IsValidBlock (Some b) bc = Ok (true, bc') ->
  Block.Index b = Blockchain.len (Blockchain.Chain bc)
  /\ exists tip,
       last (Blockchain.Chain bc) = Some tip
       /\ Block.PrevHash b = Block.Hash tip
       /\ ProofOfWork.Validate (pow_of bc b) = Ok (true, pow_of bc b)
       /\ forallb Transaction.IsValid (Block.Transactions b) = true.
Proof.
  unfold Blockchain.IsValidBlock, bind, get.
  destruct (Z.eqb_spec (Block.Index b) (Blockchain.len (Blockchain.Chain bc))) as [Hi|Hi];
    simpl; [|unfold ret; congruence].
  destruct (at_index _ _ bc) as [[lastBlock s]|r] eqn:Hat; [|discriminate].
  apply at_index_last_inv in Hat. destruct Hat as [Hlast ->].
  destruct (String.eqb_spec (Block.PrevHash b) (Block.Hash lastBlock)) as [Hp|Hp];
    simpl; [|unfold ret; congruence].
  unfold call. fold (pow_of bc b).
  destruct (ProofOfWork.Validate (pow_of bc b)) as [[ok pow']|r] eqn:Hv; [|discriminate].
  pose proof (Validate_reads _ _ _ Hv) as ->.
  destruct ok; simpl; [|unfold ret; congruence].
  unfold ret. intros [= Hall _]. split; [exact Hi|]. exists lastBlock. auto.
Qed.

Lemma IsValidBlock_true_intro (bc : Blockchain.t) (tip b : Block.t) :
  Block.Index b = Blockchain.len (Blockchain.Chain bc) ->
  last (Blockchain.Chain bc) = Some tip ->
  Block.PrevHash b = Block.Hash tip ->
  ProofOfWork.Validate (pow_of bc b) = Ok (true, pow_of bc b) ->
  forallb Transaction.IsValid (Block.Transactions b) = true ->
  Blockchain.IsValidBlock (Some b) bc = Ok (true, bc).
Proof.
  intros Hi Hlast Hp Hv Hall. unfold Blockchain.IsValidBlock, bind, get.
  rewrite Hi, Z.eqb_refl. simpl.
  rewrite (at_index_last _ tip) by exact Hlast.
  rewrite Hp, String.eqb_refl. simpl.
  unfold call. fold (pow_of bc b). rewrite Hv. simpl. rewrite Hall. reflexivity.
Qed.

Lemma AddBlock_commit (bc : Blockchain.t) (b : Block.t) :
  Blockchain.IsValidBlock (Some b) bc = Ok (true, bc) ->
  Blockchain.AddBlock (Some b) bc = Ok (None, commit bc b).
Proof.
  intros Hv. unfold Blockchain.AddBlock. unfold bind at 1. rewrite Hv. simpl.
  unfold bind at 1. rewrite range_processTransaction.
  unfold bind at 1. unfold modify at 1.
  unfold bind at 1. unfold modify at 1.
  unfold bind at 1. rewrite removeProcessedTransactions_run. reflexivity.
Qed.

Lemma AddBlock_inv (block : option Block.t) (bc bc' : Blockchain.t) (e : option error) :
  Blockchain.AddBlock block bc = Ok (e, bc') ->
  (e = Some "invalid block" /\ bc' = bc)
  \/ exists b,
       block = Some b /\ e = None /\ bc' = commit bc b
       /\ Blockchain.IsValidBlock (Some b) bc = Ok (true, bc).
Proof.
  intros Hadd. pose proof Hadd as Hrun. revert Hrun.
  unfold Blockchain.AddBlock. unfold bind at 1.
  destruct (Blockchain.IsValidBlock block bc) as [[v s]|r] eqn:Hv; [|discriminate].
  pose proof (IsValidBlock_reads _ _ _ _ Hv) as ->.
  destruct v; simpl.
  - destruct block as [b|]; [|discriminate]. intros _.
    rewrite (AddBlock_commit bc b Hv) in Hadd. injection Hadd as <- <-.
    right. exists b. auto.
  - unfold ret. intros [= <- <-]. now left.
Qed.

Lemma AddTransaction_inv (tx : Transaction.t) (bc bc' : Blockchain.t) (e : option error) :
  Blockchain.AddTransaction tx bc = Ok (e, bc') ->
  (bc' = bc /\ e <> None)
  \/ (bc' = append_to_pool bc tx /\ e = None
      /\ Transaction.IsValid tx = true /\ underfunded bc tx = false).
Proof.
  rewrite AddTransaction_run.
  destruct (Transaction.IsValid tx); simpl; [|intros [= <- <-]; left; split; congruence].
  destruct (underfunded bc tx); intros [= <- <-]; [left; split; congruence | right; auto].
Qed.

Lemma NewBlockchain_run (now difficulty : Z) (blockReward : float) :
  Blockchain.NewBlockchain now difficulty blockReward =
  Ok (Blockchain.mk [genesis_of now difficulty] [] difficulty blockReward genesis_allocation []).
Proof. reflexivity. Qed.

(** Induction over the reachable states by what each successful call has
    established. *)
Lemma reachable_induction (P : Blockchain.t -> Prop) :
  (forall now difficulty blockReward,
     P (Blockchain.mk [genesis_of now difficulty] [] difficulty blockReward
          genesis_allocation [])) ->
  (forall bc b,
     reachable bc -> P bc ->
     Blockchain.IsValidBlock (Some b) bc = Ok (true, bc) ->
     P (commit bc b)) ->
  (forall bc tx,
     reachable bc -> P bc ->
     Transaction.IsValid tx = true -> underfunded bc tx = false ->
     P (append_to_pool bc tx)) ->
  forall bc, reachable bc -> P bc.
Proof.
  intros Hnew Hblock Htx bc Hreach.
  induction Hreach as [now d r bc Hbc | bc bc' block e Hr IH Hadd | bc bc' tx e Hr IH Hadd].
  - rewrite NewBlockchain_run in Hbc. injection Hbc as <-. apply Hnew.
  - destruct (AddBlock_inv _ _ _ _ Hadd) as [[_ ->]|(b & _ & _ & -> & Hv)]; auto.
  - destruct (AddTransaction_inv _ _ _ _ Hadd) as [[-> _]|(-> & _ & Hv & Hf)]; auto.
Qed.

Lemma chain_inv_snoc (d : Z) (chain : list Block.t) (tip b : Block.t) :
  chain_inv d chain ->
  last chain = Some tip ->
  Block.Index b = Blockchain.len chain ->
  Block.PrevHash b = Block.Hash tip ->
  ProofOfWork.Validate (ProofOfWork.NewProofOfWork b d)
  = Ok (true, ProofOfWork.NewProofOfWork b d) ->
  forallb Transaction.IsValid (Block.Transactions b) = true ->
  chain_inv d (chain ++ [b]).
Proof.
  intros [Hindex Hlinks] Hlast Hi Hp Hv Hall.
  assert (Hlen : forall (i : nat) (x : Block.t),
             (chain ++ [b]) !! i = Some x ->
             (chain !! i = Some x /\ (i < List.length chain)%nat)
             \/ (i = List.length chain /\ x = b)).
  { intros i x Hx. destruct (decide (i < List.length chain)%nat) as [Hlt|Hge].
    - rewrite lookup_app_l in Hx by exact Hlt. auto.
    - rewrite lookup_app_r in Hx by lia.
      destruct (i - List.length chain)%nat as [|k] eqn:Hk; simpl in Hx; [|discriminate].
      injection Hx as <-. right. split; [lia | reflexivity]. }
  split.
  - intros i x Hx. destruct (Hlen i x Hx) as [[Hold _]|[-> ->]]; [apply Hindex, Hold | exact Hi].
  - intros i prev cur Hprev Hcur.
    destruct (Hlen (S i) cur Hcur) as [[Hold Hlt]|[Hi' ->]].
    + destruct (Hlen i prev Hprev) as [[Hold' _]|[-> _]]; [|lia].
      apply (Hlinks i); assumption.
    + destruct (Hlen i prev Hprev) as [[Hold' _]|[-> _]]; [|lia].
      rewrite last_lookup in Hlast. rewrite <- Hi' in Hlast. simpl in Hlast.
      rewrite Hold' in Hlast. injection Hlast as ->. auto.
Qed.

Lemma reachable_chain_inv (bc : Blockchain.t) :
  reachable bc -> chain_inv (Blockchain.Difficulty bc) (Blockchain.Chain bc).
Proof.
  revert bc. apply (reachable_induction
    (fun bc => chain_inv (Blockchain.Difficulty bc) (Blockchain.Chain bc))).
  - intros now d r. split.
    + intros [|i] b Hb; [|discriminate]. injection Hb as <-. reflexivity.
    + intros [|i] prev cur _ Hcur; discriminate.
  - intros bc0 b _ IH Hv.
    apply IsValidBlock_true_inv in Hv. destruct Hv as (Hi & tip & Hlast & Hp & Hval & Hall).
    apply (chain_inv_snoc _ _ tip); assumption.
  - intros bc0 tx _ IH _ _. exact IH.
Qed.

Lemma reachable_genesis (bc : Blockchain.t) :
  reachable bc ->
  exists now rest, Blockchain.Chain bc = genesis_of now (Blockchain.Difficulty bc) :: rest.
Proof.
  revert bc. apply (reachable_induction
    (fun bc => exists now rest,
       Blockchain.Chain bc = genesis_of now (Blockchain.Difficulty bc) :: rest)).
  - intros now d r. exists now, []. reflexivity.
  - intros bc0 b _ (now & rest & Hc) _. exists now, (rest ++ [b]). simpl. now rewrite Hc.
  - intros bc0 tx _ IH _ _. exact IH.
Qed.

(** X1. In every reachable state the chain starts with the genesis
    block, every block carries its position as its index, and every block
    after the first has the stored hash of the block before it as its
    previous hash, passes Validate under the chain's difficulty and holds
    valid transactions only. *)
Theorem reachable_chain_linked (bc : Blockchain.t) :
  reachable bc ->
  (exists now, Blockchain.Chain bc !! 0%nat = Some (genesis_of now (Blockchain.Difficulty bc)))
  /\ (forall (i : nat) (b : Block.t),
        Blockchain.Chain bc !! i = Some b -> Block.Index b = Z.of_nat i)
  /\ (forall (i : nat) (prev cur : Block.t),
        Blockchain.Chain bc !! i = Some prev ->
        Blockchain.Chain bc !! S i = Some cur ->
        Block.PrevHash cur = Block.Hash prev
        /\ ProofOfWork.Validate (pow_of bc cur) = Ok (true, pow_of bc cur)
        /\ forall tx, In tx (Block.Transactions cur) -> Transaction.IsValid tx = true).
Proof.
  intros Hreach. destruct (reachable_chain_inv bc Hreach) as [Hindex Hlinks].
  split; [|split].
  - destruct (reachable_genesis bc Hreach) as (now & rest & Hc). exists now. now rewrite Hc.
  - exact Hindex.
  - intros i prev cur Hprev Hcur.
    destruct (Hlinks i prev cur Hprev Hcur) as (Hp & Hv & Hall).
    split; [exact Hp|]. split; [exact Hv|].
    intros tx Hin. rewrite forallb_forall in Hall. apply Hall, Hin.
Qed.

Lemma reachable_chain_linked_witness :
  reachable Scenario.bc2
  /\ Block.PrevHash Scenario.block1 = Block.Hash Scenario.genesis
  /\ ProofOfWork.Validate (pow_of Scenario.bc2 Scenario.block1)
     = Ok (true, pow_of Scenario.bc2 Scenario.block1)
  /\ Block.Index Scenario.block1 = 1.
Proof.
  destruct (reachable_chain_linked Scenario.bc2 reachable_bc2) as (_ & Hindex & Hlinks).
  assert (H0 : Blockchain.Chain Scenario.bc2 !! 0%nat = Some Scenario.genesis)
    by (vm_compute; reflexivity).
  assert (H1 : Blockchain.Chain Scenario.bc2 !! 1%nat = Some Scenario.block1)
    by (vm_compute; reflexivity).
  destruct (Hlinks 0%nat Scenario.genesis Scenario.block1 H0 H1) as (Hp & Hv & _).
  split; [exact reachable_bc2|]. split; [exact Hp|]. split; [exact Hv|].
  exact (Hindex 1%nat Scenario.block1 H1).
Defined.

(** X2. Every transaction in the pool of a reachable state is valid. *)
Theorem reachable_pool_valid (bc : Blockchain.t) :
  reachable bc ->
  forall tx, In tx (Blockchain.TransactionPool bc) -> Transaction.IsValid tx = true.
Proof.
  revert bc. apply (reachable_induction
    (fun bc => forall tx, In tx (Blockchain.TransactionPool bc) -> Transaction.IsValid tx = true)).
  - intros now d r tx [].
  - intros bc b _ IH _ tx Hin. simpl in Hin. apply List.filter_In in Hin. apply IH, Hin.
  - intros bc tx0 _ IH Hv _ tx Hin. simpl in Hin. apply in_app_or in Hin.
    destruct Hin as [Hin|[<-|[]]]; [apply IH, Hin | exact Hv].
Qed.

Lemma reachable_pool_valid_witness :
  reachable Scenario.bc1 /\ Transaction.IsValid Scenario.pay = true.
Proof.
  assert (Hr : reachable Scenario.bc1).
  { apply (reach_AddTransaction Scenario.bc0 _ Scenario.pay None).
    - apply (reach_NewBlockchain Scenario.now0 1 50). vm_compute. reflexivity.
    - vm_compute. reflexivity. }
  split; [exact Hr|].
  apply (reachable_pool_valid Scenario.bc1 Hr). vm_compute. left. reflexivity.
Defined.

Lemma reachable_replay (bc : Blockchain.t) :
  reachable bc ->
  exists now rest,
    Blockchain.Chain bc = genesis_of now (Blockchain.Difficulty bc) :: rest
    /\ Blockchain.Accounts bc = fold_left apply_block rest genesis_allocation.
Proof.
  revert bc. apply (reachable_induction
    (fun bc => exists now rest,
       Blockchain.Chain bc = genesis_of now (Blockchain.Difficulty bc) :: rest
       /\ Blockchain.Accounts bc = fold_left apply_block rest genesis_allocation)).
  - intros now d r. exists now, []. split; reflexivity.
  - intros bc b _ (now & rest & Hc & Ha) _. exists now, (rest ++ [b]). simpl. split.
    + now rewrite Hc.
    + rewrite fold_left_app. simpl. unfold apply_block at 1. now rewrite Ha.
  - intros bc tx _ IH _ _. exact IH.
Qed.

(** X3. The balances of a reachable state are a function of its chain:
    they are the genesis allocation with the blocks after the genesis
    block applied in order, so two reachable states with the same chain
    have the same balances. *)
Theorem reachable_accounts_replay (bc : Blockchain.t) :
  reachable bc ->
  (exists now rest,
     Blockchain.Chain bc = genesis_of now (Blockchain.Difficulty bc) :: rest
     /\ Blockchain.Accounts bc = fold_left apply_block rest genesis_allocation)
  /\ forall bc',
       reachable bc' ->
       Blockchain.Chain bc' = Blockchain.Chain bc ->
       Blockchain.Accounts bc' = Blockchain.Accounts bc.
Proof.
  intros Hreach. split; [apply reachable_replay, Hreach|].
  intros bc' Hreach' Hsame.
  destruct (reachable_replay bc Hreach) as (now & rest & Hc & ->).
  destruct (reachable_replay bc' Hreach') as (now' & rest' & Hc' & ->).
  rewrite Hsame, Hc in Hc'. apply (f_equal (@tail _)) in Hc'. simpl in Hc'.
  now rewrite Hc'.
Qed.

Lemma reachable_accounts_replay_witness :
  reachable Scenario.bc2
  /\ exists now rest,
       Blockchain.Chain Scenario.bc2
       = genesis_of now (Blockchain.Difficulty Scenario.bc2) :: rest
       /\ Blockchain.Accounts Scenario.bc2 = fold_left apply_block rest genesis_allocation.
Proof.
  split; [exact reachable_bc2 | exact (proj1 (reachable_accounts_replay Scenario.bc2 reachable_bc2))].
Defined.

(** X4. AddBlock and AddTransaction only ever append to the chain: after
    any number of calls the old chain is a prefix of the new one, and the
    difficulty, the block reward and the pending list are the same. *)
Theorem steps_append_only (bc bc' : Blockchain.t) :
  steps bc bc' ->
  (exists blocks, Blockchain.Chain bc' = Blockchain.Chain bc ++ blocks)
  /\ Blockchain.Difficulty bc' = Blockchain.Difficulty bc
  /\ Blockchain.BlockReward bc' = Blockchain.BlockReward bc
  /\ Blockchain.PendingTx bc' = Blockchain.PendingTx bc.
Proof.
  induction 1 as [bc | bc bc' bc'' block e _ IH Hadd | bc bc' bc'' tx e _ IH Hadd].
  - split; [exists []; now rewrite app_nil_r | auto].
  - destruct IH as ((blocks & Hc) & Hd & Hr & Hp).
    destruct (AddBlock_inv _ _ _ _ Hadd) as [[_ ->]|(b & _ & _ & -> & _)].
    + split; [exists blocks; exact Hc | auto].
    + simpl. split; [|auto]. exists (blocks ++ [b]). rewrite Hc. now rewrite app_assoc.
  - destruct IH as ((blocks & Hc) & Hd & Hr & Hp).
    destruct (AddTransaction_inv _ _ _ _ Hadd) as [[-> _]|(-> & _)].
    + split; [exists blocks; exact Hc | auto].
    + simpl. split; [exists blocks; exact Hc | auto].
Qed.

Lemma steps_append_only_witness :
  steps Scenario.bc0 Scenario.bc2
  /\ exists blocks, Blockchain.Chain Scenario.bc2 = Blockchain.Chain Scenario.bc0 ++ blocks.
Proof.
  assert (Hs : steps Scenario.bc0 Scenario.bc2).
  { apply (steps_AddBlock _ Scenario.bc1 _ (Some Scenario.block1) None).
    - apply (steps_AddTransaction _ Scenario.bc0 _ Scenario.pay None).
      + apply steps_refl.
      + vm_compute. reflexivity.
    - vm_compute. reflexivity. }
  split; [exact Hs | exact (proj1 (steps_append_only _ _ Hs))].
Defined.

(** ** Mining a candidate and committing it *)

Lemma Mine_cases (pow : ProofOfWork.t) :
  0 <= ProofOfWork.Difficulty pow ->
  (exists nonce,
     0 <= nonce < ProofOfWork.MaxNonce
     /\ meets_difficulty (ProofOfWork.Difficulty pow) (hash_at pow nonce) = true
     /\ ProofOfWork.Mine pow
        = Ok ((nonce, hash_at pow nonce, None), ProofOfWork.set_Block_Nonce nonce pow))
  \/ ((forall nonce, 0 <= nonce < ProofOfWork.MaxNonce ->
         meets_difficulty (ProofOfWork.Difficulty pow) (hash_at pow nonce) = false)
      /\ exists pow',
           ProofOfWork.Mine pow
           = Ok ((0, EmptyString, Some "failed to mine block after 100000000 attempts"), pow')).
Proof.
  intros Hd. rewrite Mine_unfold.
  assert (HM : 0 <= ProofOfWork.MaxNonce) by (unfold ProofOfWork.MaxNonce; lia).
  pose proof (Z2Nat.id _ HM) as HN.
  revert HN. generalize (Z.to_nat ProofOfWork.MaxNonce) as N. intros N HN.
  destruct (least_hit (fun n => meets_difficulty (ProofOfWork.Difficulty pow) (hash_at pow n)) N)
    as [(k & Hk & Hat & Hbelow)|Hnone].
  - left. exists (Z.of_nat k). split; [lia|]. split; [exact Hat|].
    rewrite (mine_loop_found k N 0 pow Hd Hk); [reflexivity| |exact Hat].
    intros j Hj. simpl (0 + _). apply Hbelow, Hj.
  - right. split.
    + intros m Hm. specialize (Hnone (Z.to_nat m) ltac:(lia)).
      rewrite Z2Nat.id in Hnone by lia. exact Hnone.
    + destruct (mine_loop_none N 0 pow Hd) as [pow' Hrun].
      * intros j Hj. simpl (0 + _). apply Hnone, Hj.
      * exists pow'. rewrite Hrun. reflexivity.
Qed.

Lemma getTransactionsForBlock_run (bc : Blockchain.t) :
  Blockchain.getTransactionsForBlock bc
  = Ok (firstn 100 (Blockchain.TransactionPool bc), bc).
Proof.
  unfold Blockchain.getTransactionsForBlock, bind, get, Blockchain.len.
  destruct (Z.ltb_spec (Z.of_nat (List.length (Blockchain.TransactionPool bc))) 100) as [Hlt|Hge].
  - rewrite firstn_all2 by lia. reflexivity.
  - reflexivity.
Qed.

Lemma CreateNewBlock_run (now : Z) (miner : string) (bc : Blockchain.t) (tip : Block.t) :
  last (Blockchain.Chain bc) = Some tip ->
  Blockchain.CreateNewBlock now miner bc
  = match ProofOfWork.Mine (pow_of bc (candidate now miner bc tip)) with
    | Ok ((_, _, Some err), _) => Ok ((None, Some err), bc)
    | Ok ((nonce, hash, None), pow) => Ok ((Some (mined_block pow nonce hash), None), bc)
    | Panic r => Panic r
    end.
Proof.
  intros Hlast. unfold Blockchain.CreateNewBlock. unfold bind at 1. unfold get at 1.
  assert (Hlen : (Blockchain.len (Blockchain.Chain bc) =? 0) = false).
  { apply Z.eqb_neq. unfold Blockchain.len.
    destruct (Blockchain.Chain bc); [discriminate | simpl; lia]. }
  rewrite Hlen. unfold bind at 1. rewrite (at_index_last _ tip) by exact Hlast.
  unfold bind at 1. rewrite getTransactionsForBlock_run.
  unfold bind, call. fold (candidate now miner bc tip).
  fold (pow_of bc (candidate now miner bc tip)).
  destruct (ProofOfWork.Mine _) as [[[[nonce hash] [err|]] pow]|r]; reflexivity.
Qed.

Lemma forallb_firstn {A : Type} (f : A -> bool) (n : nat) (l : list A) :
  forallb f l = true -> forallb f (firstn n l) = true.
Proof.
  revert n. induction l as [|a l IH]; intros [|n]; simpl; auto.
  intros Hall. apply andb_prop in Hall. destruct Hall as [-> Hall]. simpl. auto.
Qed.

Lemma reachable_pool_forallb (bc : Blockchain.t) :
  reachable bc -> forallb Transaction.IsValid (Blockchain.TransactionPool bc) = true.
Proof.
  revert bc. apply (reachable_induction
    (fun bc => forallb Transaction.IsValid (Blockchain.TransactionPool bc) = true)).
  - reflexivity.
  - intros bc b _ IH _. simpl. rewrite forallb_forall in *.
    intros tx Hin. apply List.filter_In in Hin. apply IH, Hin.
  - intros bc tx _ IH Hv _. simpl. rewrite forallb_app, IH. simpl. now rewrite Hv.
Qed.

(** X5. On a reachable state with a difficulty that is a count of
    symbols, CreateNewBlock leaves the state as it is and either fails
    with the mining error or returns a block over the first hundred pool
    transactions, credited to the given miner, whose stored hash is its
    computed hash; AddBlock then accepts that block and commits it. *)
Theorem CreateNewBlock_then_AddBlock (now : Z) (miner : string) (bc : Blockchain.t) :
  reachable bc ->
  0 <= Blockchain.Difficulty bc ->
  (exists b,
     Blockchain.CreateNewBlock now miner bc = Ok ((Some b, None), bc)
     /\ Block.Transactions b = firstn 100 (Blockchain.TransactionPool bc)
     /\ Block.Miner b = miner
     /\ Block.Timestamp b = now
     /\ Block.Hash b = Block.CalculateHash b
     /\ Blockchain.AddBlock (Some b) bc = Ok (None, commit bc b))
  \/ Blockchain.CreateNewBlock now miner bc
     = Ok ((None, Some "failed to mine block after 100000000 attempts"), bc).
Proof.
  intros Hreach Hd. destruct (reachable_has_tip bc Hreach) as [tip Hlast].
  rewrite (CreateNewBlock_run now miner bc tip Hlast).
  set (pow := pow_of bc (candidate now miner bc tip)).
  destruct (Mine_cases pow Hd) as [(nonce & Hn & Hmeets & Hmine)|[_ [pow' Hmine]]];
    rewrite Hmine; [|right; reflexivity].
  left. eexists. split; [reflexivity|].
  split; [reflexivity|]. split; [reflexivity|]. split; [reflexivity|]. split; [reflexivity|].
  apply AddBlock_commit. apply (IsValidBlock_true_intro bc tip).
  - reflexivity.
  - exact Hlast.
  - reflexivity.
  - unfold pow_of. rewrite Validate_meets by exact Hd.
    change (meets_difficulty _ _)
      with (meets_difficulty (ProofOfWork.Difficulty pow) (hash_at pow nonce)).
    rewrite Hmeets. reflexivity.
  - apply forallb_firstn, reachable_pool_forallb, Hreach.
Qed.

Lemma reachable_bc1 : reachable Scenario.bc1.
Proof.
  apply (reach_AddTransaction Scenario.bc0 _ Scenario.pay None).
  - apply (reach_NewBlockchain Scenario.now0 1 50). vm_compute. reflexivity.
  - vm_compute. reflexivity.
Qed.

Lemma CreateNewBlock_then_AddBlock_witness :
  reachable Scenario.bc1
  /\ 0 <= Blockchain.Difficulty Scenario.bc1
  /\ ((exists b,
         Blockchain.CreateNewBlock (Scenario.now0 + 10) "M" Scenario.bc1
         = Ok ((Some b, None), Scenario.bc1)
         /\ Block.Transactions b = firstn 100 (Blockchain.TransactionPool Scenario.bc1)
         /\ Block.Miner b = "M"
         /\ Block.Timestamp b = Scenario.now0 + 10
         /\ Block.Hash b = Block.CalculateHash b
         /\ Blockchain.AddBlock (Some b) Scenario.bc1 = Ok (None, commit Scenario.bc1 b))
      \/ Blockchain.CreateNewBlock (Scenario.now0 + 10) "M" Scenario.bc1
         = Ok ((None, Some "failed to mine block after 100000000 attempts"), Scenario.bc1)).
Proof.
  assert (Hd : 0 <= Blockchain.Difficulty Scenario.bc1) by (vm_compute; discriminate).
  split; [exact reachable_bc1|]. split; [exact Hd|].
  exact (CreateNewBlock_then_AddBlock (Scenario.now0 + 10) "M" Scenario.bc1 reachable_bc1 Hd).
Defined.

Lemma all_linked_snoc (d : Z) (b : Block.t) (rest : list Block.t) :
  forall first tip,
    last (first :: rest) = Some tip ->
    all_linked d first (rest ++ [b]) = all_linked d first rest && linked d tip b.
Proof.
  induction rest as [|x rest IH]; intros first tip Hlast.
  - injection Hlast as <-. simpl. now rewrite andb_true_r.
  - simpl. rewrite (IH x tip) by exact Hlast. now rewrite andb_assoc.
Qed.

Lemma IsChainValid_commit (bc : Blockchain.t) (tip b : Block.t) :
  0 <= Blockchain.Difficulty bc ->
  last (Blockchain.Chain bc) = Some tip ->
  Blockchain.IsChainValid bc = Ok (true, bc) ->
  linked (Blockchain.Difficulty bc) tip b = true ->
  Blockchain.IsChainValid (commit bc b) = Ok (true, commit bc b).
Proof.
  intros Hd Hlast Hvalid Hlinked.
  rewrite IsChainValid_run in Hvalid by exact Hd.
  rewrite IsChainValid_run by exact Hd. simpl.
  destruct (Blockchain.Chain bc) as [|g rest]; [discriminate|]. simpl.
  rewrite (all_linked_snoc _ _ _ _ tip Hlast), Hlinked.
  injection Hvalid as ->. reflexivity.
Qed.

(** X6. When IsChainValid holds of a reachable state, it still holds
    after mineBlock, which never panics there: it either leaves the
    state as it is or commits one block of the given miner over the first
    hundred pool transactions. *)
Theorem mineBlock_keeps_chain_valid (now : Z) (miner : string) (bc : Blockchain.t) :
  reachable bc ->
  0 <= Blockchain.Difficulty bc ->
  Blockchain.IsChainValid bc = Ok (true, bc) ->
  exists bc',
    Consensus.mineBlock now miner bc = Ok (tt, bc')
    /\ Blockchain.IsChainValid bc' = Ok (true, bc')
    /\ (bc' = bc
        \/ exists b,
             bc' = commit bc b
             /\ Block.Miner b = miner
             /\ Block.Transactions b = firstn 100 (Blockchain.TransactionPool bc)).
Proof.
  intros Hreach Hd Hvalid. destruct (reachable_has_tip bc Hreach) as [tip Hlast].
  unfold Consensus.mineBlock. unfold bind at 1.
  rewrite (CreateNewBlock_run now miner bc tip Hlast).
  set (pow := pow_of bc (candidate now miner bc tip)).
  destruct (Mine_cases pow Hd) as [(nonce & Hn & Hmeets & Hmine)|[_ [pow' Hmine]]];
    rewrite Hmine; [|exists bc; auto].
  set (b := mined_block (ProofOfWork.set_Block_Nonce nonce pow) nonce (hash_at pow nonce)).
  assert (Hv : Blockchain.IsValidBlock (Some b) bc = Ok (true, bc)).
  { apply (IsValidBlock_true_intro bc tip).
    - reflexivity.
    - exact Hlast.
    - reflexivity.
    - unfold pow_of. rewrite Validate_meets by exact Hd.
      change (meets_difficulty _ _)
        with (meets_difficulty (ProofOfWork.Difficulty pow) (hash_at pow nonce)).
      rewrite Hmeets. reflexivity.
    - apply forallb_firstn, reachable_pool_forallb, Hreach. }
  exists (commit bc b). unfold bind. rewrite (AddBlock_commit bc b Hv).
  split; [reflexivity|]. split.
  - apply (IsChainValid_commit bc tip b Hd Hlast Hvalid).
    unfold linked.
    change (Block.CalculateHash b) with (hash_at pow nonce).
    change (Block.Hash b) with (hash_at pow nonce).
    change (Block.PrevHash b) with (Block.Hash tip).
    rewrite !String.eqb_refl. exact Hmeets.
  - right. exists b. auto.
Qed.

Lemma mineBlock_keeps_chain_valid_witness :
  reachable Scenario.bc1
  /\ 0 <= Blockchain.Difficulty Scenario.bc1
  /\ Blockchain.IsChainValid Scenario.bc1 = Ok (true, Scenario.bc1)
  /\ exists bc',
       Consensus.mineBlock (Scenario.now0 + 10) "M" Scenario.bc1 = Ok (tt, bc')
       /\ Blockchain.IsChainValid bc' = Ok (true, bc')
       /\ (bc' = Scenario.bc1
           \/ exists b,
                bc' = commit Scenario.bc1 b
                /\ Block.Miner b = "M"
                /\ Block.Transactions b
                   = firstn 100 (Blockchain.TransactionPool Scenario.bc1)).
Proof.
  assert (Hd : 0 <= Blockchain.Difficulty Scenario.bc1) by (vm_compute; discriminate).
  assert (Hv : Blockchain.IsChainValid Scenario.bc1 = Ok (true, Scenario.bc1))
    by (vm_compute; reflexivity).
  split; [exact reachable_bc1|]. split; [exact Hd|]. split; [exact Hv|].
  exact (mineBlock_keeps_chain_valid (Scenario.now0 + 10) "M" Scenario.bc1 reachable_bc1 Hd Hv).
Defined.

(** X7. After an AddBlock that returns no error the chain is one block
    longer and GetLastBlock returns the block that was passed in. *)
Theorem AddBlock_then_GetLastBlock (block : option Block.t) (bc bc' : Blockchain.t) :
  Blockchain.AddBlock block bc = Ok (None, bc') ->
  exists b,
    block = Some b
    /\ Blockchain.GetLastBlock bc' = Ok (Some b, bc')
    /\ Blockchain.len (Blockchain.Chain bc') = Blockchain.len (Blockchain.Chain bc) + 1.
Proof.
  intros Hadd. destruct (AddBlock_inv _ _ _ _ Hadd) as [[He _]|(b & -> & _ & -> & _)];
    [discriminate|].
  exists b. split; [reflexivity|]. split.
  - unfold Blockchain.GetLastBlock, bind, get.
    assert (Hlen : (Blockchain.len (Blockchain.Chain (commit bc b)) =? 0) = false).
    { apply Z.eqb_neq. unfold Blockchain.len. simpl. rewrite length_app. simpl. lia. }
    rewrite Hlen. rewrite (at_index_last _ b) by apply last_snoc. reflexivity.
  - unfold Blockchain.len. simpl. rewrite length_app. simpl. lia.
Qed.

Lemma AddBlock_then_GetLastBlock_witness :
  Blockchain.AddBlock (Some Scenario.block1) Scenario.bc1 = Ok (None, Scenario.bc2)
  /\ exists b,
       Some Scenario.block1 = Some b
       /\ Blockchain.GetLastBlock Scenario.bc2 = Ok (Some b, Scenario.bc2)
       /\ Blockchain.len (Blockchain.Chain Scenario.bc2)
          = Blockchain.len (Blockchain.Chain Scenario.bc1) + 1.
Proof.
  assert (H : Blockchain.AddBlock (Some Scenario.block1) Scenario.bc1 = Ok (None, Scenario.bc2))
    by (vm_compute; reflexivity).
  split; [exact H | exact (AddBlock_then_GetLastBlock _ _ _ H)].
Defined.

(** ** A difficulty beyond the length of a digest *)

Lemma meets_difficulty_too_long (d : Z) (hash : string) :
  Z.of_nat (String.length hash) < d -> meets_difficulty d hash = false.
Proof.
  intros Hlt. unfold meets_difficulty.
  replace (d <=? Z.of_nat (String.length hash)) with false by (symmetry; apply Z.leb_gt; lia).
  reflexivity.
Qed.

(** X8. With a difficulty above 64, the length of a digest, no block
    passes Validate: on a reachable state AddBlock turns every block down
    and CreateNewBlock ends with the mining error, so the chain never
    grows. *)
Theorem difficulty_above_64_freezes (bc : Blockchain.t) :
  reachable bc ->
  64 < Blockchain.Difficulty bc ->
  (forall block, Blockchain.AddBlock block bc = Ok (Some "invalid block", bc))
  /\ (forall now miner,
        Blockchain.CreateNewBlock now miner bc
        = Ok ((None, Some "failed to mine block after 100000000 attempts"), bc)).
Proof.
  intros Hreach Hd. destruct (reachable_has_tip bc Hreach) as [tip Hlast].
  assert (Hnone : forall h : Block.t,
             meets_difficulty (Blockchain.Difficulty bc) (Block.CalculateHash h) = false).
  { intros h. apply meets_difficulty_too_long. rewrite Block_CalculateHash_length. lia. }
  split.
  - intros [b|]; [|reflexivity].
    rewrite (AddBlock_run bc tip b Hlast) by lia.
    unfold accepts. rewrite Hnone, andb_false_r. reflexivity.
  - intros now miner. rewrite (CreateNewBlock_run now miner bc tip Hlast).
    set (pow := pow_of bc (candidate now miner bc tip)).
    assert (Hd' : 0 <= ProofOfWork.Difficulty pow) by (simpl; lia).
    destruct (Mine_cases pow Hd') as [(nonce & _ & Hmeets & _)|[_ [pow' Hmine]]].
    + unfold hash_at in Hmeets. simpl ProofOfWork.Difficulty in Hmeets.
      rewrite Hnone in Hmeets. discriminate.
    + rewrite Hmine. reflexivity.
Qed.

Lemma difficulty_above_64_freezes_witness :
  reachable Run.bc65
  /\ 64 < Blockchain.Difficulty Run.bc65
  /\ Blockchain.AddBlock (Some Scenario.block1) Run.bc65 = Ok (Some "invalid block", Run.bc65).
Proof.
  assert (Hr : reachable Run.bc65).
  { apply (reach_NewBlockchain Scenario.now0 65 50). vm_compute. reflexivity. }
  assert (Hd : 64 < Blockchain.Difficulty Run.bc65) by (vm_compute; reflexivity).
  split; [exact Hr|]. split; [exact Hd|].
  exact (proj1 (difficulty_above_64_freezes Run.bc65 Hr Hd) (Some Scenario.block1)).
Defined.

(** ** Signatures *)

Lemma sha256_hex_nonempty (data : string) : String.eqb (sha256_hex data) EmptyString = false.
Proof.
  apply String.eqb_neq. intros H. pose proof (sha256_hex_length data) as Hlen.
  rewrite H in Hlen. discriminate.
Qed.

(** X9. Sign never fails, changes the signature only, and the signature
    it makes verifies once the signing key is declared as the public
    key, whatever the key and the sender are. *)
Theorem Sign_then_VerifySignature (key : string) (tx : Transaction.t) :
  exists tx',
    Transaction.Sign key tx = Ok (None, tx')
    /\ Transaction.set_Signature (Transaction.Signature tx') tx = tx'
    /\ Transaction.VerifySignature (Transaction.set_PublicKey key tx') = true.
Proof.
  exists (Transaction.set_Signature (sha256_hex (Transaction.Hash tx +:+ key)) tx).
  split; [reflexivity|]. split; [reflexivity|].
  unfold Transaction.VerifySignature. simpl.
  rewrite sha256_hex_nonempty. apply String.eqb_refl.
Qed.

(** X10. A transaction as NewTransaction returns it carries no
    signature, so AddTransaction turns it down as invalid in every state
    and leaves the state as it is. *)
Theorem AddTransaction_unsigned (now : Z) (from to : string) (amount fee : float) (nonce : Z)
    (bc : Blockchain.t) :
  Blockchain.AddTransaction (Transaction.NewTransaction now from to amount fee nonce) bc
  = Ok (Some "invalid transaction", bc).
Proof.
  rewrite AddTransaction_run.
  assert (Hv : Transaction.IsValid (Transaction.NewTransaction now from to amount fee nonce)
               = false).
  { unfold Transaction.IsValid.
    destruct (PrimFloat.leb _ _); [reflexivity|].
    destruct (String.eqb _ _); reflexivity. }
  rewrite Hv. reflexivity.
Qed.

(** X11. The signature covers the stored hash and the public key only:
    a valid transaction stays valid when its recipient, amount, fee,
    nonce and timestamp are overwritten, as long as the amount is not at
    most zero and the recipient is not the sender. *)
Theorem IsValid_after_rewrite (tx : Transaction.t) (to : string) (amount fee : float)
    (nonce timestamp : Z) :
  Transaction.IsValid tx = true ->
  PrimFloat.leb amount 0 = false ->
  Transaction.From tx <> to ->
  Transaction.IsValid
    (Transaction.mk (Transaction.Version tx) (Transaction.Hash tx) (Transaction.From tx)
       to amount fee nonce timestamp (Transaction.Signature tx) (Transaction.PublicKey tx)
       (Transaction.Status tx) (Transaction.BlockHash tx)) = true.
Proof.
  rewrite !IsValid_true_iff. intros (_ & _ & Hsig) Hamount Hto.
  split; [exact Hamount|]. split; [exact Hto | exact Hsig].
Qed.

Lemma IsValid_after_rewrite_witness :
  Transaction.IsValid Scenario.pay = true
  /\ Transaction.IsValid Run.pay_rewritten = true
  /\ Blockchain.AddTransaction Run.pay_rewritten Scenario.bc0
     = Ok (None, append_to_pool Scenario.bc0 Run.pay_rewritten).
Proof.
  assert (H1 : Transaction.IsValid Scenario.pay = true) by (vm_compute; reflexivity).
  assert (H2 : PrimFloat.leb 999999 0 = false) by (vm_compute; reflexivity).
  assert (H3 : Transaction.From Scenario.pay <> "Z") by (vm_compute; discriminate).
  split; [exact H1|]. split.
  - exact (IsValid_after_rewrite Scenario.pay "Z" 999999 0
             (Transaction.Nonce Scenario.pay) (Transaction.Timestamp Scenario.pay) H1 H2 H3).
  - vm_compute. reflexivity.
Defined.

(** ** What AddBlock does not look at *)

Lemma Validate_true_same_hash (pow pow' : ProofOfWork.t) :
  ProofOfWork.Difficulty pow' = ProofOfWork.Difficulty pow ->
  Block.CalculateHash (ProofOfWork.Block pow') = Block.CalculateHash (ProofOfWork.Block pow) ->
  ProofOfWork.Validate pow = Ok (true, pow) ->
  ProofOfWork.Validate pow' = Ok (true, pow').
Proof.
  unfold ProofOfWork.Validate, ProofOfWork.IsValidHash, bind, get, slice_to, ret, panic.
  intros -> ->.
  destruct (_ <? ProofOfWork.Difficulty pow); [discriminate|].
  destruct (_ || _); [discriminate|].
  destruct (String.eqb _ _); [reflexivity | discriminate].
Qed.

(** X12. AddBlock checks neither the merkle root against the
    transactions nor the reward, the miner or the stored hash: when a
    block is acceptable, so is the same block with any list of valid
    transactions, any miner, any reward and any stored hash, and it is
    committed with them. *)
Theorem AddBlock_ignores_body (bc : Blockchain.t) (b : Block.t)
    (txs : list Transaction.t) (miner hash : string) (r : float) :
  Blockchain.IsValidBlock (Some b) bc = Ok (true, bc) ->
  forallb Transaction.IsValid txs = true ->
  let b' := Block.set_Transactions txs
              (Block.set_Miner miner (Block.set_BlockReward r (Block.set_Hash hash b))) in
  Blockchain.AddBlock (Some b') bc = Ok (None, commit bc b')
  /\ Blockchain.balance (Blockchain.Accounts (commit bc b')) miner
     = PrimFloat.add
         (Blockchain.balance (fold_left transfer txs (Blockchain.Accounts bc)) miner) r.
Proof.
  intros Hv Hall b'. apply IsValidBlock_true_inv in Hv.
  destruct Hv as (Hi & tip & Hlast & Hp & Hval & _). split.
  - apply AddBlock_commit. apply (IsValidBlock_true_intro bc tip); try assumption.
    apply (Validate_true_same_hash (pow_of bc b)); [reflexivity | reflexivity | exact Hval].
  - simpl. unfold reward, Blockchain.balance at 1. simpl. rewrite lookup_insert_eq. reflexivity.
Qed.

Lemma AddBlock_ignores_body_witness :
  Blockchain.IsValidBlock (Some Scenario.block1) Scenario.bc1 = Ok (true, Scenario.bc1)
  /\ Blockchain.AddBlock (Some Run.block1_rewritten) Scenario.bc1
     = Ok (None, commit Scenario.bc1 Run.block1_rewritten)
  /\ Blockchain.balance (Blockchain.Accounts (commit Scenario.bc1 Run.block1_rewritten)) "X"
     = 1000000%float.
Proof.
  assert (H1 : Blockchain.IsValidBlock (Some Scenario.block1) Scenario.bc1
               = Ok (true, Scenario.bc1)) by (vm_compute; reflexivity).
  assert (H2 : forallb Transaction.IsValid [] = true) by reflexivity.
  destruct (AddBlock_ignores_body Scenario.bc1 Scenario.block1 [] "X" "" 1000000 H1 H2)
    as [Hadd Hbal].
  split; [exact H1|]. split; [exact Hadd|].
  vm_compute. reflexivity.
Defined.

(** ** The balances a block leaves alone *)

Lemma transfer_other (accounts : gmap string float) (tx : Transaction.t) (a : string) :
  a <> Transaction.From tx -> a <> Transaction.To tx ->
  transfer accounts tx !! a = accounts !! a.
Proof.
  intros Hf Ht. unfold transfer.
  rewrite lookup_insert_ne by congruence. rewrite lookup_insert_ne by congruence. reflexivity.
Qed.

Lemma transfers_other (txs : list Transaction.t) (a : string) :
  (forall tx, In tx txs -> a <> Transaction.From tx /\ a <> Transaction.To tx) ->
  forall accounts, fold_left transfer txs accounts !! a = accounts !! a.
Proof.
  induction txs as [|tx txs IH]; intros Hout accounts; simpl; [reflexivity|].
  rewrite IH by (intros t Hin; apply Hout; now right).
  destruct (Hout tx (or_introl eq_refl)) as [Hf Ht]. apply transfer_other; assumption.
Qed.

(** X13. A committed block changes only the balances of its miner and
    of the senders and recipients of its transactions: GetBalance of any
    other address returns what it returned before. *)
Theorem AddBlock_other_balances (block : option Block.t) (bc bc' : Blockchain.t)
    (e : option error) (address : string) :
  Blockchain.AddBlock block bc = Ok (e, bc') ->
  (forall b, block = Some b -> ~ In address (block_addresses b)) ->
  exists v,
    Blockchain.GetBalance address bc = Ok (v, bc)
    /\ Blockchain.GetBalance address bc' = Ok (v, bc').
Proof.
  intros Hadd Hout. exists (Blockchain.balance (Blockchain.Accounts bc) address).
  split; [reflexivity|].
  destruct (AddBlock_inv _ _ _ _ Hadd) as [[_ ->]|(b & Hb & _ & -> & _)]; [reflexivity|].
  specialize (Hout b Hb). unfold Blockchain.GetBalance, bind, get, ret. do 2 f_equal.
  unfold Blockchain.balance. f_equal. simpl. unfold reward.
  rewrite lookup_insert_ne by (intros Heq; apply Hout; left; exact Heq).
  apply transfers_other. intros tx Hin.
  split; intros ->; apply Hout; right; apply in_flat_map; exists tx; simpl; auto.
Qed.

Lemma AddBlock_other_balances_witness :
  Blockchain.AddBlock (Some Scenario.block1) Scenario.bc1 = Ok (None, Scenario.bc2)
  /\ exists v,
       Blockchain.GetBalance "genesis_miner" Scenario.bc1 = Ok (v, Scenario.bc1)
       /\ Blockchain.GetBalance "genesis_miner" Scenario.bc2 = Ok (v, Scenario.bc2).
Proof.
  assert (H : Blockchain.AddBlock (Some Scenario.block1) Scenario.bc1 = Ok (None, Scenario.bc2))
    by (vm_compute; reflexivity).
  assert (Hout : forall b, Some Scenario.block1 = Some b ->
                   ~ In "genesis_miner" (block_addresses b)).
  { intros b [= <-]. vm_compute. intros [Hx|[Hx|[Hx|[]]]]; discriminate. }
  split; [exact H|].
  exact (AddBlock_other_balances _ _ _ _ "genesis_miner" H Hout).
Defined.

(** ** The validator *)

Lemma ValidateTransaction_run (tx : Transaction.t) (bc : Blockchain.t) :
  Validator.ValidateTransaction tx bc = Ok (validates bc tx, bc).
Proof.
  unfold Validator.ValidateTransaction, validates.
  destruct (Transaction.IsValid tx); simpl; [|reflexivity].
  unfold bind at 1. unfold Blockchain.GetBalance, bind, get, ret.
  change (PrimFloat.ltb _ _) with (underfunded bc tx).
  destruct (underfunded bc tx); simpl; [reflexivity|].
  unfold Validator.isDuplicateTransaction, bind, get, ret. fold (pooled bc tx).
  destruct (pooled bc tx); reflexivity.
Qed.

(** X14. ValidateTransaction never panics and leaves the state as it
    is.  It returns true exactly when AddTransaction would take the
    transaction into the pool and no transaction of the pool has the same
    stored hash. *)
Theorem ValidateTransaction_spec (tx : Transaction.t) (bc : Blockchain.t) :
  exists v,
    Validator.ValidateTransaction tx bc = Ok (v, bc)
    /\ (v = true <->
        Blockchain.AddTransaction tx bc = Ok (None, append_to_pool bc tx)
        /\ Validator.isDuplicateTransaction tx bc = Ok (false, bc)).
Proof.
  exists (validates bc tx). split; [apply ValidateTransaction_run|].
  rewrite AddTransaction_run. unfold validates.
  unfold Validator.isDuplicateTransaction, bind, get, ret. fold (pooled bc tx).
  destruct (Transaction.IsValid tx), (underfunded bc tx), (pooled bc tx); simpl;
    split; try discriminate; try (intros [? ?]; discriminate); auto.
Qed.

Lemma range_all_ValidateTransaction (txs : list Transaction.t) (bc : Blockchain.t) :
  range_all txs Validator.ValidateTransaction bc = Ok (forallb (validates bc) txs, bc).
Proof.
  induction txs as [|tx txs IH]; simpl; [reflexivity|].
  unfold bind at 1. rewrite ValidateTransaction_run.
  destruct (validates bc tx); simpl; [exact IH | reflexivity].
Qed.

Lemma validateBlockHeader_reads (now : Z) (b : Block.t) (bc : Blockchain.t) :
  0 <= Blockchain.Difficulty bc ->
  exists v, Validator.validateBlockHeader now b bc = Ok (v, bc).
Proof.
  intros Hd. unfold Validator.validateBlockHeader.
  destruct (_ <? 1); [eexists; reflexivity|].
  destruct (_ <? Block.Timestamp b); [eexists; reflexivity|].
  unfold bind, get, call. rewrite Validate_meets by exact Hd. simpl.
  destruct (meets_difficulty _ _); simpl; [|eexists; reflexivity].
  destruct (String.eqb _ _); eexists; reflexivity.
Qed.

Lemma ValidateBlock_pooled (now : Z) (b : Block.t) (bc : Blockchain.t) (tx : Transaction.t) :
  0 <= Blockchain.Difficulty bc ->
  In tx (Block.Transactions b) ->
  pooled bc tx = true ->
  Validator.ValidateBlock now (Some b) bc = Ok (false, bc).
Proof.
  intros Hd Hin Hpooled. unfold Validator.ValidateBlock. unfold bind at 1.
  destruct (validateBlockHeader_reads now b bc Hd) as [v ->].
  destruct v; simpl; [|reflexivity].
  unfold bind. rewrite range_all_ValidateTransaction.
  assert (Hall : forallb (validates bc) (Block.Transactions b) = false).
  { apply not_true_is_false. intros Hall. rewrite forallb_forall in Hall.
    specialize (Hall tx Hin). unfold validates in Hall. rewrite Hpooled in Hall.
    rewrite andb_false_r in Hall. discriminate. }
  rewrite Hall. reflexivity.
Qed.

Lemma pooled_In (bc : Blockchain.t) (tx : Transaction.t) :
  In tx (Blockchain.TransactionPool bc) -> pooled bc tx = true.
Proof.
  intros Hin. unfold pooled. apply existsb_exists. exists tx.
  split; [exact Hin | apply String.eqb_refl].
Qed.

(** X15. The validator turns down the blocks the node itself makes: on
    a state with a non-empty pool, the block that CreateNewBlock returns
    fails ValidateBlock in that state, since each of its transactions is
    a duplicate of one in the pool. *)
Theorem ValidateBlock_rejects_created (now now' : Z) (miner : string) (bc bc' : Blockchain.t)
    (b : Block.t) :
  0 <= Blockchain.Difficulty bc ->
  Blockchain.TransactionPool bc <> [] ->
  Blockchain.CreateNewBlock now miner bc = Ok ((Some b, None), bc') ->
  Validator.ValidateBlock now' (Some b) bc = Ok (false, bc).
Proof.
  intros Hd Hpool Hnew.
  destruct (Blockchain.TransactionPool bc) as [|tx pool] eqn:Hp; [congruence|].
  apply (ValidateBlock_pooled now' b bc tx Hd).
  - revert Hnew. unfold Blockchain.CreateNewBlock. unfold bind at 1. unfold get at 1.
    destruct (_ =? 0); [discriminate|].
    unfold bind at 1. destruct (at_index _ _ bc) as [[lastBlock s]|r] eqn:Hat; [|discriminate].
    apply at_index_last_inv in Hat. destruct Hat as [_ ->].
    unfold bind at 1. rewrite getTransactionsForBlock_run, Hp.
    unfold bind, call.
    match goal with
    | |- context [ProofOfWork.Mine ?p] => set (pow := p)
    end.
    assert (Hd' : 0 <= ProofOfWork.Difficulty pow) by exact Hd.
    destruct (Mine_cases pow Hd') as [(nonce & _ & _ & Hmine)|[_ [pow' Hmine]]];
      rewrite Hmine; [|discriminate].
    intros [= <- _]. simpl. now left.
  - apply pooled_In. rewrite Hp. now left.
Qed.

Lemma ValidateBlock_rejects_created_witness :
  0 <= Blockchain.Difficulty Scenario.bc1
  /\ Blockchain.TransactionPool Scenario.bc1 <> []
  /\ Blockchain.CreateNewBlock (Scenario.now0 + 10) "M" Scenario.bc1
     = Ok ((Some Scenario.block1, None), Scenario.bc1)
  /\ Validator.ValidateBlock (Scenario.now0 + 20) (Some Scenario.block1) Scenario.bc1
     = Ok (false, Scenario.bc1).
Proof.
  assert (Hd : 0 <= Blockchain.Difficulty Scenario.bc1) by (vm_compute; discriminate).
  assert (Hp : Blockchain.TransactionPool Scenario.bc1 <> []) by (vm_compute; discriminate).
  assert (Hnew : Blockchain.CreateNewBlock (Scenario.now0 + 10) "M" Scenario.bc1
                 = Ok ((Some Scenario.block1, None), Scenario.bc1))
    by (vm_compute; reflexivity).
  split; [exact Hd|]. split; [exact Hp|]. split; [exact Hnew|].
  exact (ValidateBlock_rejects_created (Scenario.now0 + 10) (Scenario.now0 + 20) "M"
           Scenario.bc1 Scenario.bc1 Scenario.block1 Hd Hp Hnew).
Defined.

(** ** The consensus checks *)

Lemma zero_prefix_same (n : nat) : Block.zero_prefix n = ProofOfWork.zero_prefix n.
Proof. induction n as [|n IH]; simpl; [reflexivity | now rewrite IH]. Qed.

(** X16. The block's own IsValid is Validate of a proof of work at the
    block's own difficulty: the same answer, the same panic. *)
Theorem Block_IsValid_as_Validate (b : Block.t) :
  Block.IsValid b
  = match ProofOfWork.Validate (ProofOfWork.NewProofOfWork b (Block.Difficulty b)) with
    | Ok (v, _) => Ok (v, b)
    | Panic r => Panic r
    end.
Proof.
  unfold Block.IsValid, ProofOfWork.Validate, ProofOfWork.IsValidHash, bind, get. simpl.
  rewrite zero_prefix_same.
  destruct (_ <? Block.Difficulty b); [reflexivity|].
  unfold slice_to. destruct (_ || _); reflexivity.
Qed.

Lemma Block_IsValid_meets (b : Block.t) :
  0 <= Block.Difficulty b ->
  Block.IsValid b = Ok (meets_difficulty (Block.Difficulty b) (Block.CalculateHash b), b).
Proof.
  intros Hd. unfold Block.IsValid, meets_difficulty, bind, get.
  rewrite zero_prefix_same.
  destruct (Z.ltb_spec (Z.of_nat (String.length (Block.CalculateHash b))) (Block.Difficulty b))
    as [Hlt|Hge].
  - replace (_ <=? _) with false by (symmetry; apply Z.leb_gt; lia). reflexivity.
  - replace (_ <=? _) with true by (symmetry; apply Z.leb_le; lia).
    unfold slice_to.
    replace (Block.Difficulty b <? 0) with false by (symmetry; apply Z.ltb_ge; lia).
    replace (_ <? Block.Difficulty b) with false by (symmetry; apply Z.ltb_ge; lia).
    reflexivity.
Qed.

Lemma GetLastBlock_run (bc : Blockchain.t) (tip : Block.t) :
  last (Blockchain.Chain bc) = Some tip ->
  Blockchain.GetLastBlock bc = Ok (Some tip, bc).
Proof.
  intros Hlast. unfold Blockchain.GetLastBlock, bind, get.
  assert (Hlen : (Blockchain.len (Blockchain.Chain bc) =? 0) = false).
  { apply Z.eqb_neq. unfold Blockchain.len.
    destruct (Blockchain.Chain bc); [discriminate | simpl; lia]. }
  rewrite Hlen, (at_index_last _ tip) by exact Hlast. reflexivity.
Qed.

Lemma reachable_tip_index (bc : Blockchain.t) (tip : Block.t) :
  reachable bc ->
  last (Blockchain.Chain bc) = Some tip ->
  Block.Index tip + 1 = Blockchain.len (Blockchain.Chain bc).
Proof.
  intros Hreach Hlast. destruct (reachable_chain_inv bc Hreach) as [Hindex _].
  rewrite last_lookup in Hlast. rewrite (Hindex _ _ Hlast). unfold Blockchain.len.
  destruct (Blockchain.Chain bc); [discriminate | simpl; lia].
Qed.

Lemma Consensus_ValidateBlock_run (bc : Blockchain.t) (tip b : Block.t) :
  reachable bc ->
  last (Blockchain.Chain bc) = Some tip ->
  0 <= Blockchain.Difficulty bc ->
  0 <= Block.Difficulty b ->
  Consensus.ValidateBlock (Some b) bc
  = Ok (meets_difficulty (Block.Difficulty b) (Block.CalculateHash b) && accepts bc tip b, bc).
Proof.
  intros Hreach Hlast Hd Hbd. unfold Consensus.ValidateBlock.
  unfold bind at 1. unfold call. rewrite Block_IsValid_meets by exact Hbd. simpl.
  destruct (meets_difficulty (Block.Difficulty b) _); simpl; [|reflexivity].
  unfold bind at 1. rewrite (GetLastBlock_run bc tip Hlast).
  rewrite (reachable_tip_index bc tip Hreach Hlast). unfold accepts.
  destruct (Block.Index b =? _); simpl; [|reflexivity].
  destruct (String.eqb _ _); simpl; [|reflexivity].
  unfold bind, get. rewrite Validate_meets by exact Hd. simpl.
  destruct (meets_difficulty _ _); reflexivity.
Qed.

(** X17. On a reachable state, for difficulties that are counts of
    symbols, the consensus ValidateBlock returns true exactly for the
    blocks that pass their own IsValid and the four checks of AddBlock,
    and HandleReceivedBlock commits exactly those blocks and leaves the
    state as it is for the others. *)
Theorem HandleReceivedBlock_spec (bc : Blockchain.t) (tip b : Block.t) :
  reachable bc ->
  last (Blockchain.Chain bc) = Some tip ->
  0 <= Blockchain.Difficulty bc ->
  0 <= Block.Difficulty b ->
  let ok := meets_difficulty (Block.Difficulty b) (Block.CalculateHash b) && accepts bc tip b in
  Consensus.ValidateBlock (Some b) bc = Ok (ok, bc)
  /\ Consensus.HandleReceivedBlock (Some b) bc
     = Ok (tt, if ok then commit bc b else bc).
Proof.
  intros Hreach Hlast Hd Hbd ok. split.
  - apply Consensus_ValidateBlock_run; assumption.
  - unfold Consensus.HandleReceivedBlock. unfold bind at 1.
    rewrite (Consensus_ValidateBlock_run bc tip b Hreach Hlast Hd Hbd). fold ok.
    destruct ok eqn:Hok; simpl; [|reflexivity].
    unfold bind. rewrite (AddBlock_run bc tip b Hlast Hd).
    unfold ok in Hok. apply andb_prop in Hok. destruct Hok as [_ ->]. reflexivity.
Qed.

Lemma HandleReceivedBlock_spec_witness :
  reachable Scenario.bc1
  /\ last (Blockchain.Chain Scenario.bc1) = Some Scenario.genesis
  /\ Consensus.HandleReceivedBlock (Some Scenario.block1) Scenario.bc1
     = Ok (tt, Scenario.bc2).
Proof.
  assert (Hlast : last (Blockchain.Chain Scenario.bc1) = Some Scenario.genesis)
    by (vm_compute; reflexivity).
  assert (Hd : 0 <= Blockchain.Difficulty Scenario.bc1) by (vm_compute; discriminate).
  assert (Hbd : 0 <= Block.Difficulty Scenario.block1) by (vm_compute; discriminate).
  destruct (HandleReceivedBlock_spec Scenario.bc1 Scenario.genesis Scenario.block1
              reachable_bc1 Hlast Hd Hbd) as [_ Hrun].
  split; [exact reachable_bc1|]. split; [exact Hlast|].
  rewrite Hrun. vm_compute. reflexivity.
Defined.

(** X18. A block whose own difficulty field is negative makes the
    consensus ValidateBlock, and with it HandleReceivedBlock, panic in
    every state. *)
Theorem HandleReceivedBlock_negative_difficulty (bc : Blockchain.t) (b : Block.t) :
  Block.Difficulty b < 0 ->
  Consensus.ValidateBlock (Some b) bc = Panic "slice bounds out of range"
  /\ Consensus.HandleReceivedBlock (Some b) bc = Panic "slice bounds out of range".
Proof.
  intros Hneg.
  assert (Hown : Block.IsValid b = Panic "slice bounds out of range").
  { unfold Block.IsValid, bind, get, slice_to.
    replace (_ <? Block.Difficulty b) with false by (symmetry; apply Z.ltb_ge; lia).
    replace (Block.Difficulty b <? 0) with true by (symmetry; apply Z.ltb_lt; lia).
    reflexivity. }
  assert (Hv : Consensus.ValidateBlock (Some b) bc = Panic "slice bounds out of range").
  { unfold Consensus.ValidateBlock. unfold bind at 1. unfold call. now rewrite Hown. }
  split; [exact Hv|].
  unfold Consensus.HandleReceivedBlock. unfold bind at 1. now rewrite Hv.
Qed.

Lemma HandleReceivedBlock_negative_difficulty_witness :
  Block.Difficulty Run.block_negative < 0
  /\ Consensus.HandleReceivedBlock (Some Run.block_negative) Scenario.bc1
     = Panic "slice bounds out of range".
Proof.
  assert (H : Block.Difficulty Run.block_negative < 0) by (vm_compute; reflexivity).
  split; [exact H|].
  exact (proj2 (HandleReceivedBlock_negative_difficulty Scenario.bc1 Run.block_negative H)).
Defined.

(** ** Rolling back *)

Lemma range_transfers (txs : list Transaction.t) :
  forall bc : Blockchain.t,
    Blockchain.range txs (fun tx =>
      modify (fun bc =>
        Blockchain.set_Accounts
          (<[Transaction.From tx :=
              PrimFloat.sub (Blockchain.balance (Blockchain.Accounts bc) (Transaction.From tx))
                            (PrimFloat.add (Transaction.Amount tx) (Transaction.Fee tx))]>
             (Blockchain.Accounts bc)) bc) ;;
      modify (fun bc =>
        Blockchain.set_Accounts
          (<[Transaction.To tx :=
              PrimFloat.add (Blockchain.balance (Blockchain.Accounts bc) (Transaction.To tx))
                            (Transaction.Amount tx)]>
             (Blockchain.Accounts bc)) bc)) bc
    = Ok (tt, Blockchain.set_Accounts (fold_left transfer txs (Blockchain.Accounts bc)) bc).
Proof. exact (range_processTransaction txs). Qed.

Lemma recalculate_blocks (blocks : list Block.t) :
  forall bc : Blockchain.t,
    Blockchain.range blocks (fun block =>
      Blockchain.range (Block.Transactions block) (fun tx =>
        modify (fun bc =>
          Blockchain.set_Accounts
            (<[Transaction.From tx :=
                PrimFloat.sub (Blockchain.balance (Blockchain.Accounts bc) (Transaction.From tx))
                              (PrimFloat.add (Transaction.Amount tx) (Transaction.Fee tx))]>
               (Blockchain.Accounts bc)) bc) ;;
        modify (fun bc =>
          Blockchain.set_Accounts
            (<[Transaction.To tx :=
                PrimFloat.add (Blockchain.balance (Blockchain.Accounts bc) (Transaction.To tx))
                              (Transaction.Amount tx)]>
               (Blockchain.Accounts bc)) bc)) ;;
      modify (fun bc =>
        Blockchain.set_Accounts
          (<[Block.Miner block :=
              PrimFloat.add (Blockchain.balance (Blockchain.Accounts bc) (Block.Miner block))
                            (Block.BlockReward block)]>
             (Blockchain.Accounts bc)) bc)) bc
    = Ok (tt, Blockchain.set_Accounts (fold_left apply_block blocks (Blockchain.Accounts bc)) bc).
Proof.
  induction blocks as [|b blocks IH]; intros bc.
  - destruct bc; reflexivity.
  - cbn [Blockchain.range fold_left]. unfold bind at 1. unfold bind at 1.
    rewrite range_transfers. unfold modify at 1. rewrite IH. reflexivity.
Qed.

Lemma recalculateAccountStates_run (bc : Blockchain.t) :
  StateManager.recalculateAccountStates bc
  = Ok (tt, Blockchain.set_Accounts (fold_left apply_block (Blockchain.Chain bc) ∅) bc).
Proof.
  unfold StateManager.recalculateAccountStates. unfold bind at 1. unfold modify at 1.
  unfold bind at 1. unfold get at 1.
  cbn [Blockchain.Chain Blockchain.set_Accounts]. rewrite recalculate_blocks. reflexivity.
Qed.

Lemma RollbackToHeight_run (height : Z) (saved : option error) (bc : Blockchain.t) :
  StateManager.RollbackToHeight height saved bc
  = if (height <? 0) || (Blockchain.len (Blockchain.Chain bc) <=? height)
    then Ok (Some ("invalid height: " +:+ json.int height), bc)
    else
      let chain := firstn (Z.to_nat (height + 1)) (Blockchain.Chain bc) in
      Ok (match saved with
          | Some err => Some ("failed to save rolled back state: " +:+ err)
          | None => None
          end,
          Blockchain.set_Accounts (fold_left apply_block chain ∅)
            (Blockchain.set_Chain chain bc)).
Proof.
  unfold StateManager.RollbackToHeight, bind at 1, get.
  destruct (_ || _); [reflexivity|].
  unfold bind at 1. unfold modify at 1. unfold bind at 1.
  rewrite recalculateAccountStates_run. destruct saved; reflexivity.
Qed.

(** X19. RollbackToHeight never panics.  A height below zero or beyond
    the last block gives an error and leaves the state as it is.  Any
    other height cuts the chain after the block at that height and
    replaces the balances by the replay of the blocks that are left from
    empty balances; the pool is left as it is, and a failure to save is
    reported only after the state has been changed. *)
Theorem RollbackToHeight_spec (height : Z) (saved : option error) (bc : Blockchain.t) :
  exists e bc',
    StateManager.RollbackToHeight height saved bc = Ok (e, bc')
    /\ ((height < 0 \/ Blockchain.len (Blockchain.Chain bc) <= height) ->
        bc' = bc /\ e = Some ("invalid height: " +:+ json.int height))
    /\ (0 <= height < Blockchain.len (Blockchain.Chain bc) ->
        Blockchain.Chain bc' = firstn (Z.to_nat (height + 1)) (Blockchain.Chain bc)
        /\ Blockchain.len (Blockchain.Chain bc') = height + 1
        /\ Blockchain.Accounts bc' = fold_left apply_block (Blockchain.Chain bc') ∅
        /\ Blockchain.TransactionPool bc' = Blockchain.TransactionPool bc
        /\ Blockchain.Difficulty bc' = Blockchain.Difficulty bc
        /\ (e = None <-> saved = None)).
Proof.
  rewrite RollbackToHeight_run.
  destruct (Z.ltb_spec height 0) as [Hneg|Hpos]; simpl.
  - eexists _, _. split; [reflexivity|]. split; [auto | lia].
  - destruct (Z.leb_spec (Blockchain.len (Blockchain.Chain bc)) height) as [Hbig|Hin].
    + eexists _, _. split; [reflexivity|]. split; [auto | lia].
    + eexists _, _. split; [reflexivity|]. split; [lia|]. intros _.
      split; [reflexivity|]. split.
      * simpl. unfold Blockchain.len in *. rewrite length_firstn. lia.
      * split; [reflexivity|]. split; [reflexivity|]. split; [reflexivity|].
        destruct saved; split; intros H; try discriminate H; reflexivity.
Qed.

(** X20. Rolling a reachable state back to height 0 does not give back
    the balances that NewBlockchain sets: the genesis block is replayed
    like any other, so address 0 is left with -1000000 and genesis_miner
    with 50, where both had no account at the start. *)
Theorem RollbackToHeight_genesis (saved : option error) (bc : Blockchain.t) :
  reachable bc ->
  exists e bc',
    StateManager.RollbackToHeight 0 saved bc = Ok (e, bc')
    /\ Blockchain.len (Blockchain.Chain bc') = 1
    /\ Blockchain.GetBalance "0" bc' = Ok (PrimFloat.opp 1000000, bc')
    /\ Blockchain.GetBalance "genesis_address" bc' = Ok (1000000%float, bc')
    /\ Blockchain.GetBalance "genesis_miner" bc' = Ok (50%float, bc')
    /\ forall now blockReward bc0,
         Blockchain.NewBlockchain now (Blockchain.Difficulty bc) blockReward = Ok bc0 ->
         Blockchain.GetBalance "0" bc0 = Ok (0%float, bc0)
         /\ Blockchain.GetBalance "genesis_miner" bc0 = Ok (0%float, bc0).
Proof.
  intros Hreach. destruct (reachable_genesis bc Hreach) as (now & rest & Hc).
  rewrite RollbackToHeight_run. rewrite Hc.
  replace (Blockchain.len _ <=? 0) with false
    by (symmetry; apply Z.leb_gt; unfold Blockchain.len; simpl; lia).
  simpl. eexists _, _. split; [reflexivity|].
  split; [reflexivity|]. split; [reflexivity|]. split; [reflexivity|]. split; [reflexivity|].
  intros now' r bc0 Hnew. rewrite NewBlockchain_run in Hnew. injection Hnew as <-.
  split; reflexivity.
Qed.

Lemma RollbackToHeight_genesis_witness :
  reachable Scenario.bc2
  /\ exists e bc',
       StateManager.RollbackToHeight 0 None Scenario.bc2 = Ok (e, bc')
       /\ Blockchain.GetBalance "0" bc' = Ok (PrimFloat.opp 1000000, bc').
Proof.
  split; [exact reachable_bc2|].
  destruct (RollbackToHeight_genesis None Scenario.bc2 reachable_bc2)
    as (e & bc' & Hrun & _ & H0 & _).
  exists e, bc'. split; [exact Hrun | exact H0].
Defined.

(** ** Catching up with a peer *)

Lemma range_app {S A : Type} (body : A -> M S unit) (l1 l2 : list A) (s s1 : S) :
  Blockchain.range l1 body s = Ok (tt, s1) ->
  Blockchain.range (l1 ++ l2) body s = Blockchain.range l2 body s1.
Proof.
  revert s. induction l1 as [|a l1 IH]; intros s; simpl.
  - unfold ret. intros [= <-]. reflexivity.
  - unfold bind. destruct (body a s) as [[[] s']|r]; [apply IH | discriminate].
Qed.

Lemma take_block_skip (block : option Block.t) (n : network.Node) :
  Blockchain.IsValidBlock block (network.blockchain n) = Ok (false, network.blockchain n) ->
  take_block block n = Ok (tt, n).
Proof.
  intros Hv. unfold take_block, bind, network.on_blockchain. rewrite Hv.
  destruct n; reflexivity.
Qed.

Lemma take_block_commit (b : Block.t) (n : network.Node) :
  Blockchain.IsValidBlock (Some b) (network.blockchain n) = Ok (true, network.blockchain n) ->
  take_block (Some b) n
  = Ok (tt, network.set_blockchain (commit (network.blockchain n) b) n).
Proof.
  intros Hv. unfold take_block. unfold bind at 1. unfold network.on_blockchain at 1.
  rewrite Hv. unfold bind, network.on_blockchain.
  cbn [network.blockchain network.set_blockchain].
  rewrite (AddBlock_commit _ b Hv). reflexivity.
Qed.

Lemma IsValidBlock_other_index (b : Block.t) (bc : Blockchain.t) :
  Block.Index b <> Blockchain.len (Blockchain.Chain bc) ->
  Blockchain.IsValidBlock (Some b) bc = Ok (false, bc).
Proof.
  intros Hi. unfold Blockchain.IsValidBlock, bind, get.
  apply Z.eqb_neq in Hi. rewrite Hi. reflexivity.
Qed.

Lemma take_known_blocks (known : list Block.t) (n : network.Node) :
  (forall b, In b known ->
     Block.Index b <> Blockchain.len (Blockchain.Chain (network.blockchain n))) ->
  Blockchain.range (Some <$> known) take_block n = Ok (tt, n).
Proof.
  induction known as [|b known IH]; intros Hold; [reflexivity|].
  cbn [fmap list_fmap Blockchain.range]. unfold bind.
  rewrite take_block_skip.
  - apply IH. intros x Hx. apply Hold. now right.
  - apply IsValidBlock_other_index, Hold. now left.
Qed.

Lemma Chain_commits (blocks : list Block.t) :
  forall bc,
    Blockchain.Chain (fold_left commit blocks bc) = Blockchain.Chain bc ++ blocks
    /\ Blockchain.Accounts (fold_left commit blocks bc)
       = fold_left apply_block blocks (Blockchain.Accounts bc)
    /\ Blockchain.Difficulty (fold_left commit blocks bc) = Blockchain.Difficulty bc.
Proof.
  induction blocks as [|b blocks IH]; intros bc; simpl.
  - now rewrite app_nil_r.
  - destruct (IH (commit bc b)) as (-> & -> & ->). simpl.
    rewrite <- app_assoc. auto.
Qed.

Lemma take_new_blocks (d : Z) (blocks : list Block.t) :
  forall (n : network.Node) (tip : Block.t),
    Blockchain.Difficulty (network.blockchain n) = d ->
    last (Blockchain.Chain (network.blockchain n)) = Some tip ->
    chain_inv d (Blockchain.Chain (network.blockchain n) ++ blocks) ->
    Blockchain.range (Some <$> blocks) take_block n
    = Ok (tt, network.set_blockchain (fold_left commit blocks (network.blockchain n)) n).
Proof.
  induction blocks as [|b blocks IH]; intros n tip Hd Hlast Hinv.
  - destruct n; reflexivity.
  - cbn [fmap list_fmap Blockchain.range fold_left]. unfold bind.
    set (bc := network.blockchain n) in *.
    assert (Hlen : (0 < List.length (Blockchain.Chain bc))%nat).
    { destruct (Blockchain.Chain bc); [discriminate | simpl; lia]. }
    assert (Htip : (Blockchain.Chain bc ++ b :: blocks) !! pred (List.length (Blockchain.Chain bc))
                   = Some tip).
    { rewrite lookup_app_l by lia. rewrite <- last_lookup. exact Hlast. }
    assert (Hb : (Blockchain.Chain bc ++ b :: blocks) !! List.length (Blockchain.Chain bc)
                 = Some b).
    { rewrite lookup_app_r by lia. now rewrite Nat.sub_diag. }
    destruct Hinv as [Hindex Hlinks].
    assert (Hv : Blockchain.IsValidBlock (Some b) bc = Ok (true, bc)).
    { replace (List.length (Blockchain.Chain bc))
        with (S (pred (List.length (Blockchain.Chain bc)))) in Hb at 1 by lia.
      destruct (Hlinks _ _ _ Htip Hb) as (Hp & Hval & Hall).
      apply (IsValidBlock_true_intro bc tip); try assumption.
      - replace (S (pred (List.length (Blockchain.Chain bc))))
          with (List.length (Blockchain.Chain bc)) in Hb by lia.
        exact (Hindex _ _ Hb).
      - unfold pow_of. rewrite Hd. exact Hval. }
    rewrite (take_block_commit b n Hv). fold bc.
    rewrite (IH (network.set_blockchain (commit bc b) n) b).
    + reflexivity.
    + exact Hd.
    + apply last_snoc.
    + simpl. rewrite <- app_assoc. split; assumption.
Qed.

(** X21. handleBlocks brings a node up to date.  When the chain of a
    reachable node is a prefix of the chain of a reachable peer of the
    same difficulty and the peer sends its whole chain, the node skips
    the blocks it has, commits the others in order and ends with the
    chain and the balances of the peer; its registry is as before. *)
Theorem handleBlocks_catches_up (peer : network.Peer) (n : network.Node)
    (sender : Blockchain.t) :
  reachable (network.blockchain n) ->
  reachable sender ->
  Blockchain.Difficulty sender = Blockchain.Difficulty (network.blockchain n) ->
  (exists blocks, Blockchain.Chain sender = Blockchain.Chain (network.blockchain n) ++ blocks) ->
  exists n',
    network.handleBlocks peer (Some (network.mkBlocksMessage (Some <$> Blockchain.Chain sender))) n
    = Ok (tt, n')
    /\ Blockchain.Chain (network.blockchain n') = Blockchain.Chain sender
    /\ Blockchain.Accounts (network.blockchain n') = Blockchain.Accounts sender
    /\ network.peers n' = network.peers n.
Proof.
  intros Hreach Hsender Hd [blocks Hchain].
  set (bc := network.blockchain n) in *.
  destruct (reachable_has_tip bc Hreach) as [tip Hlast].
  exists (network.set_blockchain (fold_left commit blocks bc) n).
  destruct (Chain_commits blocks bc) as (Hc & Ha & _).
  split; [|split; [|split]].
  - change (network.handleBlocks peer (Some (network.mkBlocksMessage
              (Some <$> Blockchain.Chain sender))) n)
      with (Blockchain.range (Some <$> Blockchain.Chain sender) take_block n).
    rewrite Hchain, fmap_app.
    rewrite (range_app _ _ _ n n).
    + apply (take_new_blocks (Blockchain.Difficulty bc) blocks n tip); auto.
      fold bc. rewrite <- Hchain, <- Hd. apply reachable_chain_inv, Hsender.
    + apply take_known_blocks. intros b Hin.
      destruct (reachable_chain_inv bc Hreach) as [Hindex _].
      apply list_elem_of_In, list_elem_of_lookup in Hin. destruct Hin as [i Hi].
      rewrite (Hindex i b Hi). apply lookup_lt_Some in Hi.
      fold bc. unfold Blockchain.len. lia.
  - simpl. rewrite Hc. now rewrite Hchain.
  - simpl. rewrite Ha.
    destruct (reachable_replay bc Hreach) as (now & rest & Hg & ->).
    destruct (reachable_replay sender Hsender) as (now' & rest' & Hg' & ->).
    rewrite Hchain, Hg in Hg'. apply (f_equal (@tail _)) in Hg'. simpl in Hg'.
    rewrite <- Hg'. now rewrite fold_left_app.
  - reflexivity.
Qed.

Lemma handleBlocks_catches_up_witness :
  reachable (network.blockchain Run.node0)
  /\ reachable Scenario.bc2
  /\ exists n',
       network.handleBlocks Scenario.p1
         (Some (network.mkBlocksMessage (Some <$> Blockchain.Chain Scenario.bc2))) Run.node0
       = Ok (tt, n')
       /\ Blockchain.Chain (network.blockchain n') = Blockchain.Chain Scenario.bc2
       /\ Blockchain.Accounts (network.blockchain n') = Blockchain.Accounts Scenario.bc2
       /\ network.peers n' = network.peers Run.node0.
Proof.
  assert (Hr : reachable (network.blockchain Run.node0)).
  { apply (reach_NewBlockchain Scenario.now0 1 50). vm_compute. reflexivity. }
  assert (Hd : Blockchain.Difficulty Scenario.bc2
               = Blockchain.Difficulty (network.blockchain Run.node0))
    by (vm_compute; reflexivity).
  assert (Hp : exists blocks,
             Blockchain.Chain Scenario.bc2
             = Blockchain.Chain (network.blockchain Run.node0) ++ blocks).
  { exists [Scenario.block1]. vm_compute. reflexivity. }
  split; [exact Hr|]. split; [exact reachable_bc2|].
  exact (handleBlocks_catches_up Scenario.p1 Run.node0 Scenario.bc2 Hr reachable_bc2 Hd Hp).
Defined.

(** ** Announced transactions *)

Lemma slice_to_16 {S : Type} (hash : string) (s : S) :
  16 <= Z.of_nat (String.length hash) ->
  slice_to hash 16 s = Ok (substring 0 16 hash, s).
Proof.
  intros Hlen. unfold slice_to.
  replace (Z.of_nat (String.length hash) <? 16) with false by (symmetry; apply Z.ltb_ge; lia).
  reflexivity.
Qed.

Lemma slice_to_16_short {S : Type} (hash : string) (s : S) :
  Z.of_nat (String.length hash) < 16 ->
  slice_to hash 16 s = Panic "slice bounds out of range".
Proof.
  intros Hlen. unfold slice_to.
  replace (Z.of_nat (String.length hash) <? 16) with true by (symmetry; apply Z.ltb_lt; lia).
  reflexivity.
Qed.

(** X22. handleNewTx drops the error of AddTransaction.  A valid
    transaction is written to every connected peer of the registry
    whether or not it entered the pool: when the sender's balance is too
    low the chain state is as before and the message has gone out all the
    same.  An invalid transaction leaves the node as it was. *)
Theorem handleNewTx_relays (peer : network.Peer) (tx : Transaction.t) (rawData : string)
    (n : network.Node) :
  16 <= Z.of_nat (String.length (Transaction.Hash tx)) ->
  network.handleNewTx peer (Some (network.mkNewTxMessage (Some tx))) rawData n
  = Ok (tt, if Transaction.IsValid tx then relayed_tx rawData tx n else n).
Proof.
  intros Hlen. unfold network.handleNewTx. cbn [network.Transaction].
  unfold bind at 1. rewrite slice_to_16 by exact Hlen.
  destruct (Transaction.IsValid tx) eqn:Hv; [|reflexivity].
  unfold bind at 1. unfold network.on_blockchain.
  rewrite AddTransaction_run, Hv. simpl negb. cbv iota.
  unfold relayed_tx.
  destruct (underfunded (network.blockchain n) tx);
    unfold bind; rewrite slice_to_16 by exact Hlen; reflexivity.
Qed.

Lemma handleNewTx_relays_witness :
  16 <= Z.of_nat (String.length (Transaction.Hash Scenario.spend1))
  /\ exists n',
       network.handleNewTx Scenario.p1 (Some (network.mkNewTxMessage (Some Scenario.spend1)))
         "raw bytes of the new_tx message" Run.nodeC = Ok (tt, n')
       /\ network.blockchain n' = Scenario.bcC
       /\ network.Conn <$> network.peers n' !! "p2" = Some ["raw bytes of the new_tx message"].
Proof.
  assert (Hlen : 16 <= Z.of_nat (String.length (Transaction.Hash Scenario.spend1)))
    by (vm_compute; discriminate).
  split; [exact Hlen|].
  pose proof (handleNewTx_relays Scenario.p1 Scenario.spend1 "raw bytes of the new_tx message"
                Run.nodeC Hlen) as Hrun.
  assert (Hv : Transaction.IsValid Scenario.spend1 = true) by (vm_compute; reflexivity).
  rewrite Hv in Hrun.
  exists (relayed_tx "raw bytes of the new_tx message" Scenario.spend1 Run.nodeC).
  split; [exact Hrun|].
  split; vm_compute; reflexivity.
Defined.

(** X23. The handlers slice the first sixteen symbols of the stored
    hash for a log line before any check: an announced block or
    transaction whose stored hash is shorter makes the handler panic,
    whatever the state of the node. *)
Theorem handlers_short_hash (peer : network.Peer) (message : network.NetworkMessage)
    (b : Block.t) (tx : Transaction.t) (rawData : string) (n : network.Node) :
  network.Data message = Some (network.mkNewBlockMessage (Some b)) ->
  Z.of_nat (String.length (Block.Hash b)) < 16 ->
  Z.of_nat (String.length (Transaction.Hash tx)) < 16 ->
  network.handleNewBlock peer message rawData n = Panic "slice bounds out of range"
  /\ network.handleNewTx peer (Some (network.mkNewTxMessage (Some tx))) rawData n
     = Panic "slice bounds out of range".
Proof.
  intros Hdata Hb Htx. split.
  - unfold network.handleNewBlock. rewrite Hdata. cbn [network.Block].
    unfold bind at 1. now rewrite slice_to_16_short by exact Hb.
  - unfold network.handleNewTx. cbn [network.Transaction].
    unfold bind at 1. now rewrite slice_to_16_short by exact Htx.
Qed.

Lemma handlers_short_hash_witness :
  Transaction.IsValid tx_short_hash = true
  /\ network.handleNewBlock Scenario.p1 announce_short_hash "raw" Scenario.node1
     = Panic "slice bounds out of range"
  /\ network.handleNewTx Scenario.p1 (Some (network.mkNewTxMessage (Some tx_short_hash)))
       "raw" Scenario.node1
     = Panic "slice bounds out of range".
Proof.
  assert (H1 : network.Data announce_short_hash
               = Some (network.mkNewBlockMessage (Some Run.block1_rewritten)))
    by reflexivity.
  assert (H2 : Z.of_nat (String.length (Block.Hash Run.block1_rewritten)) < 16)
    by (vm_compute; reflexivity).
  assert (H3 : Z.of_nat (String.length (Transaction.Hash tx_short_hash)) < 16)
    by (vm_compute; reflexivity).
  split; [vm_compute; reflexivity|].
  exact (handlers_short_hash Scenario.p1 announce_short_hash Run.block1_rewritten
           tx_short_hash "raw" Scenario.node1 H1 H2 H3).
Defined.

(** ** The registry of peers *)

(** X24. Adding a peer under an id the registry does not hold raises
    GetPeerCount by one and makes HasPeer true of the peer's address;
    removePeer of that id then gives back the node as it was. *)
Theorem addPeer_then_removePeer (p : network.Peer) (n : network.Node) :
  network.peers n !! network.ID p = None ->
  exists count n1,
    network.GetPeerCount n = Ok (count, n)
    /\ network.addPeer p n = Ok (tt, n1)
    /\ network.GetPeerCount n1 = Ok (count + 1, n1)
    /\ network.HasPeer (network.Address p) n1 = Ok (true, n1)
    /\ network.removePeer (network.ID p) n1 = Ok (tt, n).
Proof.
  intros Hfresh. eexists _, _. split; [reflexivity|]. split; [reflexivity|].
  split; [|split].
  - unfold network.GetPeerCount, bind, get, ret. simpl.
    rewrite map_size_insert_None by exact Hfresh. do 2 f_equal. lia.
  - unfold network.HasPeer, bind, get, ret. do 2 f_equal. simpl.
    apply existsb_exists. exists (network.ID p, p). split.
    + apply list_elem_of_In, elem_of_map_to_list, lookup_insert_eq.
    + apply String.eqb_refl.
  - unfold network.removePeer, modify. simpl.
    rewrite delete_insert_id by exact Hfresh. destruct n; reflexivity.
Qed.

Lemma addPeer_then_removePeer_witness :
  network.peers Scenario.node1 !! network.ID Run.p3 = None
  /\ exists n1,
       network.addPeer Run.p3 Scenario.node1 = Ok (tt, n1)
       /\ network.GetPeerCount n1 = Ok (3, n1)
       /\ network.removePeer "p3" n1 = Ok (tt, Scenario.node1).
Proof.
  assert (H : network.peers Scenario.node1 !! network.ID Run.p3 = None)
    by (vm_compute; reflexivity).
  split; [exact H|].
  destruct (addPeer_then_removePeer Run.p3 Scenario.node1 H)
    as (count & n1 & Hcount & Hadd & Hcount1 & _ & Hrem).
  exists n1. split; [exact Hadd|]. split; [|exact Hrem].
  assert (Hc : count = 2).
  { assert (Hc2 : network.GetPeerCount Scenario.node1 = Ok (2, Scenario.node1))
      by (vm_compute; reflexivity).
    rewrite Hc2 in Hcount. now injection Hcount. }
  rewrite Hcount1, Hc. reflexivity.
Defined.

(** X25. BroadcastMessage touches neither the chain state nor the set
    of peers.  Two broadcasts in a row leave both messages, in order, at
    the end of the connection of every connected peer, and nothing at a
    peer that is not connected. *)
Theorem BroadcastMessage_twice (m1 m2 : string) (n : network.Node) :
  exists n1 n2,
    network.BroadcastMessage m1 n = Ok (tt, n1)
    /\ network.BroadcastMessage m2 n1 = Ok (tt, n2)
    /\ network.blockchain n2 = network.blockchain n
    /\ forall id,
         network.peers n2 !! id
         = (fun p => if network.Connected p
                     then network.mkPeer (network.ID p) (network.Address p)
                            (network.Conn p ++ [m1; m2]) true (network.LastSeen p)
                     else p) <$> network.peers n !! id.
Proof.
  eexists _, _. split; [reflexivity|]. split; [reflexivity|]. split; [reflexivity|].
  intros id. simpl. rewrite !lookup_fmap.
  destruct (network.peers n !! id) as [p|]; [|reflexivity]. simpl. f_equal.
  destruct p as [pid addr conn [] seen]; simpl; [|reflexivity].
  unfold network.Write. simpl. now rewrite <- app_assoc.
Qed.

(** ** The reward and the header of a created block *)

Lemma CreateNewBlock_inv (now : Z) (miner : string) (bc bc' : Blockchain.t) (b : Block.t) :
  Blockchain.CreateNewBlock now miner bc = Ok ((Some b, None), bc') ->
  bc' = bc
  /\ 0 <= Blockchain.Difficulty bc
  /\ exists tip nonce,
       last (Blockchain.Chain bc) = Some tip
       /\ meets_difficulty (Blockchain.Difficulty bc)
            (hash_at (pow_of bc (candidate now miner bc tip)) nonce) = true
       /\ b = mined_block
                (ProofOfWork.set_Block_Nonce nonce (pow_of bc (candidate now miner bc tip)))
                nonce (hash_at (pow_of bc (candidate now miner bc tip)) nonce).
Proof.
  intros Hnew. pose proof Hnew as Hrun. revert Hrun.
  unfold Blockchain.CreateNewBlock. unfold bind at 1. unfold get at 1.
  destruct (_ =? 0); [discriminate|].
  unfold bind at 1. destruct (at_index _ _ bc) as [[tip s]|r] eqn:Hat; [|discriminate].
  apply at_index_last_inv in Hat. destruct Hat as [Hlast ->]. intros _.
  rewrite (CreateNewBlock_run now miner bc tip Hlast) in Hnew.
  set (pow := pow_of bc (candidate now miner bc tip)) in *.
  destruct (Z.lt_ge_cases (Blockchain.Difficulty bc) 0) as [Hneg|Hd].
  - rewrite Mine_negative_difficulty in Hnew by exact Hneg. discriminate.
  - destruct (Mine_cases pow Hd) as [(nonce & _ & Hmeets & Hmine)|[_ [pow' Hmine]]];
      rewrite Hmine in Hnew; [|discriminate].
    injection Hnew as <- <-. split; [reflexivity|]. split; [exact Hd|].
    exists tip, nonce. auto.
Qed.

Lemma created_block_accepted (now : Z) (miner : string) (bc bc' : Blockchain.t) (b : Block.t) :
  reachable bc ->
  Blockchain.CreateNewBlock now miner bc = Ok ((Some b, None), bc') ->
  Blockchain.IsValidBlock (Some b) bc = Ok (true, bc).
Proof.
  intros Hreach Hnew. destruct (CreateNewBlock_inv _ _ _ _ _ Hnew)
    as (_ & Hd & tip & nonce & Hlast & Hmeets & ->).
  apply (IsValidBlock_true_intro bc tip).
  - reflexivity.
  - exact Hlast.
  - reflexivity.
  - unfold pow_of. rewrite Validate_meets by exact Hd.
    change (meets_difficulty _ _)
      with (meets_difficulty (Blockchain.Difficulty bc)
              (hash_at (pow_of bc (candidate now miner bc tip)) nonce)).
    rewrite Hmeets. reflexivity.
  - apply forallb_firstn, reachable_pool_forallb, Hreach.
Qed.

(** X26. The reward of a created block is 50 whatever the block reward
    the chain was set up with: NewBlock writes 50, CreateNewBlock never
    reads the chain's setting, and AddBlock credits what the block
    carries. *)
Theorem created_block_reward (now : Z) (miner : string) (bc bc' : Blockchain.t) (b : Block.t) :
  reachable bc ->
  Blockchain.CreateNewBlock now miner bc = Ok ((Some b, None), bc') ->
  Block.BlockReward b = 50%float
  /\ exists bc'',
       Blockchain.AddBlock (Some b) bc = Ok (None, bc'')
       /\ Blockchain.BlockReward bc'' = Blockchain.BlockReward bc
       /\ Blockchain.balance (Blockchain.Accounts bc'') miner
          = PrimFloat.add
              (Blockchain.balance
                 (fold_left transfer (Block.Transactions b) (Blockchain.Accounts bc)) miner)
              50.
Proof.
  intros Hreach Hnew.
  pose proof (created_block_accepted _ _ _ _ _ Hreach Hnew) as Hv.
  destruct (CreateNewBlock_inv _ _ _ _ _ Hnew) as (_ & _ & tip & nonce & _ & _ & Hb).
  split; [rewrite Hb; reflexivity|].
  exists (commit bc b). split; [apply AddBlock_commit, Hv|]. split; [reflexivity|].
  simpl. unfold reward, Blockchain.balance at 1. rewrite Hb. simpl.
  rewrite lookup_insert_eq. reflexivity.
Qed.

Lemma created_block_reward_witness :
  reachable Run.bc7
  /\ Blockchain.BlockReward Run.bc7 = 7%float
  /\ Blockchain.CreateNewBlock (Scenario.now0 + 10) "M" Run.bc7
     = Ok ((Some Run.block7, None), Run.bc7)
  /\ Block.BlockReward Run.block7 = 50%float.
Proof.
  assert (Hr : reachable Run.bc7).
  { apply (reach_NewBlockchain Scenario.now0 1 7). vm_compute. reflexivity. }
  assert (Hnew : Blockchain.CreateNewBlock (Scenario.now0 + 10) "M" Run.bc7
                 = Ok ((Some Run.block7, None), Run.bc7)) by (vm_compute; reflexivity).
  split; [exact Hr|]. split; [reflexivity|]. split; [exact Hnew|].
  exact (proj1 (created_block_reward _ _ _ _ _ Hr Hnew)).
Defined.

(** X27. The header of a created block passes the validator: its
    version is 1, its merkle root is that of its transactions and its
    proof of work holds, so validateBlockHeader returns true at any time
    not more than two hours before the block's timestamp; and when the
    pool was empty the validator's ValidateBlock accepts the block. *)
Theorem created_block_header (now now' : Z) (miner : string) (bc bc' : Blockchain.t)
    (b : Block.t) :
  Blockchain.CreateNewBlock now miner bc = Ok ((Some b, None), bc') ->
  now <= now' + 7200 ->
  Block.MerkleRoot b = Block.CalculateMerkleRoot b
  /\ Validator.validateBlockHeader now' b bc = Ok (true, bc)
  /\ (Blockchain.TransactionPool bc = [] ->
      Validator.ValidateBlock now' (Some b) bc = Ok (true, bc)).
Proof.
  intros Hnew Htime. destruct (CreateNewBlock_inv _ _ _ _ _ Hnew)
    as (_ & Hd & tip & nonce & Hlast & Hmeets & ->).
  set (b := mined_block _ _ _).
  assert (Hroot : Block.MerkleRoot b = Block.CalculateMerkleRoot b) by reflexivity.
  assert (Hheader : Validator.validateBlockHeader now' b bc = Ok (true, bc)).
  { unfold Validator.validateBlockHeader.
    change (Block.Version b) with 1. change (Block.Timestamp b) with now.
    replace (now' + 7200 <? now) with false by (symmetry; apply Z.ltb_ge; lia).
    change (1 <? 1) with false. cbv iota.
    unfold bind, get, call. rewrite Validate_meets by exact Hd.
    change (meets_difficulty _ _)
      with (meets_difficulty (Blockchain.Difficulty bc)
              (hash_at (pow_of bc (candidate now miner bc tip)) nonce)).
    rewrite Hmeets, Hroot, String.eqb_refl. reflexivity. }
  split; [exact Hroot|]. split; [exact Hheader|].
  intros Hpool. unfold Validator.ValidateBlock. unfold bind at 1. rewrite Hheader. simpl.
  change (Block.Transactions b) with (firstn 100 (Blockchain.TransactionPool bc)).
  rewrite Hpool. reflexivity.
Qed.

Lemma created_block_header_witness :
  Blockchain.CreateNewBlock (Scenario.now0 + 10) "M" Run.bc7
  = Ok ((Some Run.block7, None), Run.bc7)
  /\ Validator.ValidateBlock (Scenario.now0 + 20) (Some Run.block7) Run.bc7
     = Ok (true, Run.bc7).
Proof.
  assert (Hnew : Blockchain.CreateNewBlock (Scenario.now0 + 10) "M" Run.bc7
                 = Ok ((Some Run.block7, None), Run.bc7)) by (vm_compute; reflexivity).
  assert (Htime : Scenario.now0 + 10 <= Scenario.now0 + 20 + 7200) by (vm_compute; discriminate).
  assert (Hpool : Blockchain.TransactionPool Run.bc7 = []) by reflexivity.
  split; [exact Hnew|].
  exact (proj2 (proj2 (created_block_header _ _ _ _ _ _ Hnew Htime)) Hpool).
Defined.

(** ** A new chain *)

(** X28. NewBlockchain never panics, whatever the difficulty and the
    reward.  The new chain has one block, whose stored hash is its
    computed hash; genesis_address holds 1000000 and every other address
    nothing; the pool is empty and IsChainValid holds. *)
Theorem NewBlockchain_spec (now difficulty : Z) (blockReward : float) :
  exists bc g,
    Blockchain.NewBlockchain now difficulty blockReward = Ok bc
    /\ Blockchain.Chain bc = [g]
    /\ Blockchain.GetLastBlock bc = Ok (Some g, bc)
    /\ Block.Hash g = Block.CalculateHash g
    /\ Block.MerkleRoot g = Block.CalculateMerkleRoot g
    /\ Blockchain.TransactionPool bc = []
    /\ Blockchain.IsChainValid bc = Ok (true, bc)
    /\ forall address,
         Blockchain.GetBalance address bc
         = Ok (if String.eqb address "genesis_address" then 1000000%float else 0%float, bc).
Proof.
  eexists _, _. split; [apply NewBlockchain_run|].
  split; [reflexivity|]. split; [reflexivity|]. split; [reflexivity|].
  split; [reflexivity|]. split; [reflexivity|]. split; [reflexivity|].
  intros address. unfold Blockchain.GetBalance, bind, get, ret. do 2 f_equal.
  unfold Blockchain.balance, genesis_allocation. simpl.
  destruct (String.eqb_spec address "genesis_address") as [->|Hne].
  - now rewrite lookup_insert_eq.
  - rewrite lookup_insert_ne by congruence. now rewrite lookup_empty.
Qed.

(** ** A chain without a genesis block *)

(** X29. On a chain state with no block at all, GetLastBlock returns
    nil, CreateNewBlock returns its error, IsChainValid returns true and
    the validator's ValidateChain false; AddBlock turns down a block
    whose index is not 0 and panics on a block whose index is 0, reading
    the last element of the empty chain. *)
Theorem empty_chain_behaviour (bc : Blockchain.t) :
  Blockchain.Chain bc = [] ->
  Blockchain.GetLastBlock bc = Ok (None, bc)
  /\ (forall now miner,
        Blockchain.CreateNewBlock now miner bc
        = Ok ((None, Some "blockchain not initialized"), bc))
  /\ Blockchain.IsChainValid bc = Ok (true, bc)
  /\ (forall now, Validator.ValidateChain now bc = Ok (false, bc))
  /\ (forall b, Block.Index b <> 0 ->
        Blockchain.AddBlock (Some b) bc = Ok (Some "invalid block", bc))
  /\ (forall b, Block.Index b = 0 ->
        Blockchain.AddBlock (Some b) bc = Panic "index out of range").
Proof.
  intros Hempty.
  split; [unfold Blockchain.GetLastBlock, bind, get; now rewrite Hempty|].
  split; [intros now miner; unfold Blockchain.CreateNewBlock, bind, get; now rewrite Hempty|].
  split; [unfold Blockchain.IsChainValid, bind, get; now rewrite Hempty|].
  split; [intros now; unfold Validator.ValidateChain, bind, get; now rewrite Hempty|].
  split.
  - intros b Hi. unfold Blockchain.AddBlock. unfold bind at 1.
    rewrite IsValidBlock_other_index; [reflexivity|]. now rewrite Hempty.
  - intros b Hi. unfold Blockchain.AddBlock. unfold bind at 1.
    unfold Blockchain.IsValidBlock, bind, get. rewrite Hempty, Hi. reflexivity.
Qed.

Lemma empty_chain_behaviour_witness :
  Blockchain.Chain Run.bc_empty = []
  /\ Blockchain.AddBlock (Some Scenario.genesis) Run.bc_empty = Panic "index out of range".
Proof.
  assert (H : Blockchain.Chain Run.bc_empty = []) by reflexivity.
  assert (Hi : Block.Index Scenario.genesis = 0) by reflexivity.
  split; [exact H|].
  exact (proj2 (proj2 (proj2 (proj2 (proj2 (empty_chain_behaviour Run.bc_empty H)))))
           Scenario.genesis Hi).
Defined.

(** ** No work asked for *)

(** X30. Under a difficulty of zero every hash is accepted: Validate
    returns true for every block, and Mine returns nonce 0 with the hash
    of the block at that nonce after a single attempt. *)
Theorem difficulty_zero (pow : ProofOfWork.t) :
  ProofOfWork.Difficulty pow = 0 ->
  ProofOfWork.Validate pow = Ok (true, pow)
  /\ ProofOfWork.Mine pow
     = Ok ((0, hash_at pow 0, None), ProofOfWork.set_Block_Nonce 0 pow).
Proof.
  intros Hzero.
  assert (Hd : 0 <= ProofOfWork.Difficulty pow) by lia.
  assert (Hany : forall hash, meets_difficulty (ProofOfWork.Difficulty pow) hash = true).
  { intros hash. rewrite Hzero. unfold meets_difficulty. simpl.
    replace (0 <=? Z.of_nat (String.length hash)) with true by (symmetry; apply Z.leb_le; lia).
    destruct hash; reflexivity. }
  split.
  - rewrite Validate_meets by exact Hd. now rewrite Hany.
  - rewrite Mine_unfold.
    assert (HM : (0 < Z.to_nat ProofOfWork.MaxNonce)%nat)
      by (unfold ProofOfWork.MaxNonce; lia).
    rewrite (mine_loop_found 0 _ 0 pow Hd HM).
    + reflexivity.
    + intros j Hj. lia.
    + apply Hany.
Qed.

Lemma difficulty_zero_witness :
  ProofOfWork.Difficulty Run.pow_zero = 0
  /\ ProofOfWork.Validate Run.pow_zero = Ok (true, Run.pow_zero)
  /\ ProofOfWork.Mine Run.pow_zero
     = Ok ((0, hash_at Run.pow_zero 0, None), ProofOfWork.set_Block_Nonce 0 Run.pow_zero).
Proof.
  assert (H : ProofOfWork.Difficulty Run.pow_zero = 0) by reflexivity.
  split; [exact H | exact (difficulty_zero Run.pow_zero H)].
Defined.
